(** * jiff: the line-alignment engine (src/python/diff/align.py)

    A shallow embedding of [align] and of the classes it is built from
    ([Point], [AlignmentNode], [AlignmentMatrix]), followed by the
    properties of the alignment that the specification states.

    Conventions of the embedding:
    - Python integers are [Z]; [//] and [%] by a positive constant are
      [Z.div] and [Z.modulo] (both round towards minus infinity), [|] is
      [Z.lor].
    - A Python [list] is a Rocq [list]; subscripting is [getitem], which
      wraps negative indices and raises [IndexError] out of range.
    - [math.inf] and the integers it is compared with are the type [num].
    - Exceptions are the constructors of [result]; the only one the module
      can raise is [IndexError].  The [while] loop of [walk_path] is run
      with fuel; [OutOfFuel] is the model's, not Python's.
    - The nodes are mutable objects held by the matrix; fetching a node and
      assigning to one of its fields is [update_node] on the matrix.
    - [difflib.ndiff] belongs to the Python standard library; it is a
      parameter of the development (a [Section] variable). *)

From Stdlib Require Import ZArith List String Ascii Bool Lia.
Import ListNotations.
Open Scope Z_scope.

Ltac Zify.zify_post_hook ::= Z.to_euclidean_division_equations.

(** ** Results and exceptions *)

Inductive result (A : Type) : Type :=
| Ok (a : A)
| IndexError
| OutOfFuel.

Arguments Ok {A} a.
Arguments IndexError {A}.
Arguments OutOfFuel {A}.

Definition bind {A B : Type} (m : result A) (k : A -> result B) : result B :=
  match m with
  | Ok a => k a
  | IndexError => IndexError
  | OutOfFuel => OutOfFuel
  end.

Notation "x <- m ;; k" := (bind m (fun x => k))
  (at level 61, m at next level, right associativity).

(** [for x in xs: s = body(s, x)], stopping at the first exception. *)
Fixpoint foldM {A S : Type} (body : S -> A -> result S) (xs : list A) (s : S)
  : result S :=
  match xs with
  | [] => Ok s
  | x :: xs' => s' <- body s x ;; foldM body xs' s'
  end.

(** [[f(x) for x in xs]], stopping at the first exception. *)
Fixpoint mapM {A B : Type} (f : A -> result B) (xs : list A) : result (list B) :=
  match xs with
  | [] => Ok []
  | x :: xs' => y <- f x ;; ys <- mapM f xs' ;; Ok (y :: ys)
  end.

(** ** Python lists *)

(** [range(n)] *)
Definition range (n : Z) : list Z := map Z.of_nat (seq 0 (Z.to_nat n)).

(** The position a subscript [i] denotes in a list of length [n]: negative
    subscripts count from the end. *)
Definition norm_index (n : nat) (i : Z) : Z :=
  if i <? 0 then i + Z.of_nat n else i.

(** [l[i]] *)
Definition getitem {A : Type} (l : list A) (i : Z) : result A :=
  let k := norm_index (List.length l) i in
  if k <? 0 then IndexError
  else match nth_error l (Z.to_nat k) with
       | Some a => Ok a
       | None => IndexError
       end.

Fixpoint replace_nth {A : Type} (n : nat) (l : list A) (a : A) : list A :=
  match l, n with
  | [], _ => []
  | _ :: t, O => a :: t
  | h :: t, S n' => h :: replace_nth n' t a
  end.

(** The list [l] once the object at [l[i]] has been replaced by [a]. *)
Definition setitem {A : Type} (l : list A) (i : Z) (a : A) : list A :=
  replace_nth (Z.to_nat (norm_index (List.length l) i)) l a.

(** ** class Point *)

Record Point : Type := mkPoint { px : Z; py : Z }.

(** ** int or math.inf *)

Inductive num : Type :=
| Int (z : Z)
| Inf.

(** [a + w] where [w] is an int *)
Definition num_add (a : num) (w : Z) : num :=
  match a with
  | Int z => Int (z + w)
  | Inf => Inf
  end.

(** [a > b] *)
Definition num_gt (a b : num) : bool :=
  match a, b with
  | Int x, Int y => x >? y
  | Int _, Inf => false
  | Inf, Int _ => true
  | Inf, Inf => false
  end.

(** [a < b] *)
Definition num_lt (a b : num) : bool := num_gt b a.

(** ** class AlignmentNode *)

Record AlignmentNode : Type := mkNode {
  id : Point;
  weight : Z;
  relax_weight : num;
  relax_parent : Point
}.

(** [AlignmentNode.__init__] *)
Definition AlignmentNode_init (x y weight : Z) : AlignmentNode :=
  {| id := mkPoint x y;
     weight := weight;
     relax_weight := Inf;
     relax_parent := mkPoint 0 0 |}.

(** [AlignmentNode.relax] *)
Definition relax (self : AlignmentNode) (predecessor_id : Point)
    (predecessor_weight : num) : AlignmentNode :=
  let candidate_weight := num_add predecessor_weight (weight self) in
  if num_gt (relax_weight self) candidate_weight then
    {| id := id self;
       weight := weight self;
       relax_weight := candidate_weight;
       relax_parent := predecessor_id |}
  else self.

(** [vertex.relax_weight = w] *)
Definition set_relax_weight (w : num) (vertex : AlignmentNode) : AlignmentNode :=
  {| id := id vertex;
     weight := weight vertex;
     relax_weight := w;
     relax_parent := relax_parent vertex |}.

(** ** class AlignmentMatrix *)

Record AlignmentMatrix : Type := mkMatrix {
  line_matrix_x_len : Z;
  line_matrix_y_len : Z;
  line_matrix : list (list AlignmentNode)
}.

(** [self.line_matrix[x][y]] *)
Definition get_node (self : AlignmentMatrix) (x y : Z) : result AlignmentNode :=
  row <- getitem (line_matrix self) x ;;
  getitem row y.

(** [node = self.line_matrix[x][y]] followed by an assignment to fields of
    [node], which turns it into [f node]: the matrix holds the very object,
    so the matrix sees the change. *)
Definition update_node (self : AlignmentMatrix) (x y : Z)
    (f : AlignmentNode -> AlignmentNode) : result AlignmentMatrix :=
  row <- getitem (line_matrix self) x ;;
  node <- getitem row y ;;
  Ok {| line_matrix_x_len := line_matrix_x_len self;
        line_matrix_y_len := line_matrix_y_len self;
        line_matrix := setitem (line_matrix self) x (setitem row y (f node)) |}.

(** A line is a [str]; [len] counts its characters. *)
Definition len (line : string) : Z := Z.of_nat (String.length line).

Section Align.

(** [difflib.ndiff(line_b, line_a)] on two strings compares them character by
    character.  It returns a generator; [ndiff line_b line_a] is the list of
    the delta lines this generator yields, each one with its first character
    (the tag: [" "], ["-"], ["+"] or ["?"]) split from the rest. *)
Variable ndiff : string -> string -> list (ascii * string).

(** A generator is consumed as it is iterated: its state is the list of the
    items it has not yielded yet. *)
Definition generator : Type := list (ascii * string).

(** [sum(1 for _ in g if p(_[0]))]: iterates [g] to its end, and leaves it
    exhausted. *)
Definition sum1 (p : ascii -> bool) (g : generator) : Z * generator :=
  (Z.of_nat (List.length (filter (fun t => p (fst t)) g)), []).

(** [_[0] != ' '] *)
Definition not_equal_tag (c : ascii) : bool := negb (Ascii.eqb c " ").

(** [_[0] in ['+', '-']] *)
Definition ins_or_del_tag (c : ascii) : bool := Ascii.eqb c "+" || Ascii.eqb c "-".

(** Lines 80-83 of [AlignmentMatrix.__init__]: the weight of pairing
    [line_b] with [line_a].  [changeset] is one generator object, iterated
    by both sums in turn. *)
Definition substitution_weight (line_b line_a : string) : Z :=
  let changeset := ndiff line_b line_a in
  let '(edit_dist, changeset) := sum1 not_equal_tag changeset in
  let '(operations, changeset) := sum1 ins_or_del_tag changeset in
  edit_dist * ((operations + 1) / 2).

(** Lines 66-83: the weight of the node at [(x, y)]. *)
Definition node_weight (lines_b lines_a : list string)
    (unalign_b_weights unalign_a_weights : list Z) (x y : Z) : result Z :=
  let aligned_x := negb (x mod 2 =? 0) in
  let aligned_y := negb (y mod 2 =? 0) in
  if negb aligned_x && negb aligned_y then Ok (-1)
  else if aligned_x && negb aligned_y then getitem unalign_b_weights (x / 2)
  else if negb aligned_x && aligned_y then getitem unalign_a_weights (y / 2)
  else
    line_b <- getitem lines_b (x / 2) ;;
    line_a <- getitem lines_a (y / 2) ;;
    Ok (substitution_weight line_b line_a).

(** [AlignmentMatrix.__init__] *)
Definition AlignmentMatrix_init (lines_b lines_a : list string)
  : result AlignmentMatrix :=
  let lines_b_len := Z.of_nat (List.length lines_b) in
  let lines_a_len := Z.of_nat (List.length lines_a) in
  let x_len := lines_b_len * 2 + 1 in
  let y_len := lines_a_len * 2 + 1 in
  let unalign_b_weights := map len lines_b in
  let unalign_a_weights := map len lines_a in
  rows <- mapM (fun x =>
            mapM (fun y =>
              weight <- node_weight lines_b lines_a
                          unalign_b_weights unalign_a_weights x y ;;
              Ok (AlignmentNode_init x y weight))
            (range y_len))
          (range x_len) ;;
  Ok {| line_matrix_x_len := x_len;
        line_matrix_y_len := y_len;
        line_matrix := rows |}.

(** [AlignmentMatrix.root_adjacency] *)
Definition root_adjacency : list Point :=
  [mkPoint 0 1; mkPoint 1 0; mkPoint 1 1].

(** [AlignmentMatrix.adjacency] *)
Definition adjacency (self : AlignmentMatrix) (node : AlignmentNode) : list Point :=
  let next_x := px (id node) + (px (id node) mod 2) in
  let next_y := py (id node) + (py (id node) mod 2) in
  let next_x_aligned := next_x + 1 in
  let next_y_aligned := next_y + 1 in
  (if next_x_aligned <? line_matrix_x_len self
   then [mkPoint next_x_aligned next_y] else [])
  ++ (if next_y_aligned <? line_matrix_y_len self
      then [mkPoint next_x next_y_aligned] else [])
  ++ (if (next_x_aligned <? line_matrix_x_len self)
         && (next_y_aligned <? line_matrix_y_len self)
      then [mkPoint next_x_aligned next_y_aligned] else []).

(** [AlignmentMatrix.walk_path]: the [while] loop, [fuel] bounding the number
    of iterations. *)
Fixpoint walk_path_loop (fuel : nat) (self : AlignmentMatrix)
    (pos : AlignmentNode) (path : list Point) : result (list Point) :=
  if (px (id pos) >? 0) || (py (id pos) >? 0) then
    match fuel with
    | O => OutOfFuel
    | S fuel' =>
        let path := path ++ [id pos] in
        here <- get_node self (px (id pos)) (py (id pos)) ;;
        let next_pos := relax_parent here in
        pos <- get_node self (px next_pos) (py next_pos) ;;
        walk_path_loop fuel' self pos path
    end
  else Ok path.

Definition walk_path (fuel : nat) (self : AlignmentMatrix) (exit : AlignmentNode)
  : result (list Point) :=
  path <- walk_path_loop fuel self exit [] ;;
  Ok (rev path).

(** Lines 129-131 of [shortest_path]: the nodes next to the root. *)
Definition init_roots (self : AlignmentMatrix) : result AlignmentMatrix :=
  foldM (fun self adj =>
           update_node self (px adj) (py adj) (set_relax_weight (Int 0)))
        root_adjacency self.

(** Lines 149-155: the body of the sweep at [(x, y)]. *)
Definition relax_from (self : AlignmentMatrix) (x y : Z) : result AlignmentMatrix :=
  vertex <- get_node self x y ;;
  let vertex_id := id vertex in
  let vertex_weight := relax_weight vertex in
  let adjacency := adjacency self vertex in
  foldM (fun self adj =>
           update_node self (px adj) (py adj)
             (fun child => relax child vertex_id vertex_weight))
        adjacency self.

(** Lines 145-155: the sweep over the matrix. *)
Definition sweep (self : AlignmentMatrix) : result AlignmentMatrix :=
  foldM (fun self x =>
           foldM (fun self y =>
                    if (Z.lor x y) mod 2 =? 0 then Ok self
                    else relax_from self x y)
                 (range (line_matrix_y_len self)) self)
        (range (line_matrix_x_len self)) self.

(** Lines 129-155: the matrix once every edge has been relaxed. *)
Definition relax_all (self : AlignmentMatrix) : result AlignmentMatrix :=
  self <- init_roots self ;;
  sweep self.

(** Lines 160-168: the choice among the three exit nodes. *)
Definition choose_exit (exit_x exit_y exit_xy : AlignmentNode) : AlignmentNode :=
  if num_lt (relax_weight exit_x) (relax_weight exit_y)
     && num_lt (relax_weight exit_x) (relax_weight exit_xy)
  then exit_x
  else if num_lt (relax_weight exit_y) (relax_weight exit_xy)
  then exit_y
  else exit_xy.

(** [AlignmentMatrix.shortest_path] *)
Definition shortest_path (fuel : nat) (self : AlignmentMatrix)
  : result (list Point) :=
  self <- relax_all self ;;
  exit_xy <- get_node self (line_matrix_x_len self - 2) (line_matrix_y_len self - 2) ;;
  exit_x <- get_node self (line_matrix_x_len self - 2) (line_matrix_y_len self - 1) ;;
  exit_y <- get_node self (line_matrix_x_len self - 1) (line_matrix_y_len self - 2) ;;
  walk_path fuel self (choose_exit exit_x exit_y exit_xy).

(** Lines 176-178 of [align]: the pair a point of the path stands for. *)
Definition pair_of_point (lines_b lines_a : list string) (point : Point)
  : result (option string * option string) :=
  before <- (if negb (px point mod 2 =? 0)
             then line <- getitem lines_b (px point / 2) ;; Ok (Some line)
             else Ok None) ;;
  after <- (if negb (py point mod 2 =? 0)
            then line <- getitem lines_a (py point / 2) ;; Ok (Some line)
            else Ok None) ;;
  Ok (before, after).

(** [align] *)
Definition align (fuel : nat) (lines_b lines_a : list string)
  : result (list (option string * option string)) :=
  matrix <- AlignmentMatrix_init lines_b lines_a ;;
  path <- shortest_path fuel matrix ;;
  mapM (pair_of_point lines_b lines_a) path.

End Align.


(** * Properties of the embedding *)

(** ** Lists, subscripts and loops *)

Section Lists.

Context {A : Type}.

Lemma replace_nth_length (n : nat) (l : list A) (a : A) :
  List.length (replace_nth n l a) = List.length l.
Proof.
  revert n; induction l as [|h t IH]; intros [|n]; simpl; auto.
Qed.

Lemma nth_replace_nth_eq (n : nat) (l : list A) (a d : A) :
  (n < List.length l)%nat -> nth n (replace_nth n l a) d = a.
Proof.
  revert n; induction l as [|h t IH]; intros [|n] H; simpl in *; try lia; auto.
  apply IH; lia.
Qed.

Lemma nth_replace_nth_neq (n k : nat) (l : list A) (a d : A) :
  n <> k -> nth k (replace_nth n l a) d = nth k l d.
Proof.
  revert n k; induction l as [|h t IH]; intros [|n] [|k] H; simpl; auto;
    try congruence.
Qed.

Lemma getitem_in_range (l : list A) (i : Z) (d : A) :
  0 <= i < Z.of_nat (List.length l) ->
  getitem l i = Ok (nth (Z.to_nat i) l d).
Proof.
  intros H. unfold getitem, norm_index.
  destruct (i <? 0) eqn:E; [apply Z.ltb_lt in E; lia|]. rewrite E.
  destruct (nth_error l (Z.to_nat i)) eqn:N.
  - f_equal. symmetry. apply nth_error_nth. exact N.
  - apply nth_error_None in N. lia.
Qed.

Lemma getitem_too_large (l : list A) (i : Z) :
  Z.of_nat (List.length l) <= i -> getitem l i = IndexError.
Proof.
  intros H. unfold getitem, norm_index.
  destruct (i <? 0) eqn:E; [apply Z.ltb_lt in E; lia|]. rewrite E.
  destruct (nth_error l (Z.to_nat i)) eqn:N; auto.
  assert (nth_error l (Z.to_nat i) <> None) by congruence.
  apply nth_error_Some in H0. lia.
Qed.

Lemma setitem_length (l : list A) (i : Z) (a : A) :
  List.length (setitem l i a) = List.length l.
Proof. apply replace_nth_length. Qed.

Lemma nth_setitem (l : list A) (i : Z) (a d : A) (k : nat) :
  0 <= i < Z.of_nat (List.length l) ->
  nth k (setitem l i a) d = if (Z.of_nat k =? i) then a else nth k l d.
Proof.
  intros H. unfold setitem, norm_index.
  destruct (i <? 0) eqn:E; [apply Z.ltb_lt in E; lia|].
  destruct (Z.of_nat k =? i) eqn:K.
  - apply Z.eqb_eq in K. subst i. rewrite Nat2Z.id.
    apply nth_replace_nth_eq. lia.
  - apply Z.eqb_neq in K. apply nth_replace_nth_neq. lia.
Qed.

End Lists.

Lemma range_length (n : Z) : List.length (range n) = Z.to_nat n.
Proof. unfold range. rewrite length_map, length_seq. reflexivity. Qed.

Lemma range_nth (n i d : Z) : 0 <= i < n -> nth (Z.to_nat i) (range n) d = i.
Proof.
  intros H. unfold range.
  rewrite nth_indep with (d' := Z.of_nat 0%nat)
    by (rewrite length_map, length_seq; lia).
  rewrite map_nth, seq_nth by lia. lia.
Qed.

Lemma nth_map_range {B : Type} (f : Z -> B) (n i : Z) (d : B) :
  0 <= i < n -> nth (Z.to_nat i) (map f (range n)) d = f i.
Proof.
  intros H.
  rewrite nth_indep with (d' := f 0) by (rewrite length_map, range_length; lia).
  rewrite (map_nth f), range_nth by lia. reflexivity.
Qed.

Lemma range_In (n i : Z) : In i (range n) <-> 0 <= i < n.
Proof.
  unfold range. rewrite in_map_iff. split.
  - intros [k [<- Hk]]. apply in_seq in Hk. lia.
  - intros H. exists (Z.to_nat i). split; [lia|]. apply in_seq. lia.
Qed.

Lemma range_succ (n : Z) : 0 <= n -> range (n + 1) = range n ++ [n].
Proof.
  intros H. unfold range.
  replace (Z.to_nat (n + 1)) with (Z.to_nat n + 1)%nat by lia.
  rewrite seq_app, map_app. simpl. f_equal. f_equal. lia.
Qed.

Lemma foldM_app {A St : Type} (body : St -> A -> result St) (xs ys : list A) (s : St) :
  foldM body (xs ++ ys) s = (s' <- foldM body xs s ;; foldM body ys s').
Proof.
  revert s; induction xs as [|x xs IH]; intros s; simpl; auto.
  destruct (body s x); simpl; auto.
Qed.

(** A [for i in range(n)] loop that keeps an invariant runs to its end. *)
Lemma foldM_range_inv {St : Type} (body : St -> Z -> result St) (n : Z)
    (P : Z -> St -> Prop) (s0 : St) :
  0 <= n ->
  P 0 s0 ->
  (forall i s, 0 <= i < n -> P i s -> exists s', body s i = Ok s' /\ P (i + 1) s') ->
  exists s', foldM body (range n) s0 = Ok s' /\ P n s'.
Proof.
  intros Hn H0 Hstep.
  assert (G : forall k : nat, Z.of_nat k <= n ->
            exists s', foldM body (range (Z.of_nat k)) s0 = Ok s' /\ P (Z.of_nat k) s').
  { induction k as [|k IH]; intros Hk.
    - exists s0. split; auto.
    - destruct IH as [s1 [F1 P1]]; [lia|].
      destruct (Hstep (Z.of_nat k) s1) as [s2 [F2 P2]]; [lia|auto|].
      exists s2. replace (Z.of_nat (S k)) with (Z.of_nat k + 1) by lia.
      rewrite range_succ by lia. rewrite foldM_app, F1. simpl. rewrite F2.
      split; auto. }
  destruct (G (Z.to_nat n)) as [s' [F P']]; [lia|].
  rewrite Z2Nat.id in * by lia. eauto.
Qed.

Lemma mapM_map {A B : Type} (f : A -> result B) (g : A -> B) (xs : list A) :
  (forall x, In x xs -> f x = Ok (g x)) -> mapM f xs = Ok (map g xs).
Proof.
  induction xs as [|x xs IH]; intros H; simpl; auto.
  rewrite H by (left; auto). simpl. rewrite IH; auto.
  intros; apply H; right; auto.
Qed.

(** ** The matrix as a grid of nodes *)

Definition dummy_node : AlignmentNode := AlignmentNode_init 0 0 0.

(** The node stored at row [x], column [y] (for subscripts inside the grid). *)
Definition node_at (self : AlignmentMatrix) (x y : Z) : AlignmentNode :=
  nth (Z.to_nat y) (nth (Z.to_nat x) (line_matrix self) []) dummy_node.

(** [self] is a grid of [xl] rows of [yl] nodes. *)
Record shape (self : AlignmentMatrix) (xl yl : Z) : Prop := mkShape {
  shape_x_len : line_matrix_x_len self = xl;
  shape_y_len : line_matrix_y_len self = yl;
  shape_rows : Z.of_nat (List.length (line_matrix self)) = xl;
  shape_cols : forall x, 0 <= x < xl ->
    Z.of_nat (List.length (nth (Z.to_nat x) (line_matrix self) [])) = yl
}.

Lemma get_node_in_grid (self : AlignmentMatrix) (xl yl x y : Z) :
  shape self xl yl -> 0 <= x < xl -> 0 <= y < yl ->
  get_node self x y = Ok (node_at self x y).
Proof.
  intros [_ _ Hr Hc] Hx Hy. unfold get_node, node_at.
  rewrite (getitem_in_range _ x []) by lia. simpl.
  apply getitem_in_range. rewrite Hc; lia.
Qed.

Lemma update_node_in_grid (self : AlignmentMatrix) (xl yl x y : Z)
    (f : AlignmentNode -> AlignmentNode) :
  shape self xl yl -> 0 <= x < xl -> 0 <= y < yl ->
  exists self',
    update_node self x y f = Ok self' /\
    shape self' xl yl /\
    forall x' y', 0 <= x' -> 0 <= y' ->
      node_at self' x' y' =
        if (x' =? x) && (y' =? y) then f (node_at self x y)
        else node_at self x' y'.
Proof.
  intros [Hxl Hyl Hr Hc] Hx Hy. unfold update_node.
  rewrite (getitem_in_range _ x []) by lia. simpl.
  rewrite (getitem_in_range _ y dummy_node) by (rewrite Hc; lia). simpl.
  eexists. split; [reflexivity|]. split.
  - constructor; simpl; auto.
    + rewrite setitem_length. exact Hr.
    + intros x0 Hx0. rewrite nth_setitem by lia.
      destruct (Z.of_nat (Z.to_nat x0) =? x).
      * rewrite setitem_length. apply Hc; lia.
      * apply Hc; lia.
  - intros x' y' Hx' Hy'. unfold node_at; simpl.
    rewrite nth_setitem by lia. rewrite Z2Nat.id by lia.
    destruct (x' =? x) eqn:Ex; simpl; auto.
    rewrite nth_setitem by (rewrite Hc; lia). rewrite Z2Nat.id by lia.
    apply Z.eqb_eq in Ex. subst x'.
    destruct (y' =? y); auto.
Qed.

(** ** The weights *)

(** The weight [AlignmentMatrix.__init__] gives to the node at [(x, y)]. *)
Definition weight_at (lines_b lines_a : list string) (x y : Z) : Z :=
  if x mod 2 =? 0 then
    if y mod 2 =? 0 then -1
    else len (nth (Z.to_nat (y / 2)) lines_a EmptyString)
  else
    if y mod 2 =? 0 then len (nth (Z.to_nat (x / 2)) lines_b EmptyString)
    else 0.

Section Weights.

Variable ndiff : string -> string -> list (ascii * string).

(** The second sum of line 82 runs over an exhausted generator. *)
Lemma substitution_weight_zero (line_b line_a : string) :
  substitution_weight ndiff line_b line_a = 0.
Proof.
  unfold substitution_weight, sum1. simpl. apply Z.mul_0_r.
Qed.

Lemma node_weight_in_grid (lines_b lines_a : list string) (x y : Z) :
  0 <= x < Z.of_nat (List.length lines_b) * 2 + 1 ->
  0 <= y < Z.of_nat (List.length lines_a) * 2 + 1 ->
  node_weight ndiff lines_b lines_a (map len lines_b) (map len lines_a) x y
  = Ok (weight_at lines_b lines_a x y).
Proof.
  intros Hx Hy. unfold node_weight, weight_at.
  destruct (Z.eqb_spec (x mod 2) 0) as [Ex|Ex];
    destruct (Z.eqb_spec (y mod 2) 0) as [Ey|Ey]; cbn [negb andb]; auto.
  - rewrite (getitem_in_range _ _ (len EmptyString)) by (rewrite length_map; lia).
    rewrite map_nth. reflexivity.
  - rewrite (getitem_in_range _ _ (len EmptyString)) by (rewrite length_map; lia).
    rewrite map_nth. reflexivity.
  - rewrite (getitem_in_range _ _ EmptyString) by lia. cbn [bind].
    rewrite (getitem_in_range _ _ EmptyString) by lia. cbn [bind].
    rewrite substitution_weight_zero. reflexivity.
Qed.

(** The matrix [AlignmentMatrix.__init__] builds. *)
Definition initial_matrix (lines_b lines_a : list string) : AlignmentMatrix :=
  let x_len := Z.of_nat (List.length lines_b) * 2 + 1 in
  let y_len := Z.of_nat (List.length lines_a) * 2 + 1 in
  {| line_matrix_x_len := x_len;
     line_matrix_y_len := y_len;
     line_matrix :=
       map (fun x => map (fun y =>
              AlignmentNode_init x y (weight_at lines_b lines_a x y))
              (range y_len))
           (range x_len) |}.

Lemma AlignmentMatrix_init_ok (lines_b lines_a : list string) :
  AlignmentMatrix_init ndiff lines_b lines_a
  = Ok (initial_matrix lines_b lines_a).
Proof.
  unfold AlignmentMatrix_init, initial_matrix.
  erewrite mapM_map; [reflexivity|].
  intros x Hx. apply range_In in Hx. simpl.
  apply mapM_map. intros y Hy. apply range_In in Hy.
  rewrite node_weight_in_grid by lia. reflexivity.
Qed.

End Weights.

Lemma initial_matrix_shape (lines_b lines_a : list string) :
  shape (initial_matrix lines_b lines_a)
    (Z.of_nat (List.length lines_b) * 2 + 1)
    (Z.of_nat (List.length lines_a) * 2 + 1).
Proof.
  constructor; simpl; auto.
  - rewrite length_map, range_length. lia.
  - intros x Hx. rewrite nth_map_range by lia.
    rewrite length_map, range_length. lia.
Qed.

Lemma initial_matrix_node (lines_b lines_a : list string) (x y : Z) :
  0 <= x < Z.of_nat (List.length lines_b) * 2 + 1 ->
  0 <= y < Z.of_nat (List.length lines_a) * 2 + 1 ->
  node_at (initial_matrix lines_b lines_a) x y
  = AlignmentNode_init x y (weight_at lines_b lines_a x y).
Proof.
  intros Hx Hy. unfold node_at, initial_matrix. simpl.
  rewrite nth_map_range by lia. rewrite nth_map_range by lia. reflexivity.
Qed.

(** ** Points of the grid *)

Definition point_eqb (p q : Point) : bool :=
  (px p =? px q) && (py p =? py q).

Lemma point_eqb_spec (p q : Point) : reflect (p = q) (point_eqb p q).
Proof.
  destruct p as [a b], q as [c d]. unfold point_eqb; simpl.
  destruct (Z.eqb_spec a c); destruct (Z.eqb_spec b d); simpl;
    constructor; congruence.
Qed.

(** Case analysis on every comparison of integers in sight. *)
Ltac zbool :=
  repeat first
    [ progress unfold point_eqb
    | progress cbn [andb orb negb app filter existsb px py]
    | match goal with
      | |- context [?a <? ?b] => destruct (Z.ltb_spec a b)
      | |- context [?a <=? ?b] => destruct (Z.leb_spec a b)
      | |- context [?a =? ?b] => destruct (Z.eqb_spec a b)
      | |- context [?a >? ?b] => rewrite (Z.gtb_ltb a b)
      end; try (exfalso; lia) ].

(** A node whose two coordinates are even only pads the matrix. *)
Definition placeholder (x y : Z) : bool := (x mod 2 =? 0) && (y mod 2 =? 0).

(** [AlignmentMatrix.adjacency], on the coordinates of the node. *)
Definition targets (xl yl x y : Z) : list Point :=
  let next_x := x + (x mod 2) in
  let next_y := y + (y mod 2) in
  (if next_x + 1 <? xl then [mkPoint (next_x + 1) next_y] else [])
  ++ (if next_y + 1 <? yl then [mkPoint next_x (next_y + 1)] else [])
  ++ (if (next_x + 1 <? xl) && (next_y + 1 <? yl)
      then [mkPoint (next_x + 1) (next_y + 1)] else []).

Lemma adjacency_targets (self : AlignmentMatrix) (node : AlignmentNode) :
  adjacency self node
  = targets (line_matrix_x_len self) (line_matrix_y_len self)
      (px (id node)) (py (id node)).
Proof. reflexivity. Qed.

(** The nodes [(x, y)] is adjacent to, in the order the sweep visits them. *)
Definition preds (x y : Z) : list Point :=
  let base_x := x - x mod 2 in
  let base_y := y - y mod 2 in
  (if (0 <? base_x) && (0 <? base_y)
   then [mkPoint (base_x - 1) (base_y - 1)] else [])
  ++ (if 0 <? base_x then [mkPoint (base_x - 1) base_y] else [])
  ++ (if 0 <? base_y then [mkPoint base_x (base_y - 1)] else []).

(** [c] comes before [pos] in the sweep. *)
Definition before (pos c : Point) : bool :=
  (px c <? px pos) || ((px c =? px pos) && (py c <? py pos)).

Lemma targets_NoDup (xl yl x y : Z) : NoDup (targets xl yl x y).
Proof.
  unfold targets. zbool; repeat constructor; simpl; intuition congruence || (try lia).
  all: try (match goal with H : mkPoint _ _ = mkPoint _ _ |- _ => inversion H; lia end).
Qed.

Lemma targets_in_grid (xl yl x y : Z) (p : Point) :
  xl mod 2 = 1 -> yl mod 2 = 1 ->
  0 <= x < xl -> 0 <= y < yl -> In p (targets xl yl x y) ->
  0 <= px p < xl /\ 0 <= py p < yl.
Proof.
  unfold targets. intros Hxl Hyl Hx Hy. zbool; simpl; intros HIn;
    repeat (destruct HIn as [<-|HIn]; [simpl; lia|]); contradiction.
Qed.

Lemma targets_preds (xl yl x0 y0 x y : Z) :
  0 <= x0 < xl -> 0 <= y0 < yl -> placeholder x0 y0 = false ->
  0 <= x < xl -> 0 <= y < yl ->
  existsb (point_eqb (mkPoint x y)) (targets xl yl x0 y0)
  = negb (placeholder x y) && existsb (point_eqb (mkPoint x0 y0)) (preds x y).
Proof.
  unfold targets, preds, placeholder. intros Hx0 Hy0 Hp Hx Hy. revert Hp.
  zbool; intros Hp; try reflexivity; try discriminate; exfalso; lia.
Qed.

Lemma targets_after (xl yl x0 y0 : Z) (c : Point) :
  0 <= x0 -> 0 <= y0 ->
  before (mkPoint x0 (y0 + 1)) c = true ->
  existsb (point_eqb c) (targets xl yl x0 y0) = false.
Proof.
  unfold targets, before. destruct c as [cx cy]. simpl. intros Hx0 Hy0.
  zbool; intros Hp; try reflexivity; try discriminate; exfalso; lia.
Qed.

Lemma preds_step (x0 y0 x y : Z) :
  0 <= x0 -> 0 <= y0 -> 0 <= x -> 0 <= y ->
  filter (before (mkPoint x0 (y0 + 1))) (preds x y)
  = filter (before (mkPoint x0 y0)) (preds x y)
    ++ (if existsb (point_eqb (mkPoint x0 y0)) (preds x y)
        then [mkPoint x0 y0] else []).
Proof.
  unfold preds, before. intros Hx0 Hy0 Hx Hy.
  zbool; try reflexivity; try (exfalso; lia); repeat f_equal; lia.
Qed.


Lemma lor_mod2 (x y : Z) : ((Z.lor x y) mod 2 =? 0) = placeholder x y.
Proof.
  unfold placeholder.
  rewrite <- (Z.bit0_mod (Z.lor x y)), <- (Z.bit0_mod x), <- (Z.bit0_mod y).
  rewrite Z.lor_spec.
  destruct (Z.testbit x 0); destruct (Z.testbit y 0); reflexivity.
Qed.

Lemma preds_nonneg (x y : Z) (c : Point) :
  0 <= x -> 0 <= y -> In c (preds x y) ->
  0 <= px c <= x /\ 0 <= py c <= y /\ px c + py c < x + y.
Proof.
  unfold preds. intros Hx Hy. zbool; simpl; intros HIn;
    repeat (destruct HIn as [<-|HIn]; [simpl; lia|]); contradiction.
Qed.

Lemma preds_placeholder (x y : Z) (c : Point) :
  In c (preds x y) -> placeholder (px c) (py c) = false.
Proof.
  unfold preds. zbool; simpl; intros HIn;
    repeat (destruct HIn as [<-|HIn];
            [unfold placeholder; cbn [px py]; zbool; reflexivity|]);
    contradiction.
Qed.

Lemma preds_skip (x0 y0 x y : Z) :
  placeholder x0 y0 = true ->
  existsb (point_eqb (mkPoint x0 y0)) (preds x y) = false.
Proof.
  intros Hp. destruct (existsb _ _) eqn:E; auto.
  apply existsb_exists in E. destruct E as [c [Hc E]].
  destruct (point_eqb_spec (mkPoint x0 y0) c); [subst c|discriminate].
  apply preds_placeholder in Hc. simpl in Hc. congruence.
Qed.

Lemma preds_origin (x y : Z) :
  0 <= x -> 0 <= y -> filter (before (mkPoint 0 0)) (preds x y) = [].
Proof.
  unfold preds, before. intros Hx Hy. zbool; reflexivity.
Qed.

Lemma preds_wrap (x0 yl x y : Z) :
  0 <= x -> 0 <= y < yl ->
  filter (before (mkPoint (x0 + 1) 0)) (preds x y)
  = filter (before (mkPoint x0 yl)) (preds x y).
Proof.
  unfold preds, before. intros Hx Hy. zbool; reflexivity.
Qed.

Lemma preds_end (xl x y : Z) :
  0 <= x < xl -> 0 <= y ->
  filter (before (mkPoint xl 0)) (preds x y) = preds x y.
Proof.
  unfold preds, before. intros Hx Hy. zbool; reflexivity.
Qed.

(** Assigning to the nodes at [pts], each in turn. *)
Lemma foldM_update_nodes (f : AlignmentNode -> AlignmentNode) (xl yl : Z)
    (pts : list Point) :
  forall self,
    shape self xl yl ->
    (forall p, In p pts -> 0 <= px p < xl /\ 0 <= py p < yl) ->
    NoDup pts ->
    exists self',
      foldM (fun self adj => update_node self (px adj) (py adj) f) pts self
      = Ok self' /\
      shape self' xl yl /\
      forall x y, 0 <= x -> 0 <= y ->
        node_at self' x y =
          if existsb (point_eqb (mkPoint x y)) pts then f (node_at self x y)
          else node_at self x y.
Proof.
  induction pts as [|p pts IH]; intros self Hs Hin Hnd.
  - exists self. simpl. auto.
  - inversion Hnd as [|? ? Hnotin Hnd']; subst.
    destruct (update_node_in_grid self xl yl (px p) (py p) f Hs)
      as [self1 [U1 [S1 N1]]]; try (apply Hin; left; reflexivity).
    destruct (IH self1 S1) as [self2 [U2 [S2 N2]]]; auto.
    { intros q Hq. apply Hin. right. exact Hq. }
    exists self2. cbn [foldM]. rewrite U1. cbn [bind]. split; [exact U2|].
    split; [exact S2|]. intros x y Hx Hy.
    rewrite N2, N1 by assumption. cbn [existsb].
    destruct (point_eqb_spec (mkPoint x y) p) as [E|E].
    + subst p. simpl. rewrite !Z.eqb_refl. simpl.
      destruct (existsb _ pts) eqn:Ex; auto.
      apply existsb_exists in Ex. destruct Ex as [q [Hq Eq]].
      destruct (point_eqb_spec (mkPoint x y) q); [subst q; contradiction|discriminate].
    + assert ((x =? px p) && (y =? py p) = false) as ->.
      { destruct p as [a b]. simpl. zbool; auto. congruence. }
      simpl. reflexivity.
Qed.

(** ** The sweep *)

(** [child.relax(c, w)] where [w] is the relaxed weight of the node at [c]. *)
Definition relax_by (self : AlignmentMatrix) (child : AlignmentNode) (c : Point)
  : AlignmentNode :=
  relax child c (relax_weight (node_at self (px c) (py c))).

Section Sweep.

Variables lines_b lines_a : list string.

Let xl : Z := Z.of_nat (List.length lines_b) * 2 + 1.
Let yl : Z := Z.of_nat (List.length lines_a) * 2 + 1.

(** The node at [(x, y)] when the sweep starts. *)
Definition start_node (x y : Z) : AlignmentNode :=
  let node := AlignmentNode_init x y (weight_at lines_b lines_a x y) in
  if (x <=? 1) && (y <=? 1) && negb (placeholder x y)
  then set_relax_weight (Int 0) node
  else node.

(** The node at [(x, y)] when the sweep is about to visit [pos]: it has been
    relaxed from the nodes before [pos] it is adjacent to. *)
Definition expected (self : AlignmentMatrix) (pos : Point) (x y : Z)
  : AlignmentNode :=
  if placeholder x y then start_node x y
  else fold_left (relax_by self) (filter (before pos) (preds x y)) (start_node x y).

Definition swept (self : AlignmentMatrix) (pos : Point) : Prop :=
  shape self xl yl /\
  forall x y, 0 <= x < xl -> 0 <= y < yl ->
    node_at self x y = expected self pos x y.

Lemma relax_id (node : AlignmentNode) (p : Point) (w : num) :
  id (relax node p w) = id node.
Proof. unfold relax. destruct (num_gt _ _); reflexivity. Qed.

Lemma relax_weight_same (node : AlignmentNode) (p : Point) (w : num) :
  weight (relax node p w) = weight node.
Proof. unfold relax. destruct (num_gt _ _); reflexivity. Qed.

Lemma fold_relax_id (self : AlignmentMatrix) (cs : list Point) (node : AlignmentNode) :
  id (fold_left (relax_by self) cs node) = id node
  /\ weight (fold_left (relax_by self) cs node) = weight node.
Proof.
  revert node; induction cs as [|c cs IH]; intros node; simpl; auto.
  destruct (IH (relax_by self node c)) as [-> ->]. unfold relax_by.
  rewrite relax_id, relax_weight_same. auto.
Qed.

Lemma start_node_id (x y : Z) :
  id (start_node x y) = mkPoint x y
  /\ weight (start_node x y) = weight_at lines_b lines_a x y.
Proof. unfold start_node. destruct (_ && _); auto. Qed.

Lemma expected_id (self : AlignmentMatrix) (pos : Point) (x y : Z) :
  id (expected self pos x y) = mkPoint x y
  /\ weight (expected self pos x y) = weight_at lines_b lines_a x y.
Proof.
  unfold expected. destruct (placeholder x y).
  - apply start_node_id.
  - destruct (fold_relax_id self (filter (before pos) (preds x y)) (start_node x y))
      as [-> ->]. apply start_node_id.
Qed.

Lemma fold_relax_ext (self self' : AlignmentMatrix) (cs : list Point) :
  (forall c, In c cs ->
     relax_weight (node_at self' (px c) (py c))
     = relax_weight (node_at self (px c) (py c))) ->
  forall node, fold_left (relax_by self') cs node = fold_left (relax_by self) cs node.
Proof.
  induction cs as [|c cs IH]; intros H node; simpl; auto.
  unfold relax_by at 2 4. rewrite H by (left; reflexivity).
  apply IH. intros; apply H; right; assumption.
Qed.

Lemma init_roots_swept :
  lines_b <> [] -> lines_a <> [] ->
  exists self,
    init_roots (initial_matrix lines_b lines_a) = Ok self
    /\ swept self (mkPoint 0 0).
Proof.
  intros Hb Ha.
  assert (3 <= xl) by (unfold xl; destruct lines_b; [congruence|simpl List.length; lia]).
  assert (3 <= yl) by (unfold yl; destruct lines_a; [congruence|simpl List.length; lia]).
  destruct (foldM_update_nodes (set_relax_weight (Int 0)) xl yl root_adjacency
              (initial_matrix lines_b lines_a)) as [self [F [S N]]].
  - apply initial_matrix_shape.
  - unfold root_adjacency. simpl. intros p Hp.
    repeat (destruct Hp as [<-|Hp]; [simpl; lia|]). contradiction.
  - unfold root_adjacency. repeat constructor; simpl; intuition congruence.
  - exists self. split; [exact F|]. split; [exact S|].
    intros x y Hx Hy. rewrite N by lia.
    rewrite initial_matrix_node by (fold xl; fold yl; lia).
    unfold expected. rewrite preds_origin by lia. cbn [fold_left].
    unfold start_node, root_adjacency, placeholder.
    zbool; reflexivity.
Qed.

Lemma relax_from_swept (self : AlignmentMatrix) (x0 y0 : Z) :
  swept self (mkPoint x0 y0) ->
  0 <= x0 < xl -> 0 <= y0 < yl -> placeholder x0 y0 = false ->
  exists self',
    relax_from self x0 y0 = Ok self' /\ swept self' (mkPoint x0 (y0 + 1)).
Proof.
  intros [Hs Hn] Hx0 Hy0 Hp. unfold relax_from.
  rewrite (get_node_in_grid self xl yl) by assumption. cbn [bind].
  rewrite adjacency_targets.
  assert (Hid : id (node_at self x0 y0) = mkPoint x0 y0).
  { rewrite Hn by assumption. apply expected_id. }
  rewrite Hid. cbn [px py].
  rewrite (shape_x_len _ _ _ Hs), (shape_y_len _ _ _ Hs).
  destruct (foldM_update_nodes
              (fun child => relax child (mkPoint x0 y0)
                              (relax_weight (node_at self x0 y0)))
              xl yl (targets xl yl x0 y0) self Hs) as [self' [F [S N]]].
  - intros p Hp'. apply (targets_in_grid xl yl x0 y0); auto; unfold xl, yl; lia.
  - apply targets_NoDup.
  - exists self'. split; [exact F|]. split; [exact S|].
    intros x y Hx Hy. rewrite N by lia.
    rewrite (targets_preds xl yl x0 y0 x y) by assumption.
    assert (E : forall cs node,
              (forall c, In c cs -> before (mkPoint x0 (y0 + 1)) c = true
                                    /\ 0 <= px c /\ 0 <= py c) ->
              fold_left (relax_by self') cs node = fold_left (relax_by self) cs node).
    { intros cs node Hcs. apply fold_relax_ext. intros c Hc.
      destruct (Hcs c Hc) as [Hbef [Hcx Hcy]].
      destruct c as [cx cy]. cbn [px py] in *. rewrite N by lia.
      rewrite (targets_after xl yl x0 y0 (mkPoint cx cy)) by (auto; lia).
      reflexivity. }
    unfold expected. rewrite Hn by assumption. unfold expected.
    destruct (placeholder x y) eqn:Pxy; cbn [negb andb]; [reflexivity|].
    rewrite E.
    + rewrite preds_step by lia. rewrite fold_left_app.
      destruct (existsb _ (preds x y)); reflexivity.
    + intros c Hc. apply filter_In in Hc. destruct Hc as [Hc Hbef].
      apply preds_nonneg in Hc; try lia. intuition lia.
Qed.

Lemma skip_swept (self : AlignmentMatrix) (x0 y0 : Z) :
  swept self (mkPoint x0 y0) ->
  0 <= x0 -> 0 <= y0 -> placeholder x0 y0 = true ->
  swept self (mkPoint x0 (y0 + 1)).
Proof.
  intros [Hs Hn] Hx0 Hy0 Hp. split; [exact Hs|].
  intros x y Hx Hy. rewrite Hn by assumption. unfold expected.
  rewrite preds_step by lia. rewrite preds_skip by assumption.
  rewrite app_nil_r. reflexivity.
Qed.

Lemma wrap_swept (self : AlignmentMatrix) (x0 : Z) :
  swept self (mkPoint x0 yl) -> swept self (mkPoint (x0 + 1) 0).
Proof.
  intros [Hs Hn]. split; [exact Hs|].
  intros x y Hx Hy. rewrite Hn by assumption. unfold expected.
  rewrite (preds_wrap x0 yl) by lia. reflexivity.
Qed.

Lemma sweep_swept (self : AlignmentMatrix) :
  swept self (mkPoint 0 0) ->
  exists self', sweep self = Ok self' /\ swept self' (mkPoint xl 0).
Proof.
  intros H0. unfold sweep.
  rewrite (shape_x_len _ _ _ (proj1 H0)).
  apply (foldM_range_inv _ xl (fun x s => swept s (mkPoint x 0))); auto.
  { unfold xl; lia. }
  intros x s Hx Hsx.
  rewrite (shape_y_len _ _ _ (proj1 Hsx)).
  destruct (foldM_range_inv
              (fun self y => if (Z.lor x y) mod 2 =? 0 then Ok self
                             else relax_from self x y)
              yl (fun y s => swept s (mkPoint x y)) s) as [s' [F P]]; auto.
  { unfold yl; lia. }
  { intros y s1 Hy Hs1. rewrite lor_mod2.
    destruct (placeholder x y) eqn:Pxy.
    - exists s1. split; auto. apply skip_swept; auto; lia.
    - apply relax_from_swept; auto. }
  exists s'. split; [exact F|]. apply wrap_swept. exact P.
Qed.

(** The node at [(x, y)] once the sweep is over. *)
Definition final_node (self : AlignmentMatrix) (x y : Z) : AlignmentNode :=
  if placeholder x y then start_node x y
  else fold_left (relax_by self) (preds x y) (start_node x y).

(** [self] is the matrix of [lines_b] and [lines_a] with every edge relaxed. *)
Definition solved (self : AlignmentMatrix) : Prop :=
  shape self xl yl /\
  forall x y, 0 <= x < xl -> 0 <= y < yl ->
    node_at self x y = final_node self x y.

Lemma relax_all_solved :
  lines_b <> [] -> lines_a <> [] ->
  exists self,
    relax_all (initial_matrix lines_b lines_a) = Ok self /\ solved self.
Proof.
  intros Hb Ha. destruct (init_roots_swept Hb Ha) as [s1 [F1 P1]].
  destruct (sweep_swept s1 P1) as [s2 [F2 [S2 N2]]].
  exists s2. unfold relax_all. rewrite F1. cbn [bind]. split; [exact F2|].
  split; [exact S2|]. intros x y Hx Hy. rewrite N2 by assumption.
  unfold expected, final_node. rewrite preds_end by lia. reflexivity.
Qed.

End Sweep.


(** ** Distances on the lattice

    The relaxed weights of a solved matrix obey a recurrence; this section
    draws its consequences for any [d] that obeys it. *)

Section Distances.

Variables xl yl : Z.
Variable d : Z -> Z -> Z.
Variable w : Z -> Z -> Z.

(** The least distance among the nodes that land on [(X, Y)]. *)
Definition best (X Y : Z) : Z :=
  if (0 <? X) && (0 <? Y)
  then Z.min (d (X - 1) (Y - 1)) (Z.min (d (X - 1) Y) (d X (Y - 1)))
  else if 0 <? X then d (X - 1) Y
  else d X (Y - 1).

Hypothesis xl_odd : xl mod 2 = 1.
Hypothesis yl_odd : yl mod 2 = 1.
Hypothesis w_nonneg : forall x y,
  0 <= x < xl -> 0 <= y < yl -> placeholder x y = false -> 0 <= w x y.
Hypothesis w_pair : forall x y, x mod 2 = 1 -> y mod 2 = 1 -> w x y = 0.
Hypothesis w_insert : forall x x' y,
  x mod 2 = 0 -> x' mod 2 = 0 -> w x y = w x' y.
Hypothesis d_root : forall x y,
  0 <= x <= 1 -> 0 <= y <= 1 -> x < xl -> y < yl ->
  placeholder x y = false -> d x y = 0.
Hypothesis d_step : forall x y,
  0 <= x < xl -> 0 <= y < yl -> placeholder x y = false ->
  ~ (x <= 1 /\ y <= 1) ->
  d x y = best (x - x mod 2) (y - y mod 2) + w x y.

Lemma d_nonneg (x y : Z) :
  0 <= x < xl -> 0 <= y < yl -> placeholder x y = false -> 0 <= d x y.
Proof.
  assert (G : forall n : nat, forall x y, x + y <= Z.of_nat n ->
            0 <= x < xl -> 0 <= y < yl -> placeholder x y = false -> 0 <= d x y).
  { induction n as [|n IH]; intros x0 y0 Hn Hx Hy Hp.
    - assert (x0 = 0 /\ y0 = 0) as [-> ->] by lia. discriminate.
    - destruct (Z_le_dec x0 1) as [Lx|Lx];
        [destruct (Z_le_dec y0 1) as [Ly|Ly];
           [rewrite d_root by (auto; lia); lia|]|];
        (rewrite d_step by (auto; lia);
         pose proof (w_nonneg x0 y0 Hx Hy Hp);
         assert (0 <= best (x0 - x0 mod 2) (y0 - y0 mod 2)); [|lia];
         unfold best; unfold placeholder in Hp;
         repeat match goal with
                | |- context [?a <? ?b] => destruct (Z.ltb_spec a b)
                end; cbn [andb];
         repeat apply Z.min_glb;
         apply IH; try lia; unfold placeholder; zbool; reflexivity). }
  intros Hx Hy Hp. apply (G (Z.to_nat (x + y))); auto. lia.
Qed.

Lemma d_diagonal (k : Z) :
  0 <= k -> 2 * k + 1 < xl -> 2 * k + 1 < yl -> d (2 * k + 1) (2 * k + 1) = 0.
Proof.
  intros Hk. pattern k. apply natlike_ind; [| |exact Hk]; clear k Hk.
  - intros Hx Hy. apply d_root; try lia. reflexivity.
  - intros k Hk IH Hx Hy. unfold Z.succ.
    assert (P : placeholder (2 * (k + 1) + 1) (2 * (k + 1) + 1) = false)
      by (unfold placeholder; zbool; reflexivity).
    pose proof (d_nonneg (2 * (k + 1) + 1) (2 * (k + 1) + 1)
                  ltac:(lia) ltac:(lia) P) as N.
    rewrite d_step in * by (auto; lia).
    rewrite w_pair in * by lia.
    assert (best (2 * (k + 1) + 1 - (2 * (k + 1) + 1) mod 2)
                 (2 * (k + 1) + 1 - (2 * (k + 1) + 1) mod 2)
            <= d (2 * k + 1) (2 * k + 1)).
    { unfold best. zbool.
      replace (2 * (k + 1) + 1 - (2 * (k + 1) + 1) mod 2 - 1) with (2 * k + 1) by lia.
      apply Z.le_min_l. }
    rewrite IH in * by lia. lia.
Qed.

(** With at least two more lines consumed before than after, dropping the
    last line before saves its cost. *)
Lemma best_shift (n : nat) :
  forall X, X mod 2 = 0 -> 2 * Z.of_nat n + 4 <= X -> X < xl ->
            2 * Z.of_nat n < yl ->
            best (X - 2) (2 * Z.of_nat n) <= best X (2 * Z.of_nat n).
Proof.
  induction n as [|n IH]; intros X HX HXY Hxl Hyl.
  - change (2 * Z.of_nat 0) with 0. unfold best at 2.
    zbool. rewrite d_step by (try lia; unfold placeholder; zbool; reflexivity).
    replace (X - 1 - (X - 1) mod 2) with (X - 2) by lia.
    replace (0 - 0 mod 2) with 0 by reflexivity.
    pose proof (w_nonneg (X - 1) 0 ltac:(lia) ltac:(lia)
                  ltac:(unfold placeholder; zbool; reflexivity)). lia.
  - set (Y := 2 * Z.of_nat (S n)).
    assert (HY : Y = 2 * Z.of_nat n + 2) by (unfold Y; lia).
    assert (HYm : Y mod 2 = 0) by lia.
    pose proof (IH (X - 2) ltac:(lia) ltac:(lia) ltac:(lia) ltac:(lia)) as IH1.
    pose proof (IH X ltac:(lia) ltac:(lia) ltac:(lia) ltac:(lia)) as IH2.
    replace (2 * Z.of_nat n) with (Y - 2) in IH1, IH2 by lia.
    (* the three nodes landing on (X, Y) *)
    assert (D1 : d (X - 1) (Y - 1) = best (X - 2) (Y - 2)).
    { rewrite d_step by (try lia; unfold placeholder; zbool; reflexivity).
      rewrite w_pair by lia. rewrite Z.add_0_r. f_equal; lia. }
    assert (D2 : d (X - 1) Y = best (X - 2) Y + w (X - 1) Y).
    { rewrite d_step by (try lia; unfold placeholder; zbool; reflexivity).
      f_equal. f_equal; lia. }
    assert (D3 : d X (Y - 1) = best X (Y - 2) + w X (Y - 1)).
    { rewrite d_step by (try lia; unfold placeholder; zbool; reflexivity).
      f_equal. f_equal; lia. }
    (* two of the nodes landing on (X - 2, Y) *)
    assert (E1 : d (X - 3) (Y - 1) = best (X - 4) (Y - 2)).
    { rewrite d_step by (try lia; unfold placeholder; zbool; reflexivity).
      rewrite w_pair by lia. rewrite Z.add_0_r. f_equal; lia. }
    assert (E3 : d (X - 2) (Y - 1) = best (X - 2) (Y - 2) + w X (Y - 1)).
    { rewrite d_step by (try lia; unfold placeholder; zbool; reflexivity).
      rewrite (w_insert (X - 2) X) by lia. f_equal. f_equal; lia. }
    pose proof (w_nonneg (X - 1) Y ltac:(lia) ltac:(lia)
                  ltac:(unfold placeholder; zbool; reflexivity)) as W2.
    pose proof (w_nonneg X (Y - 1) ltac:(lia) ltac:(lia)
                  ltac:(unfold placeholder; zbool; reflexivity)) as W3.
    assert (B : best (X - 2) Y <= d (X - 3) (Y - 1)
                /\ best (X - 2) Y <= d (X - 2) (Y - 1)).
    { unfold best. zbool.
      replace (X - 2 - 1) with (X - 3) by lia. lia. }
    replace (X - 2 - 2) with (X - 4) in IH1 by lia.
    unfold best at 2. zbool. lia.
Qed.

(** When no fewer lines are consumed before than after, landing by an
    insertion is not cheaper than landing by a substitution. *)
Lemma pair_before_insert (X Y : Z) :
  X mod 2 = 0 -> Y mod 2 = 0 -> 0 < Y <= X -> X < xl -> Y < yl ->
  d (X - 1) (Y - 1) <= d X (Y - 1).
Proof.
  intros HX HY HYX Hxl Hyl.
  assert (P3 : placeholder X (Y - 1) = false)
    by (unfold placeholder; zbool; reflexivity).
  destruct (Z.eq_dec X Y) as [->|Hne].
  - replace (Y - 1) with (2 * (Y / 2 - 1) + 1) by lia.
    rewrite d_diagonal by lia.
    replace (2 * (Y / 2 - 1) + 1) with (Y - 1) by lia.
    apply d_nonneg; auto; lia.
  - rewrite (d_step (X - 1) (Y - 1))
      by (try lia; unfold placeholder; zbool; reflexivity).
    rewrite w_pair by lia.
    rewrite (d_step X (Y - 1)) by (auto; lia).
    pose proof (w_nonneg X (Y - 1) ltac:(lia) ltac:(lia) P3) as W3.
    replace (X - 1 - (X - 1) mod 2) with (X - 2) by lia.
    replace (Y - 1 - (Y - 1) mod 2) with (Y - 2) by lia.
    replace (X - X mod 2) with X by lia.
    pose proof (best_shift (Z.to_nat ((Y - 2) / 2)) X HX ltac:(lia) Hxl ltac:(lia)) as M.
    replace (2 * Z.of_nat (Z.to_nat ((Y - 2) / 2))) with (Y - 2) in M by lia.
    lia.
Qed.

End Distances.


(** ** The solved matrix *)

Lemma len_nonneg (line : string) : 0 <= len line.
Proof. unfold len. lia. Qed.

Lemma weight_at_nonneg (lines_b lines_a : list string) (x y : Z) :
  placeholder x y = false -> 0 <= weight_at lines_b lines_a x y.
Proof.
  unfold placeholder, weight_at. zbool; intros H;
    try discriminate; try apply len_nonneg; lia.
Qed.

Lemma weight_at_pair (lines_b lines_a : list string) (x y : Z) :
  x mod 2 = 1 -> y mod 2 = 1 -> weight_at lines_b lines_a x y = 0.
Proof. unfold weight_at. intros Hx Hy. zbool. reflexivity. Qed.

Lemma weight_at_insert (lines_b lines_a : list string) (x x' y : Z) :
  x mod 2 = 0 -> x' mod 2 = 0 ->
  weight_at lines_b lines_a x y = weight_at lines_b lines_a x' y.
Proof. unfold weight_at. intros Hx Hx'. zbool; reflexivity. Qed.

Lemma weight_at_swap (lines_b lines_a : list string) (x y : Z) :
  weight_at lines_a lines_b y x = weight_at lines_b lines_a x y.
Proof. unfold weight_at. zbool; reflexivity. Qed.

(** The relaxed weight of a node, when it is an integer. *)
Definition dist (self : AlignmentMatrix) (x y : Z) : Z :=
  match relax_weight (node_at self x y) with
  | Int z => z
  | Inf => 0
  end.

(** The adjacent node a node ends up with as its parent: the first one, in
    the order of the sweep, of least relaxed weight. *)
Definition pick3 (d1 d2 d3 : Z) (c1 c2 c3 : Point) : Point :=
  if d3 <? Z.min d1 d2 then c3 else if d2 <? d1 then c2 else c1.

Lemma relax_by_inf (self : AlignmentMatrix) (node : AlignmentNode) (c : Point) (z : Z) :
  relax_weight node = Inf ->
  relax_weight (node_at self (px c) (py c)) = Int z ->
  relax_by self node c = mkNode (id node) (weight node) (Int (z + weight node)) c.
Proof.
  intros Hn Hc. unfold relax_by, relax. rewrite Hn, Hc. reflexivity.
Qed.

Lemma relax_by_int (self : AlignmentMatrix) (node : AlignmentNode) (c : Point) (e z : Z) :
  relax_weight node = Int e ->
  relax_weight (node_at self (px c) (py c)) = Int z ->
  relax_by self node c =
    if z + weight node <? e
    then mkNode (id node) (weight node) (Int (z + weight node)) c
    else node.
Proof.
  intros Hn Hc. unfold relax_by, relax. rewrite Hn, Hc. simpl.
  rewrite Z.gtb_ltb. reflexivity.
Qed.

Lemma fold_relax_one (self : AlignmentMatrix) (node : AlignmentNode)
    (c : Point) (z : Z) :
  relax_weight node = Inf ->
  relax_weight (node_at self (px c) (py c)) = Int z ->
  fold_left (relax_by self) [c] node
  = mkNode (id node) (weight node) (Int (z + weight node)) c.
Proof. intros Hn Hc. simpl. apply relax_by_inf; assumption. Qed.

Lemma fold_relax_three (self : AlignmentMatrix) (node : AlignmentNode)
    (c1 c2 c3 : Point) (d1 d2 d3 : Z) :
  relax_weight node = Inf ->
  relax_weight (node_at self (px c1) (py c1)) = Int d1 ->
  relax_weight (node_at self (px c2) (py c2)) = Int d2 ->
  relax_weight (node_at self (px c3) (py c3)) = Int d3 ->
  fold_left (relax_by self) [c1; c2; c3] node
  = mkNode (id node) (weight node)
      (Int (Z.min d1 (Z.min d2 d3) + weight node))
      (pick3 d1 d2 d3 c1 c2 c3).
Proof.
  intros Hn H1 H2 H3. simpl.
  rewrite (relax_by_inf self node c1 d1) by assumption.
  rewrite (relax_by_int self _ c2 (d1 + weight node) d2) by (assumption || reflexivity).
  unfold pick3. cbn [id weight relax_weight relax_parent].
  destruct (Z.ltb_spec (d2 + weight node) (d1 + weight node)) as [L|L].
  - rewrite (relax_by_int self _ c3 (d2 + weight node) d3) by (assumption || reflexivity).
    cbn [id weight relax_weight relax_parent].
    zbool; repeat f_equal; lia.
  - rewrite (relax_by_int self _ c3 (d1 + weight node) d3) by (assumption || reflexivity).
    cbn [id weight relax_weight relax_parent].
    zbool; repeat f_equal; lia.
Qed.

(** The shape of [preds]. *)
Lemma preds_cases (x y : Z) :
  0 <= x -> 0 <= y -> placeholder x y = false ->
  (x <= 1 /\ y <= 1 /\ preds x y = [])
  \/ (0 < x - x mod 2 /\ 0 < y - y mod 2 /\
      preds x y = [mkPoint (x - x mod 2 - 1) (y - y mod 2 - 1);
                   mkPoint (x - x mod 2 - 1) (y - y mod 2);
                   mkPoint (x - x mod 2) (y - y mod 2 - 1)])
  \/ (0 < x - x mod 2 /\ y - y mod 2 = 0 /\
      preds x y = [mkPoint (x - x mod 2 - 1) (y - y mod 2)])
  \/ (x - x mod 2 = 0 /\ 0 < y - y mod 2 /\
      preds x y = [mkPoint (x - x mod 2) (y - y mod 2 - 1)]).
Proof.
  intros Hx Hy Hp. unfold preds. unfold placeholder in Hp. revert Hp.
  zbool; intros Hp; try discriminate;
    first [ solve [left; repeat split; first [reflexivity | lia]]
          | solve [right; left; repeat split; first [reflexivity | lia]]
          | solve [right; right; left; repeat split; first [reflexivity | lia]]
          | solve [right; right; right; repeat split; first [reflexivity | lia]] ].
Qed.

Section Solved.

Variables lines_b lines_a : list string.
Variable self : AlignmentMatrix.

Let xl : Z := Z.of_nat (List.length lines_b) * 2 + 1.
Let yl : Z := Z.of_nat (List.length lines_a) * 2 + 1.

Hypothesis Hsolved : solved lines_b lines_a self.

Lemma start_node_root (x y : Z) :
  0 <= x <= 1 -> 0 <= y <= 1 -> placeholder x y = false ->
  start_node lines_b lines_a x y
  = mkNode (mkPoint x y) (weight_at lines_b lines_a x y) (Int 0) (mkPoint 0 0).
Proof.
  intros Hx Hy Hp. unfold start_node. rewrite Hp.
  zbool. reflexivity.
Qed.

Lemma start_node_inner (x y : Z) :
  ~ (x <= 1 /\ y <= 1) ->
  start_node lines_b lines_a x y
  = mkNode (mkPoint x y) (weight_at lines_b lines_a x y) Inf (mkPoint 0 0).
Proof.
  intros H. unfold start_node. zbool; reflexivity.
Qed.

Lemma solved_node (x y : Z) :
  0 <= x < xl -> 0 <= y < yl ->
  node_at self x y = final_node lines_b lines_a self x y.
Proof. intros Hx Hy. apply (proj2 Hsolved); assumption. Qed.

Lemma solved_placeholder (x y : Z) :
  0 <= x < xl -> 0 <= y < yl -> placeholder x y = true ->
  node_at self x y
  = mkNode (mkPoint x y) (weight_at lines_b lines_a x y) Inf (mkPoint 0 0).
Proof.
  intros Hx Hy Hp. rewrite solved_node by assumption.
  unfold final_node, start_node. rewrite Hp.
  rewrite andb_false_r. reflexivity.
Qed.

Lemma solved_root (x y : Z) :
  0 <= x <= 1 -> 0 <= y <= 1 -> x < xl -> y < yl -> placeholder x y = false ->
  node_at self x y
  = mkNode (mkPoint x y) (weight_at lines_b lines_a x y) (Int 0) (mkPoint 0 0).
Proof.
  intros Hx Hy Hxl Hyl Hp. rewrite solved_node by lia.
  unfold final_node. rewrite Hp.
  destruct (preds_cases x y) as [[_ [_ E]]|[[? _]|[[? _]|[_ [? _]]]]];
    try lia; auto.
  rewrite E. simpl. apply start_node_root; auto.
Qed.

Lemma solved_finite (x y : Z) :
  0 <= x < xl -> 0 <= y < yl -> placeholder x y = false ->
  exists z, 0 <= z /\ relax_weight (node_at self x y) = Int z.
Proof.
  assert (G : forall n : nat, forall x y, x + y <= Z.of_nat n ->
            0 <= x < xl -> 0 <= y < yl -> placeholder x y = false ->
            exists z, 0 <= z /\ relax_weight (node_at self x y) = Int z).
  { induction n as [|n IH]; intros x0 y0 Hn Hx Hy Hp.
    - assert (x0 = 0 /\ y0 = 0) as [-> ->] by lia. discriminate.
    - assert (C : forall c, In c (preds x0 y0) ->
                exists z, 0 <= z /\
                  relax_weight (node_at self (px c) (py c)) = Int z).
      { intros c Hc. pose proof (preds_placeholder _ _ _ Hc).
        apply preds_nonneg in Hc; try lia. apply IH; auto; lia. }
      pose proof (weight_at_nonneg lines_b lines_a x0 y0 Hp) as W.
      rewrite solved_node by assumption. unfold final_node. rewrite Hp.
      destruct (preds_cases x0 y0) as [[? [? E]]|[[? [? E]]|[[? [? E]]|[? [? E]]]]];
        try lia; auto; rewrite E in *.
      + simpl. rewrite start_node_root by (auto; lia). exists 0. simpl. split; [lia|auto].
      + destruct (C _ (or_introl eq_refl)) as [d1 [P1 E1]].
        destruct (C _ (or_intror (or_introl eq_refl))) as [d2 [P2 E2]].
        destruct (C _ (or_intror (or_intror (or_introl eq_refl)))) as [d3 [P3 E3]].
        rewrite (fold_relax_three self _ _ _ _ d1 d2 d3); auto;
          rewrite start_node_inner by lia; auto.
        simpl. eexists. split; [|reflexivity]. lia.
      + destruct (C _ (or_introl eq_refl)) as [d1 [P1 E1]].
        rewrite (fold_relax_one self _ _ d1); auto;
          rewrite start_node_inner by lia; auto.
        simpl. eexists. split; [|reflexivity]. lia.
      + destruct (C _ (or_introl eq_refl)) as [d1 [P1 E1]].
        rewrite (fold_relax_one self _ _ d1); auto;
          rewrite start_node_inner by lia; auto.
        simpl. eexists. split; [|reflexivity]. lia. }
  intros Hx Hy Hp. apply (G (Z.to_nat (x + y))); auto. lia.
Qed.

Lemma solved_dist (x y : Z) :
  0 <= x < xl -> 0 <= y < yl -> placeholder x y = false ->
  relax_weight (node_at self x y) = Int (dist self x y) /\ 0 <= dist self x y.
Proof.
  intros Hx Hy Hp. destruct (solved_finite x y Hx Hy Hp) as [z [Hz E]].
  unfold dist. rewrite E. auto.
Qed.

Lemma solved_pred_dist (x y : Z) (c : Point) :
  0 <= x < xl -> 0 <= y < yl -> In c (preds x y) ->
  relax_weight (node_at self (px c) (py c)) = Int (dist self (px c) (py c)).
Proof.
  intros Hx Hy Hc. pose proof (preds_placeholder _ _ _ Hc).
  apply preds_nonneg in Hc; try lia. apply solved_dist; auto; lia.
Qed.

(** A node with three adjacent nodes. *)
Lemma solved_three (x y : Z) :
  0 <= x < xl -> 0 <= y < yl -> placeholder x y = false ->
  0 < x - x mod 2 -> 0 < y - y mod 2 ->
  node_at self x y
  = mkNode (mkPoint x y) (weight_at lines_b lines_a x y)
      (Int (Z.min (dist self (x - x mod 2 - 1) (y - y mod 2 - 1))
              (Z.min (dist self (x - x mod 2 - 1) (y - y mod 2))
                     (dist self (x - x mod 2) (y - y mod 2 - 1)))
            + weight_at lines_b lines_a x y))
      (pick3 (dist self (x - x mod 2 - 1) (y - y mod 2 - 1))
             (dist self (x - x mod 2 - 1) (y - y mod 2))
             (dist self (x - x mod 2) (y - y mod 2 - 1))
             (mkPoint (x - x mod 2 - 1) (y - y mod 2 - 1))
             (mkPoint (x - x mod 2 - 1) (y - y mod 2))
             (mkPoint (x - x mod 2) (y - y mod 2 - 1))).
Proof.
  intros Hx Hy Hp HX HY. rewrite solved_node by assumption.
  unfold final_node. rewrite Hp.
  destruct (preds_cases x y) as [[? [? E]]|[[? [? E]]|[[? [? E]]|[? [? E]]]]];
    try lia; auto.
  pose proof (solved_pred_dist x y) as D. rewrite E in *.
  rewrite (fold_relax_three self _ _ _ _ _ _ _
             (f_equal relax_weight (start_node_inner x y ltac:(lia)))
             (D _ Hx Hy (or_introl eq_refl))
             (D _ Hx Hy (or_intror (or_introl eq_refl)))
             (D _ Hx Hy (or_intror (or_intror (or_introl eq_refl))))).
  rewrite start_node_inner by lia. reflexivity.
Qed.

(** A node on the first column: only deletions lead to it. *)
Lemma solved_delete (x y : Z) :
  0 <= x < xl -> 0 <= y < yl -> placeholder x y = false ->
  0 < x - x mod 2 -> y - y mod 2 = 0 ->
  node_at self x y
  = mkNode (mkPoint x y) (weight_at lines_b lines_a x y)
      (Int (dist self (x - x mod 2 - 1) (y - y mod 2)
            + weight_at lines_b lines_a x y))
      (mkPoint (x - x mod 2 - 1) (y - y mod 2)).
Proof.
  intros Hx Hy Hp HX HY. rewrite solved_node by assumption.
  unfold final_node. rewrite Hp.
  destruct (preds_cases x y) as [[? [? E]]|[[? [? E]]|[[? [? E]]|[? [? E]]]]];
    try lia; auto.
  pose proof (solved_pred_dist x y) as D. rewrite E in *.
  rewrite (fold_relax_one self _ _ _
             (f_equal relax_weight (start_node_inner x y ltac:(lia)))
             (D _ Hx Hy (or_introl eq_refl))).
  rewrite start_node_inner by lia. reflexivity.
Qed.

(** A node on the first row: only insertions lead to it. *)
Lemma solved_insert (x y : Z) :
  0 <= x < xl -> 0 <= y < yl -> placeholder x y = false ->
  x - x mod 2 = 0 -> 0 < y - y mod 2 ->
  node_at self x y
  = mkNode (mkPoint x y) (weight_at lines_b lines_a x y)
      (Int (dist self (x - x mod 2) (y - y mod 2 - 1)
            + weight_at lines_b lines_a x y))
      (mkPoint (x - x mod 2) (y - y mod 2 - 1)).
Proof.
  intros Hx Hy Hp HX HY. rewrite solved_node by assumption.
  unfold final_node. rewrite Hp.
  destruct (preds_cases x y) as [[? [? E]]|[[? [? E]]|[[? [? E]]|[? [? E]]]]];
    try lia; auto.
  pose proof (solved_pred_dist x y) as D. rewrite E in *.
  rewrite (fold_relax_one self _ _ _
             (f_equal relax_weight (start_node_inner x y ltac:(lia)))
             (D _ Hx Hy (or_introl eq_refl))).
  rewrite start_node_inner by lia. reflexivity.
Qed.

Lemma solved_dist_root (x y : Z) :
  0 <= x <= 1 -> 0 <= y <= 1 -> x < xl -> y < yl -> placeholder x y = false ->
  dist self x y = 0.
Proof.
  intros Hx Hy Hxl Hyl Hp. unfold dist. rewrite solved_root by assumption.
  reflexivity.
Qed.

Lemma solved_dist_step (x y : Z) :
  0 <= x < xl -> 0 <= y < yl -> placeholder x y = false ->
  ~ (x <= 1 /\ y <= 1) ->
  dist self x y
  = best (dist self) (x - x mod 2) (y - y mod 2) + weight_at lines_b lines_a x y.
Proof.
  intros Hx Hy Hp Hr. unfold best.
  destruct (Z.ltb_spec 0 (x - x mod 2)) as [HX|HX];
    destruct (Z.ltb_spec 0 (y - y mod 2)) as [HY|HY]; cbn [andb].
  - unfold dist at 1. rewrite solved_three by assumption. reflexivity.
  - unfold dist at 1. rewrite solved_delete by (auto; lia). reflexivity.
  - unfold dist at 1. rewrite solved_insert by (auto; lia). reflexivity.
  - lia.
Qed.

End Solved.


(** ** Walking back from an exit *)

(** [trail l X Y]: the moves [l], last move first, lead from the origin to
    the state [(X, Y)] of the doubled grid, each move starting where the
    move before it lands. *)
Inductive trail : list Point -> Z -> Z -> Prop :=
| trail_origin : trail [] 0 0
| trail_move (p : Point) (l : list Point) :
    0 <= px p -> 0 <= py p -> placeholder (px p) (py p) = false ->
    trail l (px p - px p mod 2) (py p - py p mod 2) ->
    trail (p :: l) (px p + px p mod 2) (py p + py p mod 2).

(** [linked self l]: each point of [l] is the parent of the point before it,
    and the parent of the last one is the origin. *)
Inductive linked (self : AlignmentMatrix) : list Point -> Prop :=
| linked_last (p : Point) :
    relax_parent (node_at self (px p) (py p)) = mkPoint 0 0 ->
    linked self [p]
| linked_next (p q : Point) (l : list Point) :
    relax_parent (node_at self (px p) (py p)) = q ->
    linked self (q :: l) ->
    linked self (p :: q :: l).

Lemma trail_bounds (l : list Point) (X Y : Z) :
  trail l X Y ->
  0 <= X /\ 0 <= Y /\ X mod 2 = 0 /\ Y mod 2 = 0
  /\ 2 * Z.of_nat (List.length l) <= X + Y.
Proof.
  induction 1 as [|p l Hx Hy Hp Ht IH].
  - simpl. lia.
  - unfold placeholder in Hp. revert Hp. zbool; intros Hp; try discriminate;
      cbn [List.length]; lia.
Qed.

Lemma preds_lands (x y : Z) (c : Point) :
  In c (preds x y) ->
  px c + px c mod 2 = x - x mod 2 /\ py c + py c mod 2 = y - y mod 2.
Proof.
  unfold preds. zbool; simpl; intros HIn;
    repeat (destruct HIn as [<-|HIn]; [cbn [px py]; lia|]); contradiction.
Qed.

Section Walk.

Variables lines_b lines_a : list string.
Variable self : AlignmentMatrix.

Let xl : Z := Z.of_nat (List.length lines_b) * 2 + 1.
Let yl : Z := Z.of_nat (List.length lines_a) * 2 + 1.

Hypothesis Hsolved : solved lines_b lines_a self.

Lemma solved_id (x y : Z) :
  0 <= x < xl -> 0 <= y < yl -> id (node_at self x y) = mkPoint x y.
Proof.
  intros Hx Hy. rewrite (solved_node lines_b lines_a self Hsolved) by assumption.
  unfold final_node. destruct (placeholder x y).
  - apply start_node_id.
  - destruct (fold_relax_id self (preds x y) (start_node lines_b lines_a x y))
      as [-> _]. apply start_node_id.
Qed.

(** The parent of a node is the origin or a node adjacent to it. *)
Lemma solved_parent (x y : Z) :
  0 <= x < xl -> 0 <= y < yl -> placeholder x y = false ->
  (x <= 1 /\ y <= 1 /\ relax_parent (node_at self x y) = mkPoint 0 0)
  \/ In (relax_parent (node_at self x y)) (preds x y).
Proof.
  intros Hx Hy Hp.
  destruct (preds_cases x y) as [[? [? E]]|[[? [? E]]|[[? [? E]]|[? [? E]]]]];
    try lia; auto.
  - left. rewrite (solved_root lines_b lines_a self Hsolved) by (auto; lia). auto.
  - right. rewrite (solved_three lines_b lines_a self Hsolved) by assumption.
    rewrite E. cbn [relax_parent]. unfold pick3.
    destruct (_ <? _); [simpl; auto|]. destruct (_ <? _); simpl; auto.
  - right. rewrite (solved_delete lines_b lines_a self Hsolved) by assumption.
    rewrite E. simpl; auto.
  - right. rewrite (solved_insert lines_b lines_a self Hsolved) by assumption.
    rewrite E. simpl; auto.
Qed.

(** The loop of [walk_path], started at a node of the grid, stops, having
    appended a trail to the path. *)
Lemma walk_path_loop_trail (x y : Z) :
  0 <= x < xl -> 0 <= y < yl -> placeholder x y = false ->
  exists l,
    trail (mkPoint x y :: l) (x + x mod 2) (y + y mod 2)
    /\ linked self (mkPoint x y :: l)
    /\ forall fuel path,
         (List.length l < fuel)%nat ->
         walk_path_loop fuel self (node_at self x y) path
         = Ok (path ++ mkPoint x y :: l).
Proof.
  assert (G : forall n : nat, forall x y, x + y <= Z.of_nat n ->
    0 <= x < xl -> 0 <= y < yl -> placeholder x y = false ->
    exists l,
      trail (mkPoint x y :: l) (x + x mod 2) (y + y mod 2)
      /\ linked self (mkPoint x y :: l)
      /\ forall fuel path,
           (List.length l < fuel)%nat ->
           walk_path_loop fuel self (node_at self x y) path
           = Ok (path ++ mkPoint x y :: l)).
  { induction n as [|n IH]; intros x0 y0 Hn Hx Hy Hp.
    - assert (x0 = 0 /\ y0 = 0) as [-> ->] by lia. discriminate.
    - assert (Hgo : (x0 >? 0) || (y0 >? 0) = true).
      { unfold placeholder in Hp. revert Hp. zbool; intros; auto; lia. }
      destruct (solved_parent x0 y0 Hx Hy Hp) as [[Lx [Ly Hpar]]|Hpar].
      + exists []. split; [|split].
        * apply (trail_move (mkPoint x0 y0) []); simpl; auto; try lia.
          replace (x0 - x0 mod 2) with 0 by lia.
          replace (y0 - y0 mod 2) with 0 by lia. constructor.
        * apply linked_last. exact Hpar.
        * intros fuel path Hf. destruct fuel as [|fuel]; [simpl in Hf; lia|].
          cbn [walk_path_loop]. rewrite solved_id by assumption.
          cbn [px py]. rewrite Hgo.
          rewrite (get_node_in_grid self xl yl) by (auto; apply Hsolved).
          cbn [bind]. rewrite Hpar. cbn [px py].
          rewrite (get_node_in_grid self xl yl)
            by (try apply Hsolved; unfold xl, yl; lia).
          cbn [bind]. destruct fuel; cbn [walk_path_loop];
            rewrite solved_id by (unfold xl, yl; lia); reflexivity.
      + pose proof (preds_placeholder _ _ _ Hpar) as Pp.
        pose proof (preds_lands _ _ _ Hpar) as [Lx Ly].
        pose proof (preds_nonneg x0 y0 _ ltac:(lia) ltac:(lia) Hpar) as [Bx [By Bs]].
        destruct (relax_parent (node_at self x0 y0)) as [cx cy] eqn:Epar.
        cbn [px py] in *.
        destruct (IH cx cy) as [l [Ht [Hl Hw]]]; try lia; auto.
        exists (mkPoint cx cy :: l). split; [|split].
        * apply (trail_move (mkPoint x0 y0)); simpl; auto; try lia.
          rewrite <- Lx, <- Ly. exact Ht.
        * apply linked_next; [exact Epar|exact Hl].
        * intros fuel path Hf. destruct fuel as [|fuel]; [simpl in Hf; lia|].
          cbn [walk_path_loop]. rewrite solved_id by assumption.
          cbn [px py]. rewrite Hgo.
          rewrite (get_node_in_grid self xl yl) by (auto; apply Hsolved).
          cbn [bind]. rewrite Epar. cbn [px py].
          rewrite (get_node_in_grid self xl yl) by (try apply Hsolved; lia).
          cbn [bind]. rewrite Hw by (simpl in Hf; lia).
          rewrite <- app_assoc. reflexivity. }
  intros Hx Hy Hp. apply (G (Z.to_nat (x + y))); auto. lia.
Qed.

End Walk.


(** ** Decoding the path *)

(** The values that are present, in order. *)
Fixpoint present {A : Type} (l : list (option A)) : list A :=
  match l with
  | [] => []
  | Some a :: t => a :: present t
  | None :: t => present t
  end.

Lemma present_app {A : Type} (l1 l2 : list (option A)) :
  present (l1 ++ l2) = present l1 ++ present l2.
Proof.
  induction l1 as [|[a|] l1 IH]; simpl; auto. rewrite IH. reflexivity.
Qed.

(** The index of the line before that a point of the path consumes. *)
Definition before_index (p : Point) : option Z :=
  if px p mod 2 =? 0 then None else Some (px p / 2).

(** The index of the line after that a point of the path consumes. *)
Definition after_index (p : Point) : option Z :=
  if py p mod 2 =? 0 then None else Some (py p / 2).

(** The pair [align] makes of a point of the grid. *)
Definition pair_at (lines_b lines_a : list string) (p : Point)
  : option string * option string :=
  (option_map (fun i => nth (Z.to_nat i) lines_b EmptyString) (before_index p),
   option_map (fun j => nth (Z.to_nat j) lines_a EmptyString) (after_index p)).

Lemma pair_of_point_in_grid (lines_b lines_a : list string) (p : Point) :
  0 <= px p < Z.of_nat (List.length lines_b) * 2 + 1 ->
  0 <= py p < Z.of_nat (List.length lines_a) * 2 + 1 ->
  pair_of_point lines_b lines_a p = Ok (pair_at lines_b lines_a p).
Proof.
  intros Hx Hy. unfold pair_of_point, pair_at, before_index, after_index.
  destruct (Z.eqb_spec (px p mod 2) 0) as [Ex|Ex];
    destruct (Z.eqb_spec (py p mod 2) 0) as [Ey|Ey]; cbn [negb bind option_map];
    repeat (rewrite (getitem_in_range _ _ EmptyString) by lia; cbn [bind]);
    reflexivity.
Qed.

Lemma firstn_succ {A : Type} (l : list A) (k : nat) (d : A) :
  (k < List.length l)%nat -> firstn (S k) l = firstn k l ++ [nth k l d].
Proof.
  revert k; induction l as [|h t IH]; intros k Hk; simpl in Hk; [lia|].
  destruct k as [|k]; [reflexivity|].
  change (firstn (S (S k)) (h :: t)) with (h :: firstn (S k) t).
  rewrite (IH k) by lia. reflexivity.
Qed.

Lemma mapM_app {A B : Type} (f : A -> result B) (xs ys : list A) :
  mapM f (xs ++ ys)
  = (us <- mapM f xs ;; vs <- mapM f ys ;; Ok (us ++ vs)).
Proof.
  induction xs as [|x xs IH]; simpl.
  - destruct (mapM f ys); reflexivity.
  - destruct (f x); simpl; auto. rewrite IH.
    destruct (mapM f xs); simpl; auto. destruct (mapM f ys); reflexivity.
Qed.

Section Decode.

Variables lines_b lines_a : list string.

Let m : Z := Z.of_nat (List.length lines_b).
Let n : Z := Z.of_nat (List.length lines_a).

(** Along a trail every line consumed so far is decoded exactly once, in
    order, and no pair is empty. *)
Lemma trail_decode (l : list Point) (X Y : Z) :
  trail l X Y -> X <= 2 * m -> Y <= 2 * n ->
  mapM (pair_of_point lines_b lines_a) (rev l)
  = Ok (map (pair_at lines_b lines_a) (rev l))
  /\ present (map before_index (rev l)) = range (X / 2)
  /\ present (map after_index (rev l)) = range (Y / 2)
  /\ present (map fst (map (pair_at lines_b lines_a) (rev l)))
     = firstn (Z.to_nat (X / 2)) lines_b
  /\ present (map snd (map (pair_at lines_b lines_a) (rev l)))
     = firstn (Z.to_nat (Y / 2)) lines_a
  /\ (forall p, In p l -> placeholder (px p) (py p) = false).
Proof.
  unfold m, n. induction 1 as [|p l Hx Hy Hp Ht IH]; intros HX HY.
  - simpl. repeat split; auto. intros p [].
  - destruct IH as [I1 [I2 [I3 [I4 [I5 I6]]]]]; try lia.
    cbn [rev]. rewrite mapM_app, I1. cbn [bind mapM].
    rewrite pair_of_point_in_grid by lia. cbn [bind].
    rewrite !map_app, !present_app, I2, I3, I4, I5. cbn [map].
    unfold placeholder in Hp.
    repeat split.
    + unfold before_index. revert Hp. zbool; intros; try discriminate; simpl;
        first [ rewrite app_nil_r; f_equal; lia
              | replace ((px p + px p mod 2) / 2)
                  with ((px p - px p mod 2) / 2 + 1) by lia;
                rewrite range_succ by lia; do 2 f_equal; lia ].
    + unfold after_index. revert Hp. zbool; intros; try discriminate; simpl;
        first [ rewrite app_nil_r; f_equal; lia
              | replace ((py p + py p mod 2) / 2)
                  with ((py p - py p mod 2) / 2 + 1) by lia;
                rewrite range_succ by lia; do 2 f_equal; lia ].
    + unfold pair_at, before_index. cbn [fst].
      destruct (Z.eqb_spec (px p mod 2) 0) as [E|E]; cbn [option_map present].
      * rewrite app_nil_r. f_equal. f_equal. lia.
      * replace (Z.to_nat ((px p + px p mod 2) / 2))
          with (S (Z.to_nat ((px p - px p mod 2) / 2))) by lia.
        rewrite (firstn_succ _ _ EmptyString) by lia.
        f_equal. f_equal. f_equal. lia.
    + unfold pair_at, after_index. cbn [snd].
      destruct (Z.eqb_spec (py p mod 2) 0) as [E|E]; cbn [option_map present].
      * rewrite app_nil_r. f_equal. f_equal. lia.
      * replace (Z.to_nat ((py p + py p mod 2) / 2))
          with (S (Z.to_nat ((py p - py p mod 2) / 2))) by lia.
        rewrite (firstn_succ _ _ EmptyString) by lia.
        f_equal. f_equal. f_equal. lia.
    + intros q [<-|Hq]; auto.
Qed.

End Decode.


(** ** The shortest path *)

Lemma walk_path_loop_more_fuel (self : AlignmentMatrix) (fuel : nat) :
  forall pos path r,
    walk_path_loop fuel self pos path = Ok r ->
    forall fuel', (fuel <= fuel')%nat ->
      walk_path_loop fuel' self pos path = Ok r.
Proof.
  induction fuel as [|fuel IH]; intros pos path r H fuel' Hf.
  - destruct fuel'; simpl in *; destruct (_ || _); congruence.
  - destruct fuel' as [|fuel']; [lia|]. simpl in *.
    destruct (_ || _); auto.
    destruct (get_node self _ _) as [here| |]; simpl in *; try discriminate.
    destruct (get_node self _ _) as [next| |]; simpl in *; try discriminate.
    apply (IH _ _ _ H). lia.
Qed.

Lemma shortest_path_more_fuel (self : AlignmentMatrix) (fuel fuel' : nat)
    (path : list Point) :
  shortest_path fuel self = Ok path -> (fuel <= fuel')%nat ->
  shortest_path fuel' self = Ok path.
Proof.
  unfold shortest_path, walk_path. intros H Hf.
  destruct (relax_all self) as [s| |]; simpl in *; try discriminate.
  destruct (get_node s _ _) as [exy| |]; simpl in *; try discriminate.
  destruct (get_node s _ _) as [ex| |]; simpl in *; try discriminate.
  destruct (get_node s _ _) as [ey| |]; simpl in *; try discriminate.
  destruct (walk_path_loop fuel s _ []) as [p| |] eqn:W; simpl in *;
    try discriminate.
  rewrite (walk_path_loop_more_fuel _ _ _ _ _ W _ Hf). exact H.
Qed.

(** The exit node [shortest_path] walks back from. *)
Definition exit_of (self : AlignmentMatrix) : AlignmentNode :=
  choose_exit
    (node_at self (line_matrix_x_len self - 2) (line_matrix_y_len self - 1))
    (node_at self (line_matrix_x_len self - 1) (line_matrix_y_len self - 2))
    (node_at self (line_matrix_x_len self - 2) (line_matrix_y_len self - 2)).

Section ShortestPath.

Variables lines_b lines_a : list string.

Let m : Z := Z.of_nat (List.length lines_b).
Let n : Z := Z.of_nat (List.length lines_a).

Hypothesis lines_b_nonempty : lines_b <> [].
Hypothesis lines_a_nonempty : lines_a <> [].

Lemma lines_positive : 0 < m /\ 0 < n.
Proof.
  unfold m, n. destruct lines_b, lines_a; try congruence.
  simpl List.length. lia.
Qed.

Lemma exit_of_in_grid (self : AlignmentMatrix) :
  solved lines_b lines_a self ->
  exists x y,
    exit_of self = node_at self x y
    /\ 0 <= x < 2 * m + 1 /\ 0 <= y < 2 * n + 1
    /\ placeholder x y = false
    /\ x + x mod 2 = 2 * m /\ y + y mod 2 = 2 * n.
Proof.
  intros [Hs _]. pose proof lines_positive as [Hm Hn].
  unfold exit_of. rewrite (shape_x_len _ _ _ Hs), (shape_y_len _ _ _ Hs).
  fold m n. unfold choose_exit.
  destruct (_ && _); [|destruct (num_lt _ _)]; eexists; eexists;
    (split; [reflexivity|]); unfold placeholder; zbool; repeat split; lia.
Qed.

(** [shortest_path] succeeds when both sides have a line: it returns the
    moves of a trail to the state where every line is consumed, the last of
    them being the exit it chose. *)
Lemma shortest_path_trail :
  exists self l,
    relax_all (initial_matrix lines_b lines_a) = Ok self
    /\ solved lines_b lines_a self
    /\ trail (id (exit_of self) :: l) (2 * m) (2 * n)
    /\ linked self (id (exit_of self) :: l)
    /\ forall fuel, (List.length l < fuel)%nat ->
         shortest_path fuel (initial_matrix lines_b lines_a)
         = Ok (rev (id (exit_of self) :: l)).
Proof.
  destruct (relax_all_solved lines_b lines_a lines_b_nonempty lines_a_nonempty)
    as [self [R S]].
  destruct (exit_of_in_grid self S) as [x [y [E [Hx [Hy [Hp [Lx Ly]]]]]]].
  destruct (walk_path_loop_trail lines_b lines_a self S x y) as [l [T [K W]]];
    try (fold m; fold n; lia); auto.
  assert (I : id (exit_of self) = mkPoint x y).
  { rewrite E. apply (solved_id lines_b lines_a self S); fold m; fold n; lia. }
  exists self, l. split; [exact R|]. split; [exact S|]. split; [|split].
  - rewrite I, <- Lx, <- Ly. exact T.
  - rewrite I. exact K.
  - intros fuel Hf. unfold shortest_path. rewrite R. cbn [bind].
    pose proof lines_positive as [Hm Hn].
    destruct S as [Hs Hnode].
    rewrite !(get_node_in_grid self _ _ _ _ Hs)
      by (rewrite ?(shape_x_len _ _ _ Hs), ?(shape_y_len _ _ _ Hs);
          fold m; fold n; lia).
    cbn [bind]. fold (exit_of self). rewrite I. rewrite E.
    unfold walk_path. rewrite W by assumption. reflexivity.
Qed.

End ShortestPath.


(** ** Swapping the two sides *)

Definition swap_point (p : Point) : Point := mkPoint (py p) (px p).

Definition swap_pair {A B : Type} (pr : A * B) : B * A := (snd pr, fst pr).

(** The node at [(y, x)] of the matrix of [lines_a] and [lines_b] that
    mirrors a node at [(x, y)] of the matrix of [lines_b] and [lines_a]. *)
Definition mirror_node (node : AlignmentNode) : AlignmentNode :=
  mkNode (swap_point (id node)) (weight node) (relax_weight node)
         (swap_point (relax_parent node)).

Definition result_map {A B : Type} (f : A -> B) (r : result A) : result B :=
  match r with
  | Ok a => Ok (f a)
  | IndexError => IndexError
  | OutOfFuel => OutOfFuel
  end.

Lemma placeholder_swap (x y : Z) : placeholder y x = placeholder x y.
Proof. unfold placeholder. apply andb_comm. Qed.

Lemma solved_pair_before_insert (lines_b lines_a : list string)
    (self : AlignmentMatrix) (X Y : Z) :
  solved lines_b lines_a self ->
  X mod 2 = 0 -> Y mod 2 = 0 -> 0 < Y <= X ->
  X < Z.of_nat (List.length lines_b) * 2 + 1 ->
  Y < Z.of_nat (List.length lines_a) * 2 + 1 ->
  dist self (X - 1) (Y - 1) <= dist self X (Y - 1).
Proof.
  intros S. apply (pair_before_insert
    (Z.of_nat (List.length lines_b) * 2 + 1)
    (Z.of_nat (List.length lines_a) * 2 + 1)
    (dist self) (weight_at lines_b lines_a)).
  - lia.
  - lia.
  - intros x y _ _. apply weight_at_nonneg.
  - apply weight_at_pair.
  - apply weight_at_insert.
  - apply (solved_dist_root lines_b lines_a self S).
  - apply (solved_dist_step lines_b lines_a self S).
Qed.

Lemma pick3_swap (d1 d2 d3 : Z) (c1 c2 c3 : Point) :
  d1 <= d3 \/ d1 <= d2 ->
  pick3 d1 d3 d2 (swap_point c1) (swap_point c3) (swap_point c2)
  = swap_point (pick3 d1 d2 d3 c1 c2 c3).
Proof.
  intros H. unfold pick3. zbool; try reflexivity; lia.
Qed.

Section Mirror.

Variables lines_b lines_a : list string.
Variables self self' : AlignmentMatrix.

Let xl : Z := Z.of_nat (List.length lines_b) * 2 + 1.
Let yl : Z := Z.of_nat (List.length lines_a) * 2 + 1.

Hypothesis Hsolved : solved lines_b lines_a self.
Hypothesis Hsolved' : solved lines_a lines_b self'.

Lemma dist_mirror (x y : Z) :
  node_at self' y x = mirror_node (node_at self x y) ->
  dist self' y x = dist self x y.
Proof. intros H. unfold dist. rewrite H. reflexivity. Qed.

(** The two solved matrices mirror each other. *)
Lemma solved_mirror (x y : Z) :
  0 <= x < xl -> 0 <= y < yl ->
  node_at self' y x = mirror_node (node_at self x y).
Proof.
  assert (G : forall k : nat, forall x y, x + y <= Z.of_nat k ->
            0 <= x < xl -> 0 <= y < yl ->
            node_at self' y x = mirror_node (node_at self x y)).
  { induction k as [|k IH]; intros x0 y0 Hk Hx Hy;
      (destruct (placeholder x0 y0) eqn:Hp;
       [ rewrite (solved_placeholder lines_b lines_a self Hsolved) by assumption;
         rewrite (solved_placeholder lines_a lines_b self' Hsolved')
           by (try rewrite (placeholder_swap x0 y0); assumption);
         unfold mirror_node; cbn; rewrite weight_at_swap; reflexivity |]).
    - assert (x0 = 0 /\ y0 = 0) as [-> ->] by lia. discriminate.
    - assert (D : forall cx cy, 0 <= cx <= x0 -> 0 <= cy <= y0 ->
                  cx + cy < x0 + y0 -> dist self' cy cx = dist self cx cy).
      { intros cx cy Hcx Hcy Hs. apply dist_mirror. apply IH; lia. }
      pose proof (weight_at_swap lines_b lines_a x0 y0) as W.
      destruct (preds_cases x0 y0) as [[? [? E]]|[[? [? E]]|[[? [? E]]|[? [? E]]]]];
        try lia; auto.
      + rewrite (solved_root lines_b lines_a self Hsolved) by (auto; lia).
        rewrite (solved_root lines_a lines_b self' Hsolved')
          by (try rewrite (placeholder_swap x0 y0); auto; lia).
        unfold mirror_node; cbn. rewrite W. reflexivity.
      + rewrite (solved_three lines_b lines_a self Hsolved) by assumption.
        rewrite (solved_three lines_a lines_b self' Hsolved')
          by (try rewrite (placeholder_swap x0 y0); assumption).
        unfold mirror_node; cbn [id weight relax_weight relax_parent].
        rewrite !D by lia. rewrite W.
        rewrite <- pick3_swap.
        * unfold swap_point; cbn [px py]. f_equal. f_equal. lia.
        * destruct (Z_le_dec (y0 - y0 mod 2) (x0 - x0 mod 2)) as [L|L].
          -- left. apply (solved_pair_before_insert lines_b lines_a self _ _ Hsolved);
               fold xl; fold yl; lia.
          -- right.
             rewrite <- (D (x0 - x0 mod 2 - 1) (y0 - y0 mod 2 - 1)) by lia.
             rewrite <- (D (x0 - x0 mod 2 - 1) (y0 - y0 mod 2)) by lia.
             apply (solved_pair_before_insert lines_a lines_b self' _ _ Hsolved');
               fold xl; fold yl; lia.
      + rewrite (solved_delete lines_b lines_a self Hsolved) by assumption.
        rewrite (solved_insert lines_a lines_b self' Hsolved')
          by (try rewrite (placeholder_swap x0 y0); assumption).
        unfold mirror_node; cbn [id weight relax_weight relax_parent].
        rewrite !D by lia. rewrite W. reflexivity.
      + rewrite (solved_insert lines_b lines_a self Hsolved) by assumption.
        rewrite (solved_delete lines_a lines_b self' Hsolved')
          by (try rewrite (placeholder_swap x0 y0); assumption).
        unfold mirror_node; cbn [id weight relax_weight relax_parent].
        rewrite !D by lia. rewrite W. reflexivity. }
  intros Hx Hy. apply (G (Z.to_nat (x + y))); auto. lia.
Qed.

End Mirror.

Lemma solved_parent_in_grid (lines_b lines_a : list string)
    (self : AlignmentMatrix) (x y : Z) :
  solved lines_b lines_a self ->
  0 <= x < Z.of_nat (List.length lines_b) * 2 + 1 ->
  0 <= y < Z.of_nat (List.length lines_a) * 2 + 1 ->
  0 <= px (relax_parent (node_at self x y)) <= x
  /\ 0 <= py (relax_parent (node_at self x y)) <= y.
Proof.
  intros S Hx Hy. destruct (placeholder x y) eqn:Hp.
  - rewrite (solved_placeholder lines_b lines_a self S) by assumption.
    simpl. lia.
  - destruct (solved_parent lines_b lines_a self S x y Hx Hy Hp)
      as [[_ [_ ->]]|H].
    + simpl. lia.
    + apply preds_nonneg in H; lia.
Qed.

Section MirrorWalk.

Variables lines_b lines_a : list string.
Variables self self' : AlignmentMatrix.

Let xl : Z := Z.of_nat (List.length lines_b) * 2 + 1.
Let yl : Z := Z.of_nat (List.length lines_a) * 2 + 1.

Hypothesis Hsolved : solved lines_b lines_a self.
Hypothesis Hsolved' : solved lines_a lines_b self'.

(** Walking the mirrored matrix gives the mirrored path, whatever the fuel. *)
Lemma walk_path_loop_mirror (fuel : nat) :
  forall x y path,
    0 <= x < xl -> 0 <= y < yl ->
    walk_path_loop fuel self' (node_at self' y x) (map swap_point path)
    = result_map (map swap_point)
        (walk_path_loop fuel self (node_at self x y) path).
Proof.
  induction fuel as [|fuel IH]; intros x y path Hx Hy;
    cbn [walk_path_loop];
    rewrite (solved_id lines_b lines_a self Hsolved) by assumption;
    rewrite (solved_id lines_a lines_b self' Hsolved') by assumption;
    cbn [px py]; rewrite (orb_comm (y >? 0));
    destruct ((x >? 0) || (y >? 0)); try reflexivity.
  rewrite (get_node_in_grid self xl yl) by (auto; apply Hsolved).
  rewrite (get_node_in_grid self' yl xl) by (auto; apply Hsolved').
  cbn [bind].
  rewrite (solved_mirror lines_b lines_a self self' Hsolved Hsolved') by assumption.
  pose proof (solved_parent_in_grid lines_b lines_a self x y Hsolved Hx Hy)
    as [Px Py].
  cbn [mirror_node relax_parent swap_point px py].
  rewrite (get_node_in_grid self xl yl) by (try apply Hsolved; lia).
  rewrite (get_node_in_grid self' yl xl) by (try apply Hsolved'; lia).
  cbn [bind].
  replace (map swap_point path ++ [mkPoint y x])
    with (map swap_point (path ++ [mkPoint x y]))
    by (rewrite map_app; reflexivity).
  apply IH; lia.
Qed.

Lemma num_lt_int (a b : Z) : num_lt (Int a) (Int b) = (a <? b).
Proof. unfold num_lt, num_gt. apply Z.gtb_ltb. Qed.

(** The exit chosen in the mirrored matrix mirrors the exit chosen. *)
Lemma exit_of_mirror :
  lines_b <> [] -> lines_a <> [] ->
  exit_of self' = mirror_node (exit_of self).
Proof.
  intros Hb Ha.
  assert (3 <= xl) by (unfold xl; destruct lines_b; [congruence|simpl List.length; lia]).
  assert (3 <= yl) by (unfold yl; destruct lines_a; [congruence|simpl List.length; lia]).
  unfold exit_of.
  rewrite (shape_x_len _ _ _ (proj1 Hsolved)), (shape_y_len _ _ _ (proj1 Hsolved)).
  rewrite (shape_x_len _ _ _ (proj1 Hsolved')), (shape_y_len _ _ _ (proj1 Hsolved')).
  fold xl yl.
  pose proof (solved_mirror lines_b lines_a self self' Hsolved Hsolved') as M.
  fold xl yl in M.
  rewrite (M (xl - 1) (yl - 2)), (M (xl - 2) (yl - 1)), (M (xl - 2) (yl - 2)) by lia.
  assert (Px : placeholder (xl - 2) (yl - 1) = false)
    by (unfold placeholder, xl, yl; zbool; reflexivity).
  assert (Py : placeholder (xl - 1) (yl - 2) = false)
    by (unfold placeholder, xl, yl; zbool; reflexivity).
  assert (Pxy : placeholder (xl - 2) (yl - 2) = false)
    by (unfold placeholder, xl, yl; zbool; reflexivity).
  destruct (solved_dist lines_b lines_a self Hsolved (xl - 2) (yl - 1))
    as [Ex _]; try (fold xl; fold yl; lia); auto.
  destruct (solved_dist lines_b lines_a self Hsolved (xl - 1) (yl - 2))
    as [Ey _]; try (fold xl; fold yl; lia); auto.
  destruct (solved_dist lines_b lines_a self Hsolved (xl - 2) (yl - 2))
    as [Exy _]; try (fold xl; fold yl; lia); auto.
  assert (Dom : dist self (xl - 2) (yl - 2) <= dist self (xl - 1) (yl - 2)
                \/ dist self (xl - 2) (yl - 2) <= dist self (xl - 2) (yl - 1)).
  { destruct (Z_le_dec (yl - 1) (xl - 1)) as [L|L].
    - left.
      pose proof (solved_pair_before_insert lines_b lines_a self
                    (xl - 1) (yl - 1) Hsolved) as P.
      replace (xl - 1 - 1) with (xl - 2) in P by lia.
      replace (yl - 1 - 1) with (yl - 2) in P by lia.
      apply P; unfold xl, yl in *; lia.
    - right.
      pose proof (solved_pair_before_insert lines_a lines_b self'
                    (yl - 1) (xl - 1) Hsolved') as P.
      replace (xl - 1 - 1) with (xl - 2) in P by lia.
      replace (yl - 1 - 1) with (yl - 2) in P by lia.
      rewrite (dist_mirror self self' (xl - 2) (yl - 2)) in P by (apply M; lia).
      rewrite (dist_mirror self self' (xl - 2) (yl - 1)) in P by (apply M; lia).
      apply P; unfold xl, yl in *; lia. }
  unfold choose_exit. cbn [mirror_node relax_weight].
  rewrite Ex, Ey, Exy, !num_lt_int.
  destruct Dom as [Dom|Dom]; zbool; try reflexivity; lia.
Qed.

End MirrorWalk.


(** ** An empty side *)

Lemma update_node_beyond_rows (self : AlignmentMatrix) (xl yl x y : Z)
    (f : AlignmentNode -> AlignmentNode) :
  shape self xl yl -> xl <= x -> update_node self x y f = IndexError.
Proof.
  intros [_ _ Hr _] Hx. unfold update_node.
  rewrite getitem_too_large by lia. reflexivity.
Qed.

Lemma update_node_beyond_columns (self : AlignmentMatrix) (xl yl x y : Z)
    (f : AlignmentNode -> AlignmentNode) :
  shape self xl yl -> 0 <= x < xl -> yl <= y ->
  update_node self x y f = IndexError.
Proof.
  intros [_ _ Hr Hc] Hx Hy. unfold update_node.
  rewrite (getitem_in_range _ x []) by lia. cbn [bind].
  rewrite getitem_too_large by (rewrite Hc; lia). reflexivity.
Qed.

(** With no line on one side, a node next to the root is missing from the
    matrix, and the first loop of [shortest_path] fails on it. *)
Lemma init_roots_empty_side (lines_b lines_a : list string) :
  lines_b = [] \/ lines_a = [] ->
  init_roots (initial_matrix lines_b lines_a) = IndexError.
Proof.
  intros H. pose proof (initial_matrix_shape lines_b lines_a) as S.
  unfold init_roots, root_adjacency. cbn [foldM px py].
  destruct lines_a as [|xa la].
  - rewrite (update_node_beyond_columns _ _ _ 0 1 _ S); simpl List.length; try lia.
    reflexivity.
  - destruct H as [->|H]; [|discriminate].
    destruct (update_node_in_grid _ _ _ 0 1 (set_relax_weight (Int 0)) S)
      as [s1 [U1 [S1 _]]]; simpl List.length; try lia.
    rewrite U1. cbn [bind].
    rewrite (update_node_beyond_rows _ _ _ 1 0 _ S1); simpl List.length; try lia.
    reflexivity.
Qed.

Lemma shortest_path_empty_side (lines_b lines_a : list string) (fuel : nat) :
  lines_b = [] \/ lines_a = [] ->
  shortest_path fuel (initial_matrix lines_b lines_a) = IndexError.
Proof.
  intros H. unfold shortest_path, relax_all.
  rewrite init_roots_empty_side by assumption. reflexivity.
Qed.

Lemma align_empty_side (ndiff : string -> string -> list (ascii * string))
    (fuel : nat) (lines_b lines_a : list string) :
  lines_b = [] \/ lines_a = [] ->
  align ndiff fuel lines_b lines_a = IndexError.
Proof.
  intros H. unfold align. rewrite AlignmentMatrix_init_ok. cbn [bind].
  rewrite shortest_path_empty_side by assumption. reflexivity.
Qed.

(** ** A line on each side *)

Lemma trail_in_grid (l : list Point) (X Y : Z) :
  trail l X Y ->
  forall p, In p l -> 0 <= px p <= X /\ 0 <= py p <= Y.
Proof.
  induction 1 as [|q l Hx Hy Hp Ht IH]; intros p Hin.
  - destruct Hin.
  - destruct Hin as [<-|Hin]; [lia|]. apply IH in Hin. lia.
Qed.

(** Whenever [shortest_path] returns a path, it is the one walked back from
    the exit of the solved matrix. *)
Lemma shortest_path_sound (lines_b lines_a : list string) (fuel : nat)
    (path : list Point) :
  shortest_path fuel (initial_matrix lines_b lines_a) = Ok path ->
  lines_b <> [] /\ lines_a <> [] /\
  exists self l,
    relax_all (initial_matrix lines_b lines_a) = Ok self
    /\ solved lines_b lines_a self
    /\ trail (id (exit_of self) :: l)
         (2 * Z.of_nat (List.length lines_b)) (2 * Z.of_nat (List.length lines_a))
    /\ linked self (id (exit_of self) :: l)
    /\ path = rev (id (exit_of self) :: l).
Proof.
  intros H.
  assert (Hb : lines_b <> []).
  { intros E. rewrite shortest_path_empty_side in H by auto. discriminate. }
  assert (Ha : lines_a <> []).
  { intros E. rewrite shortest_path_empty_side in H by auto. discriminate. }
  split; [exact Hb|]. split; [exact Ha|].
  destruct (shortest_path_trail lines_b lines_a Hb Ha) as [self [l [R [Sv [T [K W]]]]]].
  exists self, l.
  split; [exact R|]. split; [exact Sv|]. split; [exact T|]. split; [exact K|].
  pose proof (shortest_path_more_fuel _ fuel (fuel + Datatypes.S (List.length l)) path H
                ltac:(lia)) as H1.
  rewrite W in H1 by lia. congruence.
Qed.

Lemma align_sound (ndiff : string -> string -> list (ascii * string))
    (lines_b lines_a : list string) (fuel : nat)
    (out : list (option string * option string)) :
  align ndiff fuel lines_b lines_a = Ok out ->
  exists path,
    shortest_path fuel (initial_matrix lines_b lines_a) = Ok path
    /\ out = map (pair_at lines_b lines_a) path.
Proof.
  unfold align. rewrite AlignmentMatrix_init_ok. cbn [bind]. intros H.
  destruct (shortest_path fuel _) as [path| |] eqn:P; try discriminate.
  cbn [bind] in H. exists path. split; [reflexivity|].
  destruct (shortest_path_sound _ _ _ _ P) as [_ [_ [self [l [_ [_ [T [_ ->]]]]]]]].
  destruct (trail_decode lines_b lines_a _ _ _ T) as [D _]; try lia.
  rewrite D in H. congruence.
Qed.

Lemma align_complete (ndiff : string -> string -> list (ascii * string))
    (lines_b lines_a : list string) (fuel : nat) :
  lines_b <> [] -> lines_a <> [] ->
  (List.length lines_b + List.length lines_a <= fuel)%nat ->
  exists path,
    shortest_path fuel (initial_matrix lines_b lines_a) = Ok path
    /\ align ndiff fuel lines_b lines_a = Ok (map (pair_at lines_b lines_a) path).
Proof.
  intros Hb Ha Hf.
  destruct (shortest_path_trail lines_b lines_a Hb Ha) as [self [l [R [Sv [T [K W]]]]]].
  pose proof (trail_bounds _ _ _ T) as B. cbn [List.length] in B.
  exists (rev (id (exit_of self) :: l)).
  assert (P : shortest_path fuel (initial_matrix lines_b lines_a)
              = Ok (rev (id (exit_of self) :: l))) by (apply W; lia).
  split; [exact P|].
  unfold align. rewrite AlignmentMatrix_init_ok. cbn [bind]. rewrite P. cbn [bind].
  destruct (trail_decode lines_b lines_a _ _ _ T) as [D _]; try lia.
  exact D.
Qed.

(** ** Swapping the sides of [align] *)

Lemma pair_at_swap (lines_b lines_a : list string) (p : Point) :
  pair_at lines_a lines_b (swap_point p) = swap_pair (pair_at lines_b lines_a p).
Proof. reflexivity. Qed.

Lemma result_map_bind {A B C : Type} (f : B -> C) (m : result A)
    (k : A -> result B) :
  result_map f (x <- m ;; k x) = (x <- m ;; result_map f (k x)).
Proof. destruct m; reflexivity. Qed.

Lemma shortest_path_mirror (lines_b lines_a : list string) (fuel : nat) :
  shortest_path fuel (initial_matrix lines_a lines_b)
  = result_map (map swap_point)
      (shortest_path fuel (initial_matrix lines_b lines_a)).
Proof.
  destruct lines_b as [|xb lb] eqn:Eb.
  { rewrite !shortest_path_empty_side by auto. reflexivity. }
  destruct lines_a as [|xa la] eqn:Ea.
  { rewrite !shortest_path_empty_side by auto. reflexivity. }
  rewrite <- Eb, <- Ea.
  assert (Hb : lines_b <> []) by (subst; discriminate).
  assert (Ha : lines_a <> []) by (subst; discriminate).
  clear Eb Ea xb lb xa la.
  destruct (relax_all_solved lines_b lines_a Hb Ha) as [self [R Sv]].
  destruct (relax_all_solved lines_a lines_b Ha Hb) as [self' [R' Sv']].
  destruct (exit_of_in_grid lines_b lines_a Hb Ha self Sv)
    as [x [y [E [Hx [Hy _]]]]].
  pose proof (lines_positive lines_b lines_a Hb Ha) as [Hm Hn].
  unfold shortest_path. rewrite R, R'. cbn [bind].
  rewrite !(get_node_in_grid self _ _ _ _ (proj1 Sv))
    by (rewrite ?(shape_x_len _ _ _ (proj1 Sv)), ?(shape_y_len _ _ _ (proj1 Sv)); lia).
  rewrite !(get_node_in_grid self' _ _ _ _ (proj1 Sv'))
    by (rewrite ?(shape_x_len _ _ _ (proj1 Sv')), ?(shape_y_len _ _ _ (proj1 Sv')); lia).
  cbn [bind]. fold (exit_of self). fold (exit_of self').
  rewrite (exit_of_mirror lines_b lines_a self self' Sv Sv' Hb Ha), E.
  rewrite <- (solved_mirror lines_b lines_a self self' Sv Sv') by lia.
  unfold walk_path.
  change (@nil Point) with (map swap_point []) at 1.
  rewrite (walk_path_loop_mirror lines_b lines_a self self' Sv Sv') by lia.
  destruct (walk_path_loop fuel self (node_at self x y) []); cbn; auto.
  rewrite map_rev. reflexivity.
Qed.

Lemma align_mirror (ndiff : string -> string -> list (ascii * string))
    (fuel : nat) (lines_b lines_a : list string) :
  align ndiff fuel lines_a lines_b
  = result_map (map swap_pair) (align ndiff fuel lines_b lines_a).
Proof.
  unfold align. rewrite !AlignmentMatrix_init_ok. cbn [bind].
  rewrite shortest_path_mirror.
  destruct (shortest_path fuel (initial_matrix lines_b lines_a))
    as [path| |] eqn:P; cbn; auto.
  destruct (shortest_path_sound _ _ _ _ P) as [_ [_ [self [l [_ [_ [T [_ ->]]]]]]]].
  destruct (trail_decode lines_b lines_a _ _ _ T) as [D _]; try lia.
  rewrite D. cbn [bind result_map].
  assert (M : forall ps, (forall p, In p ps ->
                0 <= px p < Z.of_nat (List.length lines_b) * 2 + 1
                /\ 0 <= py p < Z.of_nat (List.length lines_a) * 2 + 1) ->
              mapM (pair_of_point lines_a lines_b) (map swap_point ps)
              = Ok (map swap_pair (map (pair_at lines_b lines_a) ps))).
  { induction ps as [|p ps IH]; intros Hin; [reflexivity|].
    cbn [map mapM]. rewrite pair_of_point_in_grid
      by (cbn; destruct (Hin p (or_introl eq_refl)); lia).
    cbn [bind]. rewrite IH by (intros; apply Hin; right; assumption).
    cbn [bind]. rewrite pair_at_swap. reflexivity. }
  apply M. intros p Hin. apply (proj2 (in_rev _ _)) in Hin.
  pose proof (trail_in_grid _ _ _ T p Hin). lia.
Qed.

(** ** The cost of an alignment *)

Fixpoint sum (l : list Z) : Z :=
  match l with
  | [] => 0
  | z :: t => z + sum t
  end.

Lemma sum_app (l1 l2 : list Z) : sum (l1 ++ l2) = sum l1 + sum l2.
Proof. induction l1 as [|z l1 IH]; simpl; lia. Qed.

(** The cost of leaving every line unaligned. *)
Definition unaligned_cost (lines_b lines_a : list string) : Z :=
  sum (map len lines_b) + sum (map len lines_a).

(** ** The states a trail goes through *)

(** The consumption state a move lands on: the numbers of lines consumed
    before and after. *)
Definition state_after (p : Point) : Z * Z :=
  ((px p + px p mod 2) / 2, (py p + py p mod 2) / 2).

Lemma trail_states (l : list Point) (X Y : Z) :
  trail l X Y ->
  (forall p, In p l ->
     0 < fst (state_after p) + snd (state_after p) <= (X + Y) / 2)
  /\ NoDup (map state_after l).
Proof.
  induction 1 as [|q l Hx Hy Hp Ht [IH1 IH2]].
  - split; [intros p []|constructor].
  - unfold placeholder in Hp.
    assert (Hq : 0 < fst (state_after q) + snd (state_after q)
                 /\ (px q - px q mod 2 + (py q - py q mod 2)) / 2
                    < fst (state_after q) + snd (state_after q)).
    { unfold state_after; cbn [fst snd]. revert Hp.
      zbool; intros Hp; try discriminate; lia. }
    split.
    + intros p [<-|Hin].
      * unfold state_after in *; cbn [fst snd] in *. lia.
      * apply IH1 in Hin. unfold state_after in *; cbn [fst snd] in *. lia.
    + cbn [map]. constructor; [|exact IH2].
      intros Hin. apply in_map_iff in Hin. destruct Hin as [p [E Hin]].
      apply IH1 in Hin. rewrite E in Hin. lia.
Qed.


(** ** The walk from the exit *)

Lemma shortest_path_walk (lines_b lines_a : list string)
    (self : AlignmentMatrix) (fuel : nat) :
  lines_b <> [] -> lines_a <> [] ->
  relax_all (initial_matrix lines_b lines_a) = Ok self ->
  solved lines_b lines_a self ->
  shortest_path fuel (initial_matrix lines_b lines_a)
  = walk_path fuel self (exit_of self).
Proof.
  intros Hb Ha R Sv. unfold shortest_path. rewrite R. cbn [bind].
  pose proof (lines_positive lines_b lines_a Hb Ha) as [Hm Hn].
  rewrite !(get_node_in_grid self _ _ _ _ (proj1 Sv))
    by (rewrite ?(shape_x_len _ _ _ (proj1 Sv)), ?(shape_y_len _ _ _ (proj1 Sv)); lia).
  reflexivity.
Qed.

Lemma exit_walk (lines_b lines_a : list string) (self : AlignmentMatrix) :
  lines_b <> [] -> lines_a <> [] ->
  solved lines_b lines_a self ->
  exists l,
    trail (id (exit_of self) :: l)
      (2 * Z.of_nat (List.length lines_b)) (2 * Z.of_nat (List.length lines_a))
    /\ linked self (id (exit_of self) :: l)
    /\ forall fuel, (List.length l < fuel)%nat ->
         walk_path fuel self (exit_of self) = Ok (rev (id (exit_of self) :: l)).
Proof.
  intros Hb Ha Sv.
  destruct (exit_of_in_grid lines_b lines_a Hb Ha self Sv)
    as [x [y [E [Hx [Hy [Hp [Lx Ly]]]]]]].
  destruct (walk_path_loop_trail lines_b lines_a self Sv x y) as [l [T [K W]]];
    try lia; auto.
  assert (I : id (exit_of self) = mkPoint x y).
  { rewrite E. apply (solved_id lines_b lines_a self Sv); lia. }
  exists l. rewrite I, <- Lx, <- Ly. split; [exact T|]. split; [exact K|].
  intros fuel Hf. unfold walk_path. rewrite E, W by assumption. reflexivity.
Qed.

Lemma firstn_length_all {A : Type} (l : list A) (m : Z) :
  m = Z.of_nat (List.length l) -> firstn (Z.to_nat (2 * m / 2)) l = l.
Proof.
  intros ->. replace (Z.to_nat (2 * Z.of_nat (List.length l) / 2))
    with (List.length l) by lia.
  apply firstn_all.
Qed.

Lemma pair_at_present (lines_b lines_a : list string) (p : Point) :
  placeholder (px p) (py p) = false ->
  pair_at lines_b lines_a p <> (None, None).
Proof.
  unfold placeholder, pair_at, before_index, after_index.
  destruct (px p mod 2 =? 0); destruct (py p mod 2 =? 0); cbn;
    intros H; congruence.
Qed.

(** * The claims of the specification *)

(** A stand-in for [difflib.ndiff] to run the examples with: the weights
    do not depend on what it yields ([substitution_weight_zero]). *)
Definition no_delta : string -> string -> list (ascii * string) :=
  fun _ _ => [].

(** ** Inputs with an empty side (C1, C9) *)

(** C1.  The specification has [align] succeed when exactly one of the two
    sequences is empty, returning every line of the other side paired with
    absence.  The code does not: [root_adjacency] names the three nodes
    [(0,1)], [(1,0)] and [(1,1)] whatever the size of the matrix (unlike
    [adjacency], which checks that each node exists), and the first loop of
    [shortest_path] subscripts the matrix with a node that is not there.
    Every such call raises [IndexError]; so do [align([], ["x"])] and
    [align(["x"], [])]. *)
Theorem align_one_side_empty (ndiff : string -> string -> list (ascii * string))
    (fuel : nat) (line : string) (lines : list string) :
  align ndiff fuel [] (line :: lines) = IndexError
  /\ align ndiff fuel (line :: lines) [] = IndexError.
Proof.
  split; apply align_empty_side; auto.
Qed.

(** C9.  Called with both sequences empty, [align] raises [IndexError]: the
    caller gets an error, and no pairing. *)
Theorem align_both_empty (ndiff : string -> string -> list (ascii * string))
    (fuel : nat) :
  align ndiff fuel [] [] = IndexError
  /\ forall out, align ndiff fuel [] [] <> Ok out.
Proof.
  assert (E : align ndiff fuel [] [] = IndexError)
    by (apply align_empty_side; auto).
  split; [exact E|]. intros out. rewrite E. discriminate.
Qed.

(** ** The substitution cost (C2) *)

(** The substitution cost in the words of the specification: with [D] the
    number of tokens of the character-level diff that are not equal tokens
    and [K] the number of those that are insertions or deletions,
    [D * ceil(K / 2)]. *)
Definition spec_substitution_cost (delta : list (ascii * string)) : Z :=
  let D := Z.of_nat (List.length (filter (fun t => not_equal_tag (fst t)) delta)) in
  let K := Z.of_nat (List.length (filter (fun t => ins_or_del_tag (fst t)) delta)) in
  D * ((K + 1) / 2).

(** What [difflib.ndiff("x", "y")] yields: ["- x"] and ["+ y"]. *)
Definition delta_x_y : list (ascii * string) :=
  [("-"%char, "x"%string); ("+"%char, "y"%string)].

(** C2.  The specification has the substitution cost be [D * ceil(K / 2)],
    zero only for identical lines.  The code computes [D] and [K] by two
    sums over one generator: the first sum exhausts it, the second counts
    nothing, [K] is always 0, and the weight is [D * ((0 + 1) // 2) = 0] for
    every pair of lines.  For ["x"] and ["y"] the specification's cost is 2
    and the code's weight is 0, in the matrix too. *)
Theorem substitution_weight_always_zero :
  (forall ndiff line_b line_a, substitution_weight ndiff line_b line_a = 0)
  /\ spec_substitution_cost delta_x_y = 2
  /\ substitution_weight (fun _ _ => delta_x_y) "x" "y" = 0
  /\ "x"%string <> "y"%string
  /\ exists matrix,
       AlignmentMatrix_init (fun _ _ => delta_x_y) ["x"%string] ["y"%string]
       = Ok matrix
       /\ weight (node_at matrix 1 1) = 0.
Proof.
  split; [intros; apply substitution_weight_zero|].
  split; [reflexivity|]. split; [reflexivity|]. split; [discriminate|].
  eexists. split; [apply AlignmentMatrix_init_ok|]. reflexivity.
Qed.

(** ** The nodes next to the root (C5) *)

(** C5.  The specification has the three nodes next to the root start with a
    relaxed distance equal to their own weight.  The code assigns 0 to
    [relax_weight] instead (line 131), whereas [relax] counts the weight of
    a node in its relaxed weight: before the sweep the node [(1,0)] has
    weight [len(lines_b[0])], the node [(0,1)] has weight [len(lines_a[0])],
    and all three have relaxed weight 0 and the origin as parent. *)
Theorem init_roots_relax_weight (line_b : string) (lines_b : list string)
    (line_a : string) (lines_a : list string) :
  exists self,
    init_roots (initial_matrix (line_b :: lines_b) (line_a :: lines_a)) = Ok self
    /\ node_at self 1 0 = mkNode (mkPoint 1 0) (len line_b) (Int 0) (mkPoint 0 0)
    /\ node_at self 0 1 = mkNode (mkPoint 0 1) (len line_a) (Int 0) (mkPoint 0 0)
    /\ node_at self 1 1 = mkNode (mkPoint 1 1) 0 (Int 0) (mkPoint 0 0).
Proof.
  destruct (init_roots_swept (line_b :: lines_b) (line_a :: lines_a))
    as [self [R [Sh N]]]; try discriminate.
  exists self. split; [exact R|].
  cbn [List.length] in N.
  repeat split; rewrite N by lia; reflexivity.
Qed.

(** A consequence of the first move being free of charge: the path
    [shortest_path] returns need not be one of least weight.  Here it
    deletes the long line, over nodes of the matrix that weigh 4 together,
    where pairing the long line and deleting the short one goes over nodes
    that weigh 1. *)
Lemma first_move_free_of_charge :
  align no_delta 2 ["aaaa"%string; "b"%string] ["x"%string]
  = Ok [(Some "aaaa"%string, None); (Some "b"%string, Some "x"%string)]
  /\ shortest_path 2 (initial_matrix ["aaaa"%string; "b"%string] ["x"%string])
     = Ok [mkPoint 1 0; mkPoint 3 1]
  /\ sum (map (fun p =>
                 weight (node_at
                           (initial_matrix ["aaaa"%string; "b"%string]
                              ["x"%string])
                           (px p) (py p)))
          [mkPoint 1 0; mkPoint 3 1]) = 4
  /\ map (pair_at ["aaaa"%string; "b"%string] ["x"%string])
       [mkPoint 1 1; mkPoint 3 2]
     = [(Some "aaaa"%string, Some "x"%string); (Some "b"%string, None)]
  /\ sum (map (fun p =>
                 weight (node_at
                           (initial_matrix ["aaaa"%string; "b"%string]
                              ["x"%string])
                           (px p) (py p)))
          [mkPoint 1 1; mkPoint 3 2]) = 1.
Proof. repeat split; vm_compute; reflexivity. Qed.

(** ** The choice of the exit (C6, C7) *)

Lemma last_rev_cons {A : Type} (a d : A) (l : list A) :
  last (rev (a :: l)) d = a.
Proof. cbn [rev]. apply last_last. Qed.

(** C6.  Once every edge is relaxed, [shortest_path] ends its path on the
    delete-last node [(2m-1, 2n)] only if the relaxed weight of that node is
    strictly less than those of the two other exits; otherwise on the
    insert-last node [(2m, 2n-1)] only if its relaxed weight is strictly less
    than that of the substitute-last node; otherwise, ties included, on the
    substitute-last node [(2m-1, 2n-1)].  For one line on each side the
    substitute-last node is the exit, whatever the two lines cost: the output
    is the one pair of the two lines. *)
Theorem exit_tie_break :
  (forall (lines_b lines_a : list string) (fuel : nat),
     lines_b <> [] -> lines_a <> [] ->
     (List.length lines_b + List.length lines_a <= fuel)%nat ->
     exists self path,
       relax_all (initial_matrix lines_b lines_a) = Ok self
       /\ shortest_path fuel (initial_matrix lines_b lines_a) = Ok path
       /\ let m := Z.of_nat (List.length lines_b) in
          let n := Z.of_nat (List.length lines_a) in
          let delete_last := relax_weight (node_at self (2 * m - 1) (2 * n)) in
          let insert_last := relax_weight (node_at self (2 * m) (2 * n - 1)) in
          let substitute_last :=
            relax_weight (node_at self (2 * m - 1) (2 * n - 1)) in
          last path (mkPoint 0 0) =
            if num_lt delete_last insert_last
               && num_lt delete_last substitute_last
            then mkPoint (2 * m - 1) (2 * n)
            else if num_lt insert_last substitute_last
            then mkPoint (2 * m) (2 * n - 1)
            else mkPoint (2 * m - 1) (2 * n - 1))
  /\ (forall ndiff (fuel : nat) (line_b line_a : string),
        align ndiff (S fuel) [line_b] [line_a]
        = Ok [(Some line_b, Some line_a)]).
Proof.
  assert (G : forall (lines_b lines_a : list string),
     lines_b <> [] -> lines_a <> [] ->
     exists self l,
       relax_all (initial_matrix lines_b lines_a) = Ok self
       /\ solved lines_b lines_a self
       /\ trail (id (exit_of self) :: l)
            (2 * Z.of_nat (List.length lines_b)) (2 * Z.of_nat (List.length lines_a))
       /\ (forall fuel, (List.length l < fuel)%nat ->
             shortest_path fuel (initial_matrix lines_b lines_a)
             = Ok (rev (id (exit_of self) :: l)))
       /\ let m := Z.of_nat (List.length lines_b) in
          let n := Z.of_nat (List.length lines_a) in
          let delete_last := relax_weight (node_at self (2 * m - 1) (2 * n)) in
          let insert_last := relax_weight (node_at self (2 * m) (2 * n - 1)) in
          let substitute_last :=
            relax_weight (node_at self (2 * m - 1) (2 * n - 1)) in
          id (exit_of self) =
            if num_lt delete_last insert_last
               && num_lt delete_last substitute_last
            then mkPoint (2 * m - 1) (2 * n)
            else if num_lt insert_last substitute_last
            then mkPoint (2 * m) (2 * n - 1)
            else mkPoint (2 * m - 1) (2 * n - 1)).
  { intros lines_b lines_a Hb Ha.
    destruct (shortest_path_trail lines_b lines_a Hb Ha)
      as [self [l [R [Sv [T [K W]]]]]].
    pose proof (lines_positive lines_b lines_a Hb Ha) as [Hm Hn].
    exists self, l. split; [exact R|]. split; [exact Sv|]. split; [exact T|].
    split; [exact W|]. cbv zeta.
    unfold exit_of.
    rewrite (shape_x_len _ _ _ (proj1 Sv)), (shape_y_len _ _ _ (proj1 Sv)).
    replace (Z.of_nat (List.length lines_b) * 2 + 1 - 2)
      with (2 * Z.of_nat (List.length lines_b) - 1) by lia.
    replace (Z.of_nat (List.length lines_b) * 2 + 1 - 1)
      with (2 * Z.of_nat (List.length lines_b)) by lia.
    replace (Z.of_nat (List.length lines_a) * 2 + 1 - 2)
      with (2 * Z.of_nat (List.length lines_a) - 1) by lia.
    replace (Z.of_nat (List.length lines_a) * 2 + 1 - 1)
      with (2 * Z.of_nat (List.length lines_a)) by lia.
    unfold choose_exit.
    destruct (_ && _); [|destruct (num_lt _ _)];
      apply (solved_id lines_b lines_a self Sv); lia. }
  split.
  - intros lines_b lines_a fuel Hb Ha Hf.
    destruct (G lines_b lines_a Hb Ha) as [self [l [R [_ [T [P E]]]]]].
    pose proof (trail_bounds _ _ _ T) as B. cbn [List.length] in B.
    exists self, (rev (id (exit_of self) :: l)).
    split; [exact R|]. split; [apply P; lia|]. cbv zeta in *.
    rewrite last_rev_cons. exact E.
  - intros ndiff fuel line_b line_a.
    destruct (G [line_b] [line_a]) as [self [l [R [Sv [T [P E]]]]]];
      try discriminate.
    cbv zeta in E. cbn [List.length] in E, T.
    change (2 * Z.of_nat 1 - 1) with 1 in E. change (2 * Z.of_nat 1) with 2 in *.
    assert (E0 : relax_weight (node_at self 1 1) = Int 0).
    { rewrite (solved_root [line_b] [line_a] self Sv);
        try reflexivity; simpl List.length; lia. }
    destruct (solved_dist [line_b] [line_a] self Sv 1 2) as [E1 N1];
      try reflexivity; try (simpl List.length; lia).
    destruct (solved_dist [line_b] [line_a] self Sv 2 1) as [E2 N2];
      try reflexivity; try (simpl List.length; lia).
    rewrite E0, E1, E2, !num_lt_int in E.
    assert (I : id (exit_of self) = mkPoint 1 1).
    { rewrite E. destruct (Z.ltb_spec (dist self 1 2) 0); [lia|].
      destruct (Z.ltb_spec (dist self 2 1) 0); [lia|].
      rewrite andb_false_r. reflexivity. }
    rewrite I in *.
    assert (L : l = []).
    { inversion T as [|p l' Hx Hy Hp Ht]; subst.
      apply trail_bounds in Ht. cbn [px py] in Ht.
      destruct l; [reflexivity|]. cbn [List.length] in Ht. lia. }
    subst l. unfold align. rewrite AlignmentMatrix_init_ok. cbn [bind].
    rewrite P by (simpl; lia). reflexivity.
Qed.

Lemma exit_tie_break_witness :
  ["x"%string; "p"%string] <> [] /\ ["y"%string] <> []
  /\ (List.length ["x"%string; "p"%string] + List.length ["y"%string] <= 3)%nat
  /\ exists self path,
       relax_all (initial_matrix ["x"%string; "p"%string] ["y"%string]) = Ok self
       /\ shortest_path 3 (initial_matrix ["x"%string; "p"%string] ["y"%string])
          = Ok path
       /\ let m := Z.of_nat (List.length ["x"%string; "p"%string]) in
          let n := Z.of_nat (List.length ["y"%string]) in
          let delete_last := relax_weight (node_at self (2 * m - 1) (2 * n)) in
          let insert_last := relax_weight (node_at self (2 * m) (2 * n - 1)) in
          let substitute_last :=
            relax_weight (node_at self (2 * m - 1) (2 * n - 1)) in
          last path (mkPoint 0 0) =
            if num_lt delete_last insert_last
               && num_lt delete_last substitute_last
            then mkPoint (2 * m - 1) (2 * n)
            else if num_lt insert_last substitute_last
            then mkPoint (2 * m) (2 * n - 1)
            else mkPoint (2 * m - 1) (2 * n - 1).
Proof.
  split; [discriminate|]. split; [discriminate|]. split; [simpl; lia|].
  apply (proj1 exit_tie_break); [discriminate|discriminate|simpl; lia].
Defined.

(** C7.  [align(["foo", "bar"], ["foo", "baz"])] returns
    [[("foo", "foo"), ("bar", "baz")]]. *)
Theorem align_foo_bar (ndiff : string -> string -> list (ascii * string))
    (fuel : nat) :
  align ndiff (2 + fuel) ["foo"%string; "bar"%string] ["foo"%string; "baz"%string]
  = Ok [(Some "foo"%string, Some "foo"%string);
        (Some "bar"%string, Some "baz"%string)].
Proof.
  unfold align. rewrite AlignmentMatrix_init_ok. cbn [bind].
  assert (P : shortest_path 2
                (initial_matrix ["foo"%string; "bar"%string]
                                ["foo"%string; "baz"%string])
              = Ok [mkPoint 1 1; mkPoint 3 3]) by (vm_compute; reflexivity).
  rewrite (shortest_path_more_fuel _ 2 (2 + fuel) _ P) by lia.
  reflexivity.
Qed.

(** ** Coverage (C3) *)

(** [out] pairs every line of [lines_b] and every line of [lines_a] exactly
    once: it decodes a list of points among which each index of [lines_b]
    and each index of [lines_a] occurs once (here, in increasing order), and
    none of its pairs is empty. *)
Definition pairs_each_line_once (lines_b lines_a : list string)
    (out : list (option string * option string)) : Prop :=
  exists path,
    out = map (pair_at lines_b lines_a) path
    /\ present (map before_index path) = range (Z.of_nat (List.length lines_b))
    /\ present (map after_index path) = range (Z.of_nat (List.length lines_a))
    /\ present (map fst out) = lines_b
    /\ present (map snd out) = lines_a
    /\ forall pr, In pr out -> pr <> (None, None).

Lemma trail_pairs_each_line_once (lines_b lines_a : list string)
    (l : list Point) :
  trail l (2 * Z.of_nat (List.length lines_b)) (2 * Z.of_nat (List.length lines_a)) ->
  pairs_each_line_once lines_b lines_a (map (pair_at lines_b lines_a) (rev l)).
Proof.
  intros T.
  destruct (trail_decode lines_b lines_a _ _ _ T)
    as [_ [I2 [I3 [I4 [I5 I6]]]]]; try lia.
  exists (rev l). split; [reflexivity|].
  split. { rewrite I2. f_equal. lia. }
  split. { rewrite I3. f_equal. lia. }
  split. { rewrite I4. apply firstn_length_all. reflexivity. }
  split. { rewrite I5. apply firstn_length_all. reflexivity. }
  intros pr Hin. apply in_map_iff in Hin. destruct Hin as [p [<- Hin]].
  apply pair_at_present. apply I6. apply in_rev. exact Hin.
Qed.

(** For every input with at least one line on each side, [align] returns an
    output in which every index of [lines_b] and every index of [lines_a]
    appears in exactly one pair, and every pair has a side present. *)
Lemma align_covers (ndiff : string -> string -> list (ascii * string))
    (fuel : nat) (lines_b lines_a : list string) :
  lines_b <> [] -> lines_a <> [] ->
  (List.length lines_b + List.length lines_a <= fuel)%nat ->
  exists out,
    align ndiff fuel lines_b lines_a = Ok out
    /\ pairs_each_line_once lines_b lines_a out.
Proof.
  intros Hb Ha Hf.
  destruct (align_complete ndiff lines_b lines_a fuel Hb Ha Hf) as [path [P A]].
  destruct (shortest_path_sound _ _ _ _ P) as [_ [_ [self [l [_ [_ [T [_ ->]]]]]]]].
  eexists. split; [exact A|]. apply trail_pairs_each_line_once. exact T.
Qed.

(** C3.  The specification has every line of both sides appear in exactly
    one pair of the output for every valid input, that is unless both sides
    are empty.  The code gives such an output exactly when both sides have a
    line: with one side empty, a valid input, [align] raises [IndexError]
    (the slip of [root_adjacency], which names nodes that do not exist),
    there is no output, and no line of the other side appears in any
    pair. *)
Theorem align_covers_only_with_both_sides
    (ndiff : string -> string -> list (ascii * string))
    (fuel : nat) (lines_b lines_a : list string) :
  (List.length lines_b + List.length lines_a <= fuel)%nat ->
  ((exists out,
      align ndiff fuel lines_b lines_a = Ok out
      /\ pairs_each_line_once lines_b lines_a out)
   <-> lines_b <> [] /\ lines_a <> [])
  /\ (lines_b = [] \/ lines_a = [] ->
      align ndiff fuel lines_b lines_a = IndexError).
Proof.
  intros Hf. split; [split|].
  - intros [out [A _]]. destruct (align_sound _ _ _ _ _ A) as [path [P _]].
    destruct (shortest_path_sound _ _ _ _ P) as [Hb [Ha _]]. auto.
  - intros [Hb Ha]. apply align_covers; assumption.
  - intros H. apply align_empty_side. exact H.
Qed.

Lemma align_covers_only_with_both_sides_witness :
  (List.length (@nil string) + List.length ["x"%string] <= 1)%nat
  /\ (((exists out,
          align no_delta 1 [] ["x"%string] = Ok out
          /\ pairs_each_line_once [] ["x"%string] out)
       <-> @nil string <> [] /\ ["x"%string] <> [])
      /\ (@nil string = [] \/ ["x"%string] = [] ->
          align no_delta 1 [] ["x"%string] = IndexError)).
Proof.
  split; [simpl; lia|].
  apply align_covers_only_with_both_sides. simpl. lia.
Defined.

(** ** The cost of the chosen path (C4) *)

(** What a pair costs in the words of the specification: the length of the
    line for a pair with one side, the substitution cost [D * ceil(K / 2)]
    of the two lines for a pair with both. *)
Definition spec_pair_cost (ndiff : string -> string -> list (ascii * string))
    (pr : option string * option string) : Z :=
  match pr with
  | (Some line_b, Some line_a) => spec_substitution_cost (ndiff line_b line_a)
  | (Some line_b, None) => len line_b
  | (None, Some line_a) => len line_a
  | (None, None) => 0
  end.

(** The total cost of an alignment in the words of the specification. *)
Definition spec_total_cost (ndiff : string -> string -> list (ascii * string))
    (out : list (option string * option string)) : Z :=
  sum (map (spec_pair_cost ndiff) out).

(** What [difflib.ndiff("ab", "cd")] yields: ["- a"], ["- b"], ["+ c"],
    ["+ d"]. *)
Definition delta_ab_cd : list (ascii * string) :=
  [("-"%char, " a"%string); ("-"%char, " b"%string);
   ("+"%char, " c"%string); ("+"%char, " d"%string)].

Lemma align_single_pair (ndiff : string -> string -> list (ascii * string))
    (fuel : nat) (line_b line_a : string) :
  align ndiff (S fuel) [line_b] [line_a] = Ok [(Some line_b, Some line_a)].
Proof.
  destruct (shortest_path_trail [line_b] [line_a])
    as [self [l [R [Sv [T [K W]]]]]]; try discriminate.
  cbn [List.length] in T. change (2 * Z.of_nat 1) with 2 in T.
  assert (E0 : relax_weight (node_at self 1 1) = Int 0).
  { rewrite (solved_root [line_b] [line_a] self Sv);
      try reflexivity; simpl List.length; lia. }
  destruct (solved_dist [line_b] [line_a] self Sv 1 2) as [E1 N1];
    try reflexivity; try (simpl List.length; lia).
  destruct (solved_dist [line_b] [line_a] self Sv 2 1) as [E2 N2];
    try reflexivity; try (simpl List.length; lia).
  assert (I : id (exit_of self) = mkPoint 1 1).
  { unfold exit_of.
    rewrite (shape_x_len _ _ _ (proj1 Sv)), (shape_y_len _ _ _ (proj1 Sv)).
    cbn [List.length]. change (Z.of_nat 1 * 2 + 1 - 2) with 1.
    change (Z.of_nat 1 * 2 + 1 - 1) with 2.
    unfold choose_exit. rewrite E0, E1, E2, !num_lt_int.
    destruct (Z.ltb_spec (dist self 1 2) 0); [lia|].
    destruct (Z.ltb_spec (dist self 2 1) 0); [lia|].
    rewrite andb_false_r.
    apply (solved_id [line_b] [line_a] self Sv); simpl List.length; lia. }
  rewrite I in *.
  assert (L : l = []).
  { inversion T as [|p l' Hx Hy Hp Ht]; subst.
    apply trail_bounds in Ht. cbn [px py] in Ht.
    destruct l; [reflexivity|]. cbn [List.length] in Ht. lia. }
  subst l. unfold align. rewrite AlignmentMatrix_init_ok. cbn [bind].
  rewrite W by (simpl; lia). reflexivity.
Qed.

(** C4.  The specification has the chosen path cost no more than leaving
    every line unaligned, with the substitution cost [D * ceil(K / 2)] for a
    pair of lines.  The code does not keep to this bound: every substitution
    has the weight 0 in its matrix (the generator of [difflib.ndiff] is
    summed twice), so for one line on each side it pairs the two lines
    whatever the pair costs.  Whenever the substitution cost of two lines
    exceeds the sum of their lengths, [align] on these two lines returns the
    pair, whose cost is above that of leaving both lines unaligned, although
    the alignment that leaves them unaligned costs just that.  So it is for
    ["ab"] and ["cd"]: [D = 4], [K = 4], the pair costs 8 and the two lines
    unaligned cost 4. *)
Theorem align_cost_exceeds_unaligned
    (ndiff : string -> string -> list (ascii * string)) (fuel : nat)
    (line_b line_a : string) :
  len line_b + len line_a < spec_substitution_cost (ndiff line_b line_a) ->
  exists out,
    align ndiff (S fuel) [line_b] [line_a] = Ok out
    /\ out = [(Some line_b, Some line_a)]
    /\ spec_total_cost ndiff out = spec_substitution_cost (ndiff line_b line_a)
    /\ unaligned_cost [line_b] [line_a] < spec_total_cost ndiff out
    /\ spec_total_cost ndiff [(Some line_b, None); (None, Some line_a)]
       = unaligned_cost [line_b] [line_a]
    /\ substitution_weight ndiff line_b line_a = 0.
Proof.
  intros H. exists [(Some line_b, Some line_a)].
  split; [apply align_single_pair|]. split; [reflexivity|].
  unfold spec_total_cost, unaligned_cost. cbn [map sum spec_pair_cost].
  split; [lia|]. split; [lia|]. split; [lia|].
  apply substitution_weight_zero.
Qed.

Lemma align_cost_exceeds_unaligned_witness :
  len "ab" + len "cd"
  < spec_substitution_cost ((fun _ _ => delta_ab_cd) "ab"%string "cd"%string)
  /\ exists out,
       align (fun _ _ => delta_ab_cd) 1 ["ab"%string] ["cd"%string] = Ok out
       /\ out = [(Some "ab"%string, Some "cd"%string)]
       /\ spec_total_cost (fun _ _ => delta_ab_cd) out
          = spec_substitution_cost
              ((fun _ _ => delta_ab_cd) "ab"%string "cd"%string)
       /\ unaligned_cost ["ab"%string] ["cd"%string]
          < spec_total_cost (fun _ _ => delta_ab_cd) out
       /\ spec_total_cost (fun _ _ => delta_ab_cd)
            [(Some "ab"%string, None); (None, Some "cd"%string)]
          = unaligned_cost ["ab"%string] ["cd"%string]
       /\ substitution_weight (fun _ _ => delta_ab_cd) "ab" "cd" = 0.
Proof.
  assert (H : len "ab" + len "cd"
              < spec_substitution_cost
                  ((fun _ _ => delta_ab_cd) "ab"%string "cd"%string))
    by (vm_compute; reflexivity).
  split; [exact H|].
  exact (align_cost_exceeds_unaligned (fun _ _ => delta_ab_cd) 0 "ab" "cd" H).
Defined.

(** ** Swapping the two sequences (C8) *)

(** C8.  Swapping the two input sequences swaps the two sides of every pair
    of the output and changes nothing else: the two calls end alike, and
    when [align] returns pairs, the swapped call returns the swapped pairs,
    in the same order -- hence the same set of pairings. *)
Theorem align_swap (ndiff : string -> string -> list (ascii * string))
    (fuel : nat) (lines_b lines_a : list string) :
  align ndiff fuel lines_a lines_b
  = result_map (map swap_pair) (align ndiff fuel lines_b lines_a)
  /\ (forall out,
        align ndiff fuel lines_b lines_a = Ok out ->
        exists out',
          align ndiff fuel lines_a lines_b = Ok out'
          /\ forall before after, In (before, after) out <-> In (after, before) out').
Proof.
  pose proof (align_mirror ndiff fuel lines_b lines_a) as M.
  split; [exact M|]. intros out A. rewrite A in M. cbn in M.
  exists (map swap_pair out). split; [exact M|].
  intros before after. rewrite in_map_iff. split.
  - intros H. exists (before, after). split; [reflexivity|exact H].
  - intros [[b a] [E H]]. unfold swap_pair in E. cbn in E.
    inversion E; subst. exact H.
Qed.

Lemma align_swap_witness :
  align no_delta 3 ["p"%string; "qq"%string; "r"%string] ["y"%string]
  = Ok [(Some "p"%string, None); (Some "qq"%string, Some "y"%string);
        (Some "r"%string, None)]
  /\ exists out',
       align no_delta 3 ["y"%string] ["p"%string; "qq"%string; "r"%string] = Ok out'
       /\ forall before after,
            In (before, after)
              [(Some "p"%string, None); (Some "qq"%string, Some "y"%string);
               (Some "r"%string, None)]
            <-> In (after, before) out'.
Proof.
  split; [vm_compute; reflexivity|].
  apply (proj2 (align_swap no_delta 3
                  ["p"%string; "qq"%string; "r"%string] ["y"%string])).
  vm_compute. reflexivity.
Defined.

(** ** The walk back terminates (C10) *)

(** C10.  For every input with at least one line on each side, the walk back
    from the chosen exit stops: the exit, its parent, the parent of its
    parent and so on are at most [m + n] nodes, the parent of the last one
    is the origin, no two of them land on the same consumption state, and
    with that much fuel the loop of [walk_path] returns them, first move
    first. *)
Theorem walk_path_terminates (lines_b lines_a : list string) :
  lines_b <> [] -> lines_a <> [] ->
  exists self l,
    relax_all (initial_matrix lines_b lines_a) = Ok self
    /\ linked self (id (exit_of self) :: l)
    /\ (List.length (id (exit_of self) :: l)
        <= List.length lines_b + List.length lines_a)%nat
    /\ NoDup (map state_after (id (exit_of self) :: l))
    /\ forall fuel,
         (List.length lines_b + List.length lines_a <= fuel)%nat ->
         walk_path fuel self (exit_of self) = Ok (rev (id (exit_of self) :: l))
         /\ shortest_path fuel (initial_matrix lines_b lines_a)
            = Ok (rev (id (exit_of self) :: l)).
Proof.
  intros Hb Ha.
  destruct (relax_all_solved lines_b lines_a Hb Ha) as [self [R Sv]].
  destruct (exit_walk lines_b lines_a self Hb Ha Sv) as [l [T [K W]]].
  pose proof (trail_bounds _ _ _ T) as B.
  destruct (trail_states _ _ _ T) as [_ N].
  exists self, l. split; [exact R|]. split; [exact K|].
  split; [lia|]. split; [exact N|].
  intros fuel Hf. cbn [List.length] in B.
  assert (Wf : walk_path fuel self (exit_of self)
               = Ok (rev (id (exit_of self) :: l))) by (apply W; lia).
  split; [exact Wf|].
  rewrite (shortest_path_walk lines_b lines_a self fuel Hb Ha R Sv). exact Wf.
Qed.

Lemma walk_path_terminates_witness :
  ["foo"%string; "bar"%string] <> [] /\ ["foo"%string; "baz"%string] <> []
  /\ exists self l,
       relax_all (initial_matrix ["foo"%string; "bar"%string]
                                 ["foo"%string; "baz"%string]) = Ok self
       /\ linked self (id (exit_of self) :: l)
       /\ (List.length (id (exit_of self) :: l)
           <= List.length ["foo"%string; "bar"%string]
              + List.length ["foo"%string; "baz"%string])%nat
       /\ NoDup (map state_after (id (exit_of self) :: l))
       /\ forall fuel,
            (List.length ["foo"%string; "bar"%string]
             + List.length ["foo"%string; "baz"%string] <= fuel)%nat ->
            walk_path fuel self (exit_of self) = Ok (rev (id (exit_of self) :: l))
            /\ shortest_path fuel (initial_matrix ["foo"%string; "bar"%string]
                                                  ["foo"%string; "baz"%string])
               = Ok (rev (id (exit_of self) :: l)).
Proof.
  split; [discriminate|]. split; [discriminate|].
  apply walk_path_terminates; discriminate.
Defined.

(** * Further properties of the alignment *)

(** ** What the relaxed weights measure *)

(** The weight charged for the moves [l] (last move first): every move but
    the first one, which the initialisation of the nodes next to the root
    leaves free of charge. *)
Fixpoint charge (lines_b lines_a : list string) (l : list Point) : Z :=
  match l with
  | [] => 0
  | p :: rest =>
      match rest with
      | [] => 0
      | _ :: _ => weight_at lines_b lines_a (px p) (py p)
                  + charge lines_b lines_a rest
      end
  end.

Lemma trail_nil_inv (X Y : Z) : trail [] X Y -> X = 0 /\ Y = 0.
Proof. intros T. inversion T. auto. Qed.

Lemma trail_cons_inv (p : Point) (l : list Point) (X Y : Z) :
  trail (p :: l) X Y ->
  0 <= px p /\ 0 <= py p /\ placeholder (px p) (py p) = false
  /\ X = px p + px p mod 2 /\ Y = py p + py p mod 2
  /\ trail l (px p - px p mod 2) (py p - py p mod 2).
Proof. intros T. inversion T; subst. auto 10. Qed.

Section Optimal.

Variables lines_b lines_a : list string.
Variable self : AlignmentMatrix.

Let xl : Z := Z.of_nat (List.length lines_b) * 2 + 1.
Let yl : Z := Z.of_nat (List.length lines_a) * 2 + 1.

Hypothesis Hsolved : solved lines_b lines_a self.

(** No edge can be relaxed any further. *)
Lemma solved_edge (x y : Z) (c : Point) :
  0 <= x < xl -> 0 <= y < yl -> placeholder x y = false ->
  In c (preds x y) ->
  dist self x y <= dist self (px c) (py c) + weight_at lines_b lines_a x y.
Proof.
  intros Hx Hy Hp Hc.
  destruct (preds_cases x y) as [[? [? E]]|[[? [? E]]|[[? [? E]]|[? [? E]]]]];
    try lia; auto; rewrite E in Hc.
  - destruct Hc.
  - unfold dist at 1.
    rewrite (solved_three lines_b lines_a self Hsolved) by assumption.
    cbn [relax_weight].
    destruct Hc as [<-|[<-|[<-|[]]]]; cbn [px py]; lia.
  - unfold dist at 1.
    rewrite (solved_delete lines_b lines_a self Hsolved) by assumption.
    cbn [relax_weight]. destruct Hc as [<-|[]]; cbn [px py]; lia.
  - unfold dist at 1.
    rewrite (solved_insert lines_b lines_a self Hsolved) by assumption.
    cbn [relax_weight]. destruct Hc as [<-|[]]; cbn [px py]; lia.
Qed.

(** The relaxed weight of a node is its weight added to the relaxed weight
    of its parent. *)
Lemma solved_parent_dist (x y : Z) :
  0 <= x < xl -> 0 <= y < yl -> placeholder x y = false ->
  ~ (x <= 1 /\ y <= 1) ->
  dist self x y
  = dist self (px (relax_parent (node_at self x y)))
              (py (relax_parent (node_at self x y)))
    + weight_at lines_b lines_a x y.
Proof.
  intros Hx Hy Hp Hr.
  destruct (preds_cases x y) as [[? [? E]]|[[? [? E]]|[[? [? E]]|[? [? E]]]]];
    try lia; auto.
  - unfold dist at 1.
    rewrite (solved_three lines_b lines_a self Hsolved) by assumption.
    cbn [relax_weight relax_parent]. unfold pick3.
    zbool; cbn [px py]; lia.
  - unfold dist at 1.
    rewrite (solved_delete lines_b lines_a self Hsolved) by assumption.
    reflexivity.
  - unfold dist at 1.
    rewrite (solved_insert lines_b lines_a self Hsolved) by assumption.
    reflexivity.
Qed.

(** The nodes that land where [(x, y)] starts are the nodes [(x, y)] is
    adjacent to. *)
Lemma lands_preds (x y : Z) (c : Point) :
  0 <= px c -> 0 <= py c -> placeholder (px c) (py c) = false ->
  px c + px c mod 2 = x - x mod 2 -> py c + py c mod 2 = y - y mod 2 ->
  In c (preds x y).
Proof.
  destruct c as [cx cy]. cbn [px py]. unfold placeholder, preds.
  intros Hx Hy Hp Lx Ly.
  destruct (Z.eq_dec (cx mod 2) 0); destruct (Z.eq_dec (cy mod 2) 0);
    revert Hp;
  zbool; intros Hp; try discriminate; simpl;
    first [ left; f_equal; lia
          | right; left; f_equal; lia
          | right; right; left; f_equal; lia
          | exfalso; lia ].
Qed.

(** The relaxed weight of a node is at most the charge of any trail that
    ends with it. *)
Lemma dist_le_charge (l : list Point) :
  forall p,
    trail (p :: l) (px p + px p mod 2) (py p + py p mod 2) ->
    px p < xl -> py p < yl ->
    dist self (px p) (py p) <= charge lines_b lines_a (p :: l).
Proof.
  induction l as [|q l IH]; intros p T Hx Hy;
    destruct (trail_cons_inv _ _ _ _ T) as [Px [Py [Pp [_ [_ Tl]]]]].
  - destruct (trail_nil_inv _ _ Tl) as [Bx By].
    rewrite (solved_dist_root lines_b lines_a self Hsolved); try lia; auto.
    simpl. lia.
  - destruct (trail_cons_inv _ _ _ _ Tl) as [Qx [Qy [Qp [E1 [E2 Tq]]]]].
    assert (Hin : In q (preds (px p) (py p)))
      by (apply lands_preds; auto; lia).
    pose proof (preds_nonneg _ _ _ Px Py Hin) as [Bx [By _]].
    pose proof (solved_edge (px p) (py p) q ltac:(lia) ltac:(lia) Pp Hin) as Hedge.
    assert (Tq' : trail (q :: l) (px q + px q mod 2) (py q + py q mod 2)).
    { rewrite <- E1, <- E2. exact Tl. }
    pose proof (IH q Tq' ltac:(lia) ltac:(lia)) as Hq.
    change (charge lines_b lines_a (p :: q :: l))
      with (weight_at lines_b lines_a (px p) (py p)
            + charge lines_b lines_a (q :: l)).
    lia.
Qed.

(** Along the parents of a node the charge is the relaxed weight. *)
Lemma dist_eq_charge (l : list Point) :
  forall p,
    trail (p :: l) (px p + px p mod 2) (py p + py p mod 2) ->
    linked self (p :: l) ->
    px p < xl -> py p < yl ->
    dist self (px p) (py p) = charge lines_b lines_a (p :: l).
Proof.
  induction l as [|q l IH]; intros p T K Hx Hy;
    destruct (trail_cons_inv _ _ _ _ T) as [Px [Py [Pp [_ [_ Tl]]]]].
  - destruct (trail_nil_inv _ _ Tl) as [Bx By].
    rewrite (solved_dist_root lines_b lines_a self Hsolved); try lia; auto.
  - destruct (trail_cons_inv _ _ _ _ Tl) as [Qx [Qy [Qp [E1 [E2 Tq]]]]].
    assert (Kp : relax_parent (node_at self (px p) (py p)) = q
                 /\ linked self (q :: l)) by (inversion K; auto).
    destruct Kp as [Kp Kq].
    assert (Tq' : trail (q :: l) (px q + px q mod 2) (py q + py q mod 2)).
    { rewrite <- E1, <- E2. exact Tl. }
    assert (Hin : In q (preds (px p) (py p)))
      by (apply lands_preds; auto; lia).
    pose proof (preds_nonneg _ _ _ Px Py Hin) as [Bx [By _]].
    pose proof (IH q Tq' Kq ltac:(lia) ltac:(lia)) as Hq.
    change (charge lines_b lines_a (p :: q :: l))
      with (weight_at lines_b lines_a (px p) (py p)
            + charge lines_b lines_a (q :: l)).
    rewrite solved_parent_dist; try lia; auto.
    + rewrite Kp. lia.
    + unfold placeholder in Qp. revert Qp.
      zbool; intros; try discriminate; lia.
Qed.

End Optimal.

Lemma exit_of_least (lines_b lines_a : list string) (self : AlignmentMatrix)
    (p : Point) :
  lines_b <> [] -> lines_a <> [] ->
  solved lines_b lines_a self ->
  0 <= px p -> 0 <= py p -> placeholder (px p) (py p) = false ->
  px p + px p mod 2 = 2 * Z.of_nat (List.length lines_b) ->
  py p + py p mod 2 = 2 * Z.of_nat (List.length lines_a) ->
  dist self (px (id (exit_of self))) (py (id (exit_of self)))
  <= dist self (px p) (py p).
Proof.
  intros Hb Ha Sv Hx Hy Hp Lx Ly.
  pose proof (lines_positive lines_b lines_a Hb Ha) as [Hm Hn].
  set (m := Z.of_nat (List.length lines_b)) in *.
  set (n := Z.of_nat (List.length lines_a)) in *.
  assert (Px : placeholder (2 * m - 1) (2 * n) = false)
    by (unfold placeholder; zbool; reflexivity).
  assert (Py : placeholder (2 * m) (2 * n - 1) = false)
    by (unfold placeholder; zbool; reflexivity).
  assert (Pxy : placeholder (2 * m - 1) (2 * n - 1) = false)
    by (unfold placeholder; zbool; reflexivity).
  destruct (solved_dist lines_b lines_a self Sv (2 * m - 1) (2 * n))
    as [Ex _]; try (fold m; fold n; lia); auto.
  destruct (solved_dist lines_b lines_a self Sv (2 * m) (2 * n - 1))
    as [Ey _]; try (fold m; fold n; lia); auto.
  destruct (solved_dist lines_b lines_a self Sv (2 * m - 1) (2 * n - 1))
    as [Exy _]; try (fold m; fold n; lia); auto.
  assert (I : forall x y, 0 <= x < m * 2 + 1 -> 0 <= y < n * 2 + 1 ->
              id (node_at self x y) = mkPoint x y)
    by (intros; apply (solved_id lines_b lines_a self Sv); assumption).
  assert (C : (px p = 2 * m - 1 /\ py p = 2 * n)
              \/ (px p = 2 * m /\ py p = 2 * n - 1)
              \/ (px p = 2 * m - 1 /\ py p = 2 * n - 1)).
  { unfold placeholder in Hp. revert Hp.
    destruct (Z.eq_dec (px p mod 2) 0); destruct (Z.eq_dec (py p mod 2) 0);
      zbool; intros; try discriminate; lia. }
  unfold exit_of.
  rewrite (shape_x_len _ _ _ (proj1 Sv)), (shape_y_len _ _ _ (proj1 Sv)).
  fold m n.
  replace (m * 2 + 1 - 2) with (2 * m - 1) by lia.
  replace (m * 2 + 1 - 1) with (2 * m) by lia.
  replace (n * 2 + 1 - 2) with (2 * n - 1) by lia.
  replace (n * 2 + 1 - 1) with (2 * n) by lia.
  unfold choose_exit. rewrite Ex, Ey, Exy, !num_lt_int.
  destruct C as [[-> ->]|[[-> ->]|[-> ->]]];
    zbool; rewrite I by lia; cbn [px py]; lia.
Qed.

(** [shortest_path] returns a path of least charge: among all the ways of
    consuming every line, move by move, none is charged less for its moves
    after the first. *)
Theorem shortest_path_least_charge (lines_b lines_a : list string) (fuel : nat) :
  lines_b <> [] -> lines_a <> [] ->
  (List.length lines_b + List.length lines_a <= fuel)%nat ->
  exists path,
    shortest_path fuel (initial_matrix lines_b lines_a) = Ok path
    /\ trail (rev path)
         (2 * Z.of_nat (List.length lines_b)) (2 * Z.of_nat (List.length lines_a))
    /\ forall other,
         trail other
           (2 * Z.of_nat (List.length lines_b)) (2 * Z.of_nat (List.length lines_a)) ->
         charge lines_b lines_a (rev path) <= charge lines_b lines_a other.
Proof.
  intros Hb Ha Hf.
  destruct (shortest_path_trail lines_b lines_a Hb Ha)
    as [self [l [R [Sv [T [K W]]]]]].
  pose proof (trail_bounds _ _ _ T) as B. cbn [List.length] in B.
  pose proof (lines_positive lines_b lines_a Hb Ha) as [Hm Hn].
  exists (rev (id (exit_of self) :: l)).
  split; [apply W; lia|]. rewrite rev_involutive. split; [exact T|].
  intros other To.
  destruct (trail_cons_inv _ _ _ _ T) as [Ex [Ey [Ep [Lx [Ly _]]]]].
  rewrite <- (dist_eq_charge lines_b lines_a self Sv l (id (exit_of self)));
    try lia; auto; [|rewrite <- Lx, <- Ly; exact T].
  destruct other as [|p other].
  { apply trail_nil_inv in To. lia. }
  destruct (trail_cons_inv _ _ _ _ To) as [Px [Py [Pp [Mx [My _]]]]].
  pose proof (exit_of_least lines_b lines_a self p Hb Ha Sv Px Py Pp
                ltac:(lia) ltac:(lia)) as Hle.
  pose proof (dist_le_charge lines_b lines_a self Sv other p) as Hc.
  rewrite <- Mx, <- My in Hc. specialize (Hc To ltac:(lia) ltac:(lia)). lia.
Qed.

Lemma shortest_path_least_charge_witness :
  ["aaaa"%string; "b"%string] <> [] /\ ["x"%string] <> []
  /\ (List.length ["aaaa"%string; "b"%string] + List.length ["x"%string] <= 3)%nat
  /\ exists path,
       shortest_path 3 (initial_matrix ["aaaa"%string; "b"%string] ["x"%string])
       = Ok path
       /\ trail (rev path)
            (2 * Z.of_nat (List.length ["aaaa"%string; "b"%string]))
            (2 * Z.of_nat (List.length ["x"%string]))
       /\ forall other,
            trail other
              (2 * Z.of_nat (List.length ["aaaa"%string; "b"%string]))
              (2 * Z.of_nat (List.length ["x"%string])) ->
            charge ["aaaa"%string; "b"%string] ["x"%string] (rev path)
            <= charge ["aaaa"%string; "b"%string] ["x"%string] other.
Proof.
  split; [discriminate|]. split; [discriminate|]. split; [simpl; lia|].
  apply shortest_path_least_charge; [discriminate|discriminate|simpl; lia].
Defined.

(** ** As many lines on each side *)

Lemma linked_cons_inv (self : AlignmentMatrix) (p q : Point) (l : list Point) :
  linked self (p :: q :: l) ->
  relax_parent (node_at self (px p) (py p)) = q /\ linked self (q :: l).
Proof. intros K. inversion K. auto. Qed.

Section Diagonal.

Variables lines_b lines_a : list string.
Variable self : AlignmentMatrix.

Let xl : Z := Z.of_nat (List.length lines_b) * 2 + 1.
Let yl : Z := Z.of_nat (List.length lines_a) * 2 + 1.

Hypothesis Hsolved : solved lines_b lines_a self.

(** Pairing line [k] with line [k], for every [k], costs nothing. *)
Lemma solved_dist_diagonal (k : Z) :
  0 <= k -> 2 * k + 1 < xl -> 2 * k + 1 < yl ->
  dist self (2 * k + 1) (2 * k + 1) = 0.
Proof.
  apply (d_diagonal xl yl (dist self) (weight_at lines_b lines_a)).
  - unfold xl. lia.
  - unfold yl. lia.
  - intros x y _ _. apply weight_at_nonneg.
  - apply weight_at_pair.
  - apply (solved_dist_root lines_b lines_a self Hsolved).
  - apply (solved_dist_step lines_b lines_a self Hsolved).
Qed.

Lemma solved_diagonal_parent (k : Z) :
  0 <= k -> 2 * k + 1 < xl -> 2 * k + 1 < yl ->
  relax_parent (node_at self (2 * k + 1) (2 * k + 1))
  = if k =? 0 then mkPoint 0 0 else mkPoint (2 * k - 1) (2 * k - 1).
Proof.
  intros Hk Hx Hy.
  assert (P : placeholder (2 * k + 1) (2 * k + 1) = false)
    by (unfold placeholder; zbool; reflexivity).
  destruct (Z.eqb_spec k 0) as [->|Nk].
  - rewrite (solved_root lines_b lines_a self Hsolved); auto; fold xl yl; lia.
  - rewrite (solved_three lines_b lines_a self Hsolved);
      auto; fold xl yl; try lia.
    cbn [relax_parent].
    replace ((2 * k + 1) - (2 * k + 1) mod 2 - 1) with (2 * (k - 1) + 1) by lia.
    replace ((2 * k + 1) - (2 * k + 1) mod 2) with (2 * k) by lia.
    rewrite (solved_dist_diagonal (k - 1)) by lia.
    assert (P2 : placeholder (2 * (k - 1) + 1) (2 * k) = false)
      by (unfold placeholder; zbool; reflexivity).
    assert (P3 : placeholder (2 * k) (2 * (k - 1) + 1) = false)
      by (unfold placeholder; zbool; reflexivity).
    destruct (solved_dist lines_b lines_a self Hsolved
                (2 * (k - 1) + 1) (2 * k)) as [_ N2];
      try (fold xl yl; lia); auto.
    destruct (solved_dist lines_b lines_a self Hsolved
                (2 * k) (2 * (k - 1) + 1)) as [_ N3];
      try (fold xl yl; lia); auto.
    unfold pick3. zbool; try lia. f_equal; lia.
Qed.

(** Walking back from a node that pairs line [k] with line [k] only meets
    nodes that pair a line with the line of the same index. *)
Lemma linked_diagonal (l : list Point) :
  forall p X Y,
    linked self (p :: l) -> trail (p :: l) X Y ->
    px p = py p -> px p mod 2 = 1 -> px p < xl -> py p < yl ->
    forall q, In q (p :: l) -> px q = py q /\ px q mod 2 = 1.
Proof.
  induction l as [|r l IH]; intros p X Y K T E O Hx Hy q Hq.
  - destruct Hq as [<-|[]]. auto.
  - destruct Hq as [<-|Hq]; [auto|].
    destruct (linked_cons_inv _ _ _ _ K) as [Kp Kr].
    destruct (trail_cons_inv _ _ _ _ T) as [Px [_ [_ [_ [_ Tl]]]]].
    destruct (trail_cons_inv _ _ _ _ Tl) as [_ [_ [Rp _]]].
    pose proof (solved_diagonal_parent ((px p - 1) / 2)) as D.
    replace (2 * ((px p - 1) / 2) + 1) with (px p) in D by lia.
    rewrite <- E in Kp. rewrite D in Kp by lia.
    destruct (Z.eqb_spec ((px p - 1) / 2) 0) as [Z0|Z0].
    + subst r. discriminate.
    + apply (IH r _ _ Kr Tl); subst r; cbn [px py]; auto; lia.
Qed.

End Diagonal.

Lemma all_some_present {A : Type} (l : list (option A)) :
  (forall o, In o l -> o <> None) -> l = map Some (present l).
Proof.
  induction l as [|[a|] l IH]; intros H; simpl.
  - reflexivity.
  - f_equal. apply IH. intros o Ho. apply H. right. exact Ho.
  - exfalso. apply (H None); simpl; auto.
Qed.

Lemma combine_fst_snd {A B : Type} (l : list (A * B)) :
  combine (map fst l) (map snd l) = l.
Proof.
  induction l as [|[a b] l IH]; simpl; [reflexivity|]. rewrite IH. reflexivity.
Qed.

(** With as many lines before as after, [align] pairs them in order: line
    [i] before with line [i] after, whatever the lines are. *)
Theorem align_same_length (ndiff : string -> string -> list (ascii * string))
    (fuel : nat) (lines_b lines_a : list string) :
  lines_b <> [] ->
  List.length lines_b = List.length lines_a ->
  (List.length lines_b + List.length lines_a <= fuel)%nat ->
  align ndiff fuel lines_b lines_a
  = Ok (combine (map Some lines_b) (map Some lines_a)).
Proof.
  intros Hb Hlen Hf.
  assert (Ha : lines_a <> []) by (destruct lines_a, lines_b; simpl in *; congruence).
  destruct (shortest_path_trail lines_b lines_a Hb Ha)
    as [self [l [R [Sv [T [K W]]]]]].
  pose proof (trail_bounds _ _ _ T) as B. cbn [List.length] in B.
  pose proof (lines_positive lines_b lines_a Hb Ha) as [Hm Hn].
  assert (P : shortest_path fuel (initial_matrix lines_b lines_a)
              = Ok (rev (id (exit_of self) :: l))) by (apply W; lia).
  unfold align. rewrite AlignmentMatrix_init_ok. cbn [bind]. rewrite P. cbn [bind].
  destruct (trail_decode lines_b lines_a _ _ _ T) as [D [_ [_ [F [S _]]]]];
    try lia.
  rewrite D. f_equal.
  rewrite firstn_length_all in F by reflexivity.
  rewrite firstn_length_all in S by reflexivity.
  set (m := Z.of_nat (List.length lines_b)) in *.
  assert (Em : Z.of_nat (List.length lines_a) = m) by (unfold m; lia).
  (* the exit pairs the last two lines *)
  assert (Px : placeholder (2 * m - 1) (2 * m) = false)
    by (unfold placeholder; zbool; reflexivity).
  assert (Py : placeholder (2 * m) (2 * m - 1) = false)
    by (unfold placeholder; zbool; reflexivity).
  assert (Pxy : placeholder (2 * m - 1) (2 * m - 1) = false)
    by (unfold placeholder; zbool; reflexivity).
  destruct (solved_dist lines_b lines_a self Sv (2 * m - 1) (2 * m))
    as [Ex Nx]; try (fold m; rewrite ?Em; lia); auto.
  destruct (solved_dist lines_b lines_a self Sv (2 * m) (2 * m - 1))
    as [Ey Ny]; try (fold m; rewrite ?Em; lia); auto.
  destruct (solved_dist lines_b lines_a self Sv (2 * m - 1) (2 * m - 1))
    as [Exy _]; try (fold m; rewrite ?Em; lia); auto.
  pose proof (solved_dist_diagonal lines_b lines_a self Sv (m - 1)
                ltac:(lia) ltac:(fold m; lia) ltac:(rewrite Em; lia)) as Dxy.
  replace (2 * (m - 1) + 1) with (2 * m - 1) in Dxy by lia.
  assert (I : id (exit_of self) = mkPoint (2 * m - 1) (2 * m - 1)).
  { unfold exit_of.
    rewrite (shape_x_len _ _ _ (proj1 Sv)), (shape_y_len _ _ _ (proj1 Sv)).
    fold m. rewrite Em.
    replace (m * 2 + 1 - 2) with (2 * m - 1) by lia.
    replace (m * 2 + 1 - 1) with (2 * m) by lia.
    unfold choose_exit. rewrite Ex, Ey, Exy, !num_lt_int, Dxy.
    zbool; try lia;
      apply (solved_id lines_b lines_a self Sv); fold m; rewrite ?Em; lia. }
  assert (Diag : forall q, In q (rev (id (exit_of self) :: l)) ->
                 px q = py q /\ px q mod 2 = 1).
  { intros q Hq. apply (proj2 (in_rev _ _)) in Hq.
    apply (linked_diagonal lines_b lines_a self Sv l _ _ _ K T);
      auto; rewrite I; cbn [px py]; fold m; rewrite ?Em; lia. }
  set (path := rev (id (exit_of self) :: l)) in *.
  rewrite <- (combine_fst_snd (map (pair_at lines_b lines_a) path)).
  f_equal.
  - rewrite <- F at 2. apply all_some_present.
    intros o Ho. apply in_map_iff in Ho. destruct Ho as [pr [<- Hpr]].
    apply in_map_iff in Hpr. destruct Hpr as [q [<- Hq]].
    destruct (Diag q Hq) as [_ O]. unfold pair_at, before_index. cbn [fst].
    destruct (Z.eqb_spec (px q mod 2) 0); [lia|]. discriminate.
  - rewrite <- S at 2. apply all_some_present.
    intros o Ho. apply in_map_iff in Ho. destruct Ho as [pr [<- Hpr]].
    apply in_map_iff in Hpr. destruct Hpr as [q [<- Hq]].
    destruct (Diag q Hq) as [E O]. unfold pair_at, after_index. cbn [snd].
    destruct (Z.eqb_spec (py q mod 2) 0); [lia|]. discriminate.
Qed.

Lemma align_same_length_witness :
  ["foo"%string; "bar"%string] <> []
  /\ List.length ["foo"%string; "bar"%string]
     = List.length ["foo"%string; "baz"%string]
  /\ (List.length ["foo"%string; "bar"%string]
      + List.length ["foo"%string; "baz"%string] <= 4)%nat
  /\ align no_delta 4 ["foo"%string; "bar"%string] ["foo"%string; "baz"%string]
     = Ok (combine (map Some ["foo"%string; "bar"%string])
                   (map Some ["foo"%string; "baz"%string])).
Proof.
  split; [discriminate|]. split; [reflexivity|]. split; [simpl; lia|].
  apply align_same_length; [discriminate|reflexivity|simpl; lia].
Defined.

(** ** The size of the alignment *)

Lemma present_length {A : Type} (l : list (option A)) :
  (List.length (present l) <= List.length l)%nat.
Proof. induction l as [|[a|] l IH]; simpl; lia. Qed.

(** Whenever [align] returns, its output has at least as many pairs as the
    longer side has lines, and at most as many as both sides together. *)
Theorem align_length (ndiff : string -> string -> list (ascii * string))
    (fuel : nat) (lines_b lines_a : list string)
    (out : list (option string * option string)) :
  align ndiff fuel lines_b lines_a = Ok out ->
  (Nat.max (List.length lines_b) (List.length lines_a) <= List.length out
   /\ List.length out <= List.length lines_b + List.length lines_a)%nat.
Proof.
  intros H. destruct (align_sound _ _ _ _ _ H) as [path [P ->]].
  destruct (shortest_path_sound _ _ _ _ P) as [_ [_ [self [l [_ [_ [T [_ ->]]]]]]]].
  pose proof (trail_bounds _ _ _ T) as B.
  destruct (trail_decode lines_b lines_a _ _ _ T) as [_ [_ [_ [F [S _]]]]];
    try lia.
  rewrite firstn_length_all in F by reflexivity.
  rewrite firstn_length_all in S by reflexivity.
  pose proof (present_length
                (map fst (map (pair_at lines_b lines_a) (rev (id (exit_of self) :: l)))))
    as Lb.
  pose proof (present_length
                (map snd (map (pair_at lines_b lines_a) (rev (id (exit_of self) :: l)))))
    as La.
  rewrite F in Lb. rewrite S in La.
  rewrite !length_map in *. rewrite length_rev in *. lia.
Qed.

Lemma align_length_witness :
  align no_delta 3 ["a"%string; "bb"%string] ["c"%string]
  = Ok [(Some "a"%string, None); (Some "bb"%string, Some "c"%string)]
  /\ (Nat.max (List.length ["a"%string; "bb"%string]) (List.length ["c"%string])
      <= List.length [(Some "a"%string, None); (Some "bb"%string, Some "c"%string)]
      /\ List.length [(Some "a"%string, None); (Some "bb"%string, Some "c"%string)]
         <= List.length ["a"%string; "bb"%string] + List.length ["c"%string])%nat.
Proof.
  split; [vm_compute; reflexivity|].
  apply (align_length no_delta 3). vm_compute. reflexivity.
Defined.

(** ** The constructor *)

(** [AlignmentMatrix.__init__] never raises: it builds [2 * len(lines_b) + 1]
    rows of [2 * len(lines_a) + 1] nodes; the node at [(x, y)] has the
    identifier [(x, y)], an infinite relaxed weight, the parent [(0, 0)], and
    for its weight -1 when both coordinates are even, the length of the line
    it deletes or inserts when one is odd, and 0 when both are. *)
Theorem AlignmentMatrix_init_nodes
    (ndiff : string -> string -> list (ascii * string))
    (lines_b lines_a : list string) :
  exists self,
    AlignmentMatrix_init ndiff lines_b lines_a = Ok self
    /\ line_matrix_x_len self = Z.of_nat (List.length lines_b) * 2 + 1
    /\ line_matrix_y_len self = Z.of_nat (List.length lines_a) * 2 + 1
    /\ List.length (line_matrix self) = (2 * List.length lines_b + 1)%nat
    /\ Forall (fun row => List.length row = (2 * List.length lines_a + 1)%nat)
         (line_matrix self)
    /\ forall x y,
         0 <= x < Z.of_nat (List.length lines_b) * 2 + 1 ->
         0 <= y < Z.of_nat (List.length lines_a) * 2 + 1 ->
         get_node self x y
         = Ok (mkNode (mkPoint x y)
                 (if x mod 2 =? 0
                  then if y mod 2 =? 0 then -1
                       else len (nth (Z.to_nat (y / 2)) lines_a EmptyString)
                  else if y mod 2 =? 0
                       then len (nth (Z.to_nat (x / 2)) lines_b EmptyString)
                       else 0)
                 Inf (mkPoint 0 0)).
Proof.
  exists (initial_matrix lines_b lines_a).
  split; [apply AlignmentMatrix_init_ok|].
  split; [reflexivity|]. split; [reflexivity|].
  split; [cbn [initial_matrix line_matrix]; rewrite length_map, range_length; lia|].
  split.
  - apply Forall_forall. intros row Hrow. cbn [initial_matrix line_matrix] in Hrow.
    apply in_map_iff in Hrow. destruct Hrow as [x [<- _]].
    rewrite length_map, range_length. lia.
  - intros x y Hx Hy.
    rewrite (get_node_in_grid _ _ _ _ _ (initial_matrix_shape lines_b lines_a))
      by assumption.
    rewrite initial_matrix_node by assumption. reflexivity.
Qed.

(** ** The adjacency of a node *)

(** The adjacency of a node never goes backwards: each of the (at most
    three, distinct) points of [adjacency] has coordinates no smaller than
    the node's, comes strictly after the node in the order of the sweep, and
    has an odd coordinate. *)
Theorem adjacency_forward (self : AlignmentMatrix) (node : AlignmentNode) :
  Forall (fun p => px (id node) <= px p /\ py (id node) <= py p
                   /\ before p (id node) = true
                   /\ placeholder (px p) (py p) = false)
         (adjacency self node)
  /\ NoDup (adjacency self node)
  /\ (List.length (adjacency self node) <= 3)%nat.
Proof.
  rewrite adjacency_targets. split; [|split].
  - apply Forall_forall. intros p. unfold targets, before, placeholder.
    destruct (id node) as [x y]. cbn [px py].
    destruct (_ <? _); destruct (_ <? _); cbn [andb app]; intros Hin;
      repeat (destruct Hin as [<-|Hin];
              [cbn [px py]; repeat split; try lia; zbool; reflexivity|]);
      contradiction.
  - apply targets_NoDup.
  - unfold targets.
    destruct (_ <? _); destruct (_ <? _); cbn [andb app List.length]; lia.
Qed.

(** In a matrix of odd dimensions, as the constructor builds them, the
    adjacency of a node of the matrix only names nodes of the matrix: the
    subscripts of the sweep never raise. *)
Theorem adjacency_in_matrix (self : AlignmentMatrix) (xl yl : Z)
    (node : AlignmentNode) :
  shape self xl yl -> xl mod 2 = 1 -> yl mod 2 = 1 ->
  0 <= px (id node) < xl -> 0 <= py (id node) < yl ->
  Forall (fun p => 0 <= px p < xl /\ 0 <= py p < yl
                   /\ exists child, get_node self (px p) (py p) = Ok child)
         (adjacency self node).
Proof.
  intros Hs Hxl Hyl Hx Hy. apply Forall_forall. intros p Hp.
  rewrite adjacency_targets in Hp.
  rewrite (shape_x_len _ _ _ Hs), (shape_y_len _ _ _ Hs) in Hp.
  destruct (targets_in_grid _ _ _ _ _ Hxl Hyl Hx Hy Hp) as [Px Py].
  split; [exact Px|]. split; [exact Py|].
  exists (node_at self (px p) (py p)).
  apply (get_node_in_grid self xl yl); assumption.
Qed.

Lemma adjacency_in_matrix_witness :
  shape (initial_matrix ["a"%string] ["b"%string]) 3 3
  /\ 3 mod 2 = 1
  /\ 0 <= px (id (AlignmentNode_init 1 0 1)) < 3
  /\ 0 <= py (id (AlignmentNode_init 1 0 1)) < 3
  /\ Forall (fun p => 0 <= px p < 3 /\ 0 <= py p < 3
                      /\ exists child,
                           get_node (initial_matrix ["a"%string] ["b"%string])
                             (px p) (py p) = Ok child)
       (adjacency (initial_matrix ["a"%string] ["b"%string])
          (AlignmentNode_init 1 0 1)).
Proof.
  assert (Hs : shape (initial_matrix ["a"%string] ["b"%string]) 3 3)
    by exact (initial_matrix_shape ["a"%string] ["b"%string]).
  split; [exact Hs|]. split; [reflexivity|].
  split; [simpl; lia|]. split; [simpl; lia|].
  apply (adjacency_in_matrix _ 3 3 (AlignmentNode_init 1 0 1) Hs);
    [reflexivity|reflexivity|simpl; lia|simpl; lia].
Defined.

(** ** One step of the sweep *)

(** The body of the sweep at a node of the matrix never raises, and all it
    changes is the adjacency of the node: each adjacent node is relaxed once
    with the identifier and the relaxed weight of the node, every other node
    is left as it is. *)
Theorem relax_from_effect (self : AlignmentMatrix) (xl yl x y : Z) :
  shape self xl yl -> xl mod 2 = 1 -> yl mod 2 = 1 ->
  0 <= x < xl -> 0 <= y < yl ->
  id (node_at self x y) = mkPoint x y ->
  exists self',
    relax_from self x y = Ok self'
    /\ shape self' xl yl
    /\ forall x' y', 0 <= x' -> 0 <= y' ->
         node_at self' x' y'
         = if existsb (point_eqb (mkPoint x' y'))
                (adjacency self (node_at self x y))
           then relax (node_at self x' y') (mkPoint x y)
                  (relax_weight (node_at self x y))
           else node_at self x' y'.
Proof.
  intros Hs Hxl Hyl Hx Hy Hid. unfold relax_from.
  rewrite (get_node_in_grid self xl yl x y Hs Hx Hy). cbn [bind].
  rewrite Hid.
  destruct (foldM_update_nodes
              (fun child => relax child (mkPoint x y)
                              (relax_weight (node_at self x y)))
              xl yl (adjacency self (node_at self x y)) self Hs)
    as [self' [F [S N]]].
  - intros p Hp. rewrite adjacency_targets in Hp.
    rewrite (shape_x_len _ _ _ Hs), (shape_y_len _ _ _ Hs), Hid in Hp.
    apply (targets_in_grid xl yl x y); assumption.
  - rewrite adjacency_targets. apply targets_NoDup.
  - exists self'. split; [exact F|]. split; [exact S|]. exact N.
Qed.

Lemma relax_from_effect_witness :
  shape (initial_matrix ["a"%string] ["b"%string]) 3 3
  /\ 3 mod 2 = 1 /\ 0 <= 1 < 3 /\ 0 <= 0 < 3
  /\ id (node_at (initial_matrix ["a"%string] ["b"%string]) 1 0) = mkPoint 1 0
  /\ exists self',
       relax_from (initial_matrix ["a"%string] ["b"%string]) 1 0 = Ok self'
       /\ shape self' 3 3
       /\ forall x' y', 0 <= x' -> 0 <= y' ->
            node_at self' x' y'
            = if existsb (point_eqb (mkPoint x' y'))
                   (adjacency (initial_matrix ["a"%string] ["b"%string])
                      (node_at (initial_matrix ["a"%string] ["b"%string]) 1 0))
              then relax (node_at (initial_matrix ["a"%string] ["b"%string]) x' y')
                     (mkPoint 1 0)
                     (relax_weight
                        (node_at (initial_matrix ["a"%string] ["b"%string]) 1 0))
              else node_at (initial_matrix ["a"%string] ["b"%string]) x' y'.
Proof.
  assert (Hs : shape (initial_matrix ["a"%string] ["b"%string]) 3 3)
    by exact (initial_matrix_shape ["a"%string] ["b"%string]).
  split; [exact Hs|]. split; [reflexivity|]. split; [lia|]. split; [lia|].
  split; [reflexivity|].
  apply (relax_from_effect _ 3 3 1 0 Hs); [reflexivity|reflexivity|lia|lia|reflexivity].
Defined.

(** ** The nodes the sweep visits *)

(** The positions at which the sweep relaxes edges, in its order. *)
Definition visited (xl yl : Z) : list Point :=
  flat_map (fun x =>
    flat_map (fun y => if (Z.lor x y) mod 2 =? 0 then [] else [mkPoint x y])
      (range yl))
    (range xl).

Lemma update_node_lens (self self' : AlignmentMatrix) (x y : Z)
    (f : AlignmentNode -> AlignmentNode) :
  update_node self x y f = Ok self' ->
  line_matrix_x_len self' = line_matrix_x_len self
  /\ line_matrix_y_len self' = line_matrix_y_len self.
Proof.
  unfold update_node. destruct (getitem (line_matrix self) x); cbn [bind];
    try discriminate.
  destruct (getitem _ y); cbn [bind]; try discriminate.
  intros E. inversion E. auto.
Qed.

Lemma relax_from_lens (self self' : AlignmentMatrix) (x y : Z) :
  relax_from self x y = Ok self' ->
  line_matrix_x_len self' = line_matrix_x_len self
  /\ line_matrix_y_len self' = line_matrix_y_len self.
Proof.
  unfold relax_from. destruct (get_node self x y) as [v| |]; cbn [bind];
    try discriminate.
  generalize (adjacency self v). intros pts. revert self.
  induction pts as [|p pts IH]; intros self; cbn [foldM].
  - intros E. inversion E. auto.
  - destruct (update_node self (px p) (py p) _) as [s1| |] eqn:U; cbn [bind];
      try discriminate.
    intros F. apply IH in F. apply update_node_lens in U. lia.
Qed.

Lemma foldM_row (x : Z) (ys : list Z) :
  forall self,
    foldM (fun self y =>
             if (Z.lor x y) mod 2 =? 0 then Ok self else relax_from self x y)
          ys self
    = foldM (fun self p => relax_from self (px p) (py p))
        (flat_map (fun y => if (Z.lor x y) mod 2 =? 0 then [] else [mkPoint x y])
           ys)
        self.
Proof.
  induction ys as [|y ys IH]; intros self; [reflexivity|].
  cbn [foldM flat_map]. destruct (_ =? 0).
  - cbn [bind app]. apply IH.
  - cbn [app foldM px py]. destruct (relax_from self x y); cbn [bind]; auto.
Qed.

Lemma foldM_row_lens (x : Z) (ys : list Z) :
  forall self self',
    foldM (fun self y =>
             if (Z.lor x y) mod 2 =? 0 then Ok self else relax_from self x y)
          ys self = Ok self' ->
    line_matrix_y_len self' = line_matrix_y_len self.
Proof.
  induction ys as [|y ys IH]; intros self self'; cbn [foldM].
  - intros E. inversion E. reflexivity.
  - destruct (_ =? 0); cbn [bind].
    + apply IH.
    + destruct (relax_from self x y) as [s1| |] eqn:R; cbn [bind];
        try discriminate.
      intros F. apply IH in F. apply relax_from_lens in R. lia.
Qed.

Lemma foldM_rows (xs : list Z) :
  forall self,
    foldM (fun self x =>
             foldM (fun self y =>
                      if (Z.lor x y) mod 2 =? 0 then Ok self
                      else relax_from self x y)
                   (range (line_matrix_y_len self)) self)
          xs self
    = foldM (fun self p => relax_from self (px p) (py p))
        (flat_map (fun x =>
           flat_map (fun y => if (Z.lor x y) mod 2 =? 0 then [] else [mkPoint x y])
             (range (line_matrix_y_len self)))
           xs)
        self.
Proof.
  induction xs as [|x xs IH]; intros self; [reflexivity|].
  cbn [foldM flat_map]. rewrite foldM_app, <- foldM_row.
  destruct (foldM _ (range (line_matrix_y_len self)) self) as [s1| |] eqn:F;
    cbn [bind]; auto.
  rewrite IH. rewrite (foldM_row_lens _ _ _ _ F). reflexivity.
Qed.

Lemma row_count (x : Z) (n : nat) :
  List.length
    (flat_map (fun y => if (Z.lor x y) mod 2 =? 0 then [] else [mkPoint x y])
       (range (2 * Z.of_nat n + 1)))
  = if x mod 2 =? 0 then n else (2 * n + 1)%nat.
Proof.
  induction n as [|n IH].
  - change (range (2 * Z.of_nat 0 + 1)) with [0]. cbn [flat_map].
    rewrite app_nil_r, lor_mod2. unfold placeholder.
    change (0 mod 2 =? 0) with true. rewrite andb_true_r.
    destruct (x mod 2 =? 0); reflexivity.
  - replace (2 * Z.of_nat (S n) + 1) with (2 * Z.of_nat n + 1 + 1 + 1) by lia.
    rewrite (range_succ (2 * Z.of_nat n + 1 + 1)) by lia.
    rewrite (range_succ (2 * Z.of_nat n + 1)) by lia.
    rewrite !flat_map_app, !length_app, IH. cbn [flat_map app].
    rewrite !lor_mod2. unfold placeholder.
    replace ((2 * Z.of_nat n + 1) mod 2 =? 0) with false
      by (symmetry; apply Z.eqb_neq; lia).
    replace ((2 * Z.of_nat n + 1 + 1) mod 2 =? 0) with true
      by (symmetry; apply Z.eqb_eq; lia).
    rewrite andb_false_r, andb_true_r.
    destruct (x mod 2 =? 0); cbn [andb app Datatypes.length]; lia.
Qed.

Lemma visited_count (m n : nat) :
  List.length (visited (2 * Z.of_nat m + 1) (2 * Z.of_nat n + 1))
  = (3 * m * n + m + n)%nat.
Proof.
  unfold visited. induction m as [|m IH].
  - change (range (2 * Z.of_nat 0 + 1)) with [0]. cbn [flat_map].
    rewrite app_nil_r, row_count. reflexivity.
  - replace (2 * Z.of_nat (S m) + 1) with (2 * Z.of_nat m + 1 + 1 + 1) by lia.
    rewrite (range_succ (2 * Z.of_nat m + 1 + 1)) by lia.
    rewrite (range_succ (2 * Z.of_nat m + 1)) by lia.
    rewrite !flat_map_app, !length_app, IH. cbn [flat_map].
    rewrite !app_nil_r, !row_count.
    replace ((2 * Z.of_nat m + 1) mod 2 =? 0) with false
      by (symmetry; apply Z.eqb_neq; lia).
    replace ((2 * Z.of_nat m + 1 + 1) mod 2 =? 0) with true
      by (symmetry; apply Z.eqb_eq; lia).
    lia.
Qed.

(** The sweep relaxes the edges that leave the nodes with an odd coordinate,
    row by row, and no others; over the matrix of [m] lines before and [n]
    lines after these are [3 * m * n + m + n] nodes. *)
Theorem sweep_visits :
  (forall self,
     sweep self
     = foldM (fun self p => relax_from self (px p) (py p))
         (visited (line_matrix_x_len self) (line_matrix_y_len self)) self)
  /\ (forall xl yl p,
        In p (visited xl yl) <->
        0 <= px p < xl /\ 0 <= py p < yl /\ placeholder (px p) (py p) = false)
  /\ (forall lines_b lines_a : list string,
        List.length
          (visited (line_matrix_x_len (initial_matrix lines_b lines_a))
                   (line_matrix_y_len (initial_matrix lines_b lines_a)))
        = (3 * List.length lines_b * List.length lines_a
           + List.length lines_b + List.length lines_a)%nat).
Proof.
  split; [|split].
  - intros self. unfold sweep, visited. apply foldM_rows.
  - intros xl yl p. unfold visited. rewrite in_flat_map. split.
    + intros [x [Hx Hin]]. apply in_flat_map in Hin. destruct Hin as [y [Hy Hin]].
      apply range_In in Hx. apply range_In in Hy.
      rewrite lor_mod2 in Hin. destruct (placeholder x y) eqn:P; [destruct Hin|].
      destruct Hin as [<-|[]]. cbn [px py]. auto.
    + intros [Hx [Hy P]]. exists (px p). split; [apply range_In; exact Hx|].
      apply in_flat_map. exists (py p). split; [apply range_In; exact Hy|].
      rewrite lor_mod2, P. left. destruct p; reflexivity.
  - intros lines_b lines_a. cbn [initial_matrix line_matrix_x_len line_matrix_y_len].
    replace (Z.of_nat (List.length lines_b) * 2 + 1)
      with (2 * Z.of_nat (List.length lines_b) + 1) by lia.
    replace (Z.of_nat (List.length lines_a) * 2 + 1)
      with (2 * Z.of_nat (List.length lines_a) + 1) by lia.
    apply visited_count.
Qed.

(** ** The matrix once every edge is relaxed *)

Lemma solved_weight (lines_b lines_a : list string) (self : AlignmentMatrix)
    (x y : Z) :
  solved lines_b lines_a self ->
  0 <= x < Z.of_nat (List.length lines_b) * 2 + 1 ->
  0 <= y < Z.of_nat (List.length lines_a) * 2 + 1 ->
  weight (node_at self x y) = weight_at lines_b lines_a x y.
Proof.
  intros Sv Hx Hy. rewrite (solved_node lines_b lines_a self Sv) by assumption.
  unfold final_node. destruct (placeholder x y).
  - apply start_node_id.
  - destruct (fold_relax_id self (preds x y) (start_node lines_b lines_a x y))
      as [_ ->]. apply start_node_id.
Qed.

(** With a line on each side, the initialisation and the sweep of
    [shortest_path] never raise; they leave the dimensions of the matrix and
    the identifier and weight of every node as the constructor made them,
    never touch a node whose two coordinates are even, and give every other
    node a relaxed weight that is an integer and not negative. *)
Theorem relax_all_nodes (lines_b lines_a : list string) :
  lines_b <> [] -> lines_a <> [] ->
  exists self,
    relax_all (initial_matrix lines_b lines_a) = Ok self
    /\ line_matrix_x_len self = Z.of_nat (List.length lines_b) * 2 + 1
    /\ line_matrix_y_len self = Z.of_nat (List.length lines_a) * 2 + 1
    /\ forall x y,
         0 <= x < Z.of_nat (List.length lines_b) * 2 + 1 ->
         0 <= y < Z.of_nat (List.length lines_a) * 2 + 1 ->
         exists node,
           get_node self x y = Ok node
           /\ id node = mkPoint x y
           /\ weight node = weight (node_at (initial_matrix lines_b lines_a) x y)
           /\ if placeholder x y
              then relax_weight node = Inf /\ relax_parent node = mkPoint 0 0
              else exists z, 0 <= z /\ relax_weight node = Int z.
Proof.
  intros Hb Ha.
  destruct (relax_all_solved lines_b lines_a Hb Ha) as [self [R Sv]].
  exists self. split; [exact R|].
  split; [exact (shape_x_len _ _ _ (proj1 Sv))|].
  split; [exact (shape_y_len _ _ _ (proj1 Sv))|].
  intros x y Hx Hy. exists (node_at self x y).
  split; [apply (get_node_in_grid self _ _ x y (proj1 Sv)); assumption|].
  split; [apply (solved_id lines_b lines_a self Sv); assumption|].
  split.
  { rewrite (solved_weight lines_b lines_a self x y Sv Hx Hy).
    rewrite initial_matrix_node by assumption. reflexivity. }
  destruct (placeholder x y) eqn:P.
  - rewrite (solved_placeholder lines_b lines_a self Sv) by assumption.
    split; reflexivity.
  - apply (solved_finite lines_b lines_a self Sv); assumption.
Qed.

Lemma relax_all_nodes_witness :
  ["a"%string] <> [] /\ ["b"%string] <> []
  /\ exists self,
       relax_all (initial_matrix ["a"%string] ["b"%string]) = Ok self
       /\ line_matrix_x_len self = Z.of_nat (List.length ["a"%string]) * 2 + 1
       /\ line_matrix_y_len self = Z.of_nat (List.length ["b"%string]) * 2 + 1
       /\ forall x y,
            0 <= x < Z.of_nat (List.length ["a"%string]) * 2 + 1 ->
            0 <= y < Z.of_nat (List.length ["b"%string]) * 2 + 1 ->
            exists node,
              get_node self x y = Ok node
              /\ id node = mkPoint x y
              /\ weight node
                 = weight (node_at (initial_matrix ["a"%string] ["b"%string]) x y)
              /\ if placeholder x y
                 then relax_weight node = Inf /\ relax_parent node = mkPoint 0 0
                 else exists z, 0 <= z /\ relax_weight node = Int z.
Proof.
  split; [discriminate|]. split; [discriminate|].
  apply relax_all_nodes; discriminate.
Defined.

Lemma In_existsb_point (p : Point) (l : list Point) :
  In p l -> existsb (point_eqb p) l = true.
Proof.
  intros H. apply existsb_exists. exists p. split; [exact H|].
  destruct (point_eqb_spec p p); congruence.
Qed.

Lemma existsb_point_In (p : Point) (l : list Point) :
  existsb (point_eqb p) l = true -> In p l.
Proof.
  intros H. apply existsb_exists in H. destruct H as [q [Hq E]].
  destruct (point_eqb_spec p q); [subst; exact Hq|discriminate].
Qed.

(** Once [shortest_path] has swept the matrix no edge can be relaxed any
    further: relaxing a node again from any node it is adjacent to leaves it
    as it is. *)
Theorem relax_all_settled (lines_b lines_a : list string) :
  lines_b <> [] -> lines_a <> [] ->
  exists self,
    relax_all (initial_matrix lines_b lines_a) = Ok self
    /\ forall x y,
         0 <= x < line_matrix_x_len self -> 0 <= y < line_matrix_y_len self ->
         (Z.lor x y) mod 2 <> 0 ->
         Forall (fun adj =>
                   relax (node_at self (px adj) (py adj))
                     (id (node_at self x y)) (relax_weight (node_at self x y))
                   = node_at self (px adj) (py adj))
                (adjacency self (node_at self x y)).
Proof.
  intros Hb Ha.
  destruct (relax_all_solved lines_b lines_a Hb Ha) as [self [R Sv]].
  exists self. split; [exact R|].
  rewrite (shape_x_len _ _ _ (proj1 Sv)), (shape_y_len _ _ _ (proj1 Sv)).
  intros x y Hx Hy Hodd.
  assert (P : placeholder x y = false).
  { rewrite <- lor_mod2. apply Z.eqb_neq. exact Hodd. }
  apply Forall_forall. intros adj Hadj.
  rewrite adjacency_targets in Hadj.
  rewrite (shape_x_len _ _ _ (proj1 Sv)), (shape_y_len _ _ _ (proj1 Sv)) in Hadj.
  rewrite (solved_id lines_b lines_a self Sv x y Hx Hy) in *. cbn [px py] in Hadj.
  assert (Ax : 0 <= px adj < Z.of_nat (List.length lines_b) * 2 + 1
               /\ 0 <= py adj < Z.of_nat (List.length lines_a) * 2 + 1)
    by (apply (targets_in_grid _ _ x y adj); auto; lia).
  destruct Ax as [Ax Ay].
  pose proof (In_existsb_point _ _ Hadj) as E.
  replace adj with (mkPoint (px adj) (py adj)) in E by (destruct adj; reflexivity).
  rewrite targets_preds in E by assumption.
  apply andb_prop in E. destruct E as [Pa Ein].
  apply negb_true_iff in Pa. apply existsb_point_In in Ein.
  pose proof (solved_edge lines_b lines_a self Sv (px adj) (py adj) _ Ax Ay Pa Ein)
    as Hle. cbn [px py] in Hle.
  destruct (solved_dist lines_b lines_a self Sv x y Hx Hy P) as [Dc _].
  destruct (solved_dist lines_b lines_a self Sv (px adj) (py adj) Ax Ay Pa)
    as [Da _].
  unfold relax. rewrite Dc, Da.
  rewrite (solved_weight lines_b lines_a self (px adj) (py adj) Sv Ax Ay).
  cbn [num_add num_gt].
  destruct (Z.gtb_spec (dist self (px adj) (py adj))
              (dist self x y + weight_at lines_b lines_a (px adj) (py adj)));
    [lia|reflexivity].
Qed.

Lemma relax_all_settled_witness :
  ["a"%string] <> [] /\ ["b"%string] <> []
  /\ exists self,
       relax_all (initial_matrix ["a"%string] ["b"%string]) = Ok self
       /\ forall x y,
            0 <= x < line_matrix_x_len self -> 0 <= y < line_matrix_y_len self ->
            (Z.lor x y) mod 2 <> 0 ->
            Forall (fun adj =>
                      relax (node_at self (px adj) (py adj))
                        (id (node_at self x y)) (relax_weight (node_at self x y))
                      = node_at self (px adj) (py adj))
                   (adjacency self (node_at self x y)).
Proof.
  split; [discriminate|]. split; [discriminate|].
  apply relax_all_settled; discriminate.
Defined.

(** Once [shortest_path] has swept the matrix, every node with an odd
    coordinate other than the three next to the root is adjacent to its
    parent and owes it its relaxed weight: the relaxed weight of the parent
    with the weight of the node added. *)
Theorem relax_all_parent (lines_b lines_a : list string) :
  lines_b <> [] -> lines_a <> [] ->
  exists self,
    relax_all (initial_matrix lines_b lines_a) = Ok self
    /\ forall x y,
         0 <= x < line_matrix_x_len self -> 0 <= y < line_matrix_y_len self ->
         (Z.lor x y) mod 2 <> 0 -> ~ (x <= 1 /\ y <= 1) ->
         let parent := relax_parent (node_at self x y) in
         0 <= px parent < line_matrix_x_len self
         /\ 0 <= py parent < line_matrix_y_len self
         /\ (Z.lor (px parent) (py parent)) mod 2 <> 0
         /\ In (mkPoint x y)
              (adjacency self (node_at self (px parent) (py parent)))
         /\ relax_weight (node_at self x y)
            = num_add (relax_weight (node_at self (px parent) (py parent)))
                (weight (node_at self x y)).
Proof.
  intros Hb Ha.
  destruct (relax_all_solved lines_b lines_a Hb Ha) as [self [R Sv]].
  exists self. split; [exact R|].
  rewrite (shape_x_len _ _ _ (proj1 Sv)), (shape_y_len _ _ _ (proj1 Sv)).
  intros x y Hx Hy Hodd Hroot parent.
  assert (P : placeholder x y = false).
  { rewrite <- lor_mod2. apply Z.eqb_neq. exact Hodd. }
  destruct (solved_parent lines_b lines_a self Sv x y Hx Hy P)
    as [[? [? _]]|Hin]; [lia|]. fold parent in Hin.
  pose proof (preds_placeholder _ _ _ Hin) as Pp.
  pose proof (preds_nonneg x y parent ltac:(lia) ltac:(lia) Hin) as [Bx [By Cx]].
  split; [lia|]. split; [lia|]. split.
  { apply Z.eqb_neq. rewrite lor_mod2. exact Pp. }
  split.
  - rewrite adjacency_targets.
    rewrite (shape_x_len _ _ _ (proj1 Sv)), (shape_y_len _ _ _ (proj1 Sv)).
    rewrite (solved_id lines_b lines_a self Sv) by lia. cbn [px py].
    apply existsb_point_In. rewrite targets_preds by (auto; lia).
    rewrite P. cbn [negb andb]. apply In_existsb_point.
    destruct parent; exact Hin.
  - destruct (solved_dist lines_b lines_a self Sv x y Hx Hy P) as [Dn _].
    destruct (solved_dist lines_b lines_a self Sv (px parent) (py parent)
                ltac:(lia) ltac:(lia) Pp) as [Dp _].
    rewrite Dn, Dp. rewrite (solved_weight lines_b lines_a self x y Sv Hx Hy).
    cbn [num_add]. f_equal.
    apply (solved_parent_dist lines_b lines_a self Sv); assumption.
Qed.

Lemma relax_all_parent_witness :
  ["a"%string; "b"%string] <> [] /\ ["c"%string] <> []
  /\ exists self,
       relax_all (initial_matrix ["a"%string; "b"%string] ["c"%string]) = Ok self
       /\ forall x y,
            0 <= x < line_matrix_x_len self -> 0 <= y < line_matrix_y_len self ->
            (Z.lor x y) mod 2 <> 0 -> ~ (x <= 1 /\ y <= 1) ->
            let parent := relax_parent (node_at self x y) in
            0 <= px parent < line_matrix_x_len self
            /\ 0 <= py parent < line_matrix_y_len self
            /\ (Z.lor (px parent) (py parent)) mod 2 <> 0
            /\ In (mkPoint x y)
                 (adjacency self (node_at self (px parent) (py parent)))
            /\ relax_weight (node_at self x y)
               = num_add (relax_weight (node_at self (px parent) (py parent)))
                   (weight (node_at self x y)).
Proof.
  split; [discriminate|]. split; [discriminate|].
  apply relax_all_parent; discriminate.
Defined.

(** ** What [align] reads of the lines *)

(** Which sides of a pair are present. *)
Definition sides (pr : option string * option string) : bool * bool :=
  (match fst pr with Some _ => true | None => false end,
   match snd pr with Some _ => true | None => false end).

Lemma align_decode (ndiff : string -> string -> list (ascii * string))
    (fuel : nat) (lines_b lines_a : list string) :
  align ndiff fuel lines_b lines_a
  = result_map (map (pair_at lines_b lines_a))
      (shortest_path fuel (initial_matrix lines_b lines_a)).
Proof.
  unfold align. rewrite AlignmentMatrix_init_ok. cbn [bind].
  destruct (shortest_path fuel (initial_matrix lines_b lines_a))
    as [path| |] eqn:P; cbn [bind result_map]; auto.
  destruct (shortest_path_sound _ _ _ _ P) as [_ [_ [self [l [_ [_ [T [_ ->]]]]]]]].
  destruct (trail_decode lines_b lines_a _ _ _ T) as [D _]; try lia.
  exact D.
Qed.

Lemma weight_at_lengths (lines_b lines_a lines_b' lines_a' : list string)
    (x y : Z) :
  map len lines_b = map len lines_b' ->
  map len lines_a = map len lines_a' ->
  weight_at lines_b lines_a x y = weight_at lines_b' lines_a' x y.
Proof.
  intros Eb Ea. unfold weight_at.
  rewrite <- !(map_nth len). rewrite Eb, Ea. reflexivity.
Qed.

Lemma initial_matrix_lengths (lines_b lines_a lines_b' lines_a' : list string) :
  map len lines_b = map len lines_b' ->
  map len lines_a = map len lines_a' ->
  initial_matrix lines_b lines_a = initial_matrix lines_b' lines_a'.
Proof.
  intros Eb Ea. unfold initial_matrix.
  assert (Lb : List.length lines_b = List.length lines_b')
    by (rewrite <- (length_map len lines_b), Eb; apply length_map).
  assert (La : List.length lines_a = List.length lines_a')
    by (rewrite <- (length_map len lines_a), Ea; apply length_map).
  rewrite Lb, La. f_equal.
  apply map_ext. intros x. apply map_ext. intros y.
  rewrite (weight_at_lengths _ _ _ _ x y Eb Ea). reflexivity.
Qed.

Lemma sides_pair_at (lines_b lines_a : list string) (p : Point) :
  sides (pair_at lines_b lines_a p)
  = (negb (px p mod 2 =? 0), negb (py p mod 2 =? 0)).
Proof.
  unfold sides, pair_at, before_index, after_index. cbn [fst snd].
  destruct (px p mod 2 =? 0); destruct (py p mod 2 =? 0); reflexivity.
Qed.

(** Of the lines [align] only reads their lengths: two inputs whose lines
    have the same lengths, one by one, are aligned the same way, with the
    same positions paired, deleted and inserted (or fail the same way),
    whatever the lines hold and whatever [difflib.ndiff] makes of them. *)
Theorem align_reads_lengths
    (ndiff ndiff' : string -> string -> list (ascii * string)) (fuel : nat)
    (lines_b lines_a lines_b' lines_a' : list string) :
  map len lines_b = map len lines_b' ->
  map len lines_a = map len lines_a' ->
  result_map (map sides) (align ndiff fuel lines_b lines_a)
  = result_map (map sides) (align ndiff' fuel lines_b' lines_a').
Proof.
  intros Eb Ea. rewrite !align_decode.
  rewrite (initial_matrix_lengths _ _ _ _ Eb Ea).
  destruct (shortest_path fuel (initial_matrix lines_b' lines_a'));
    cbn [result_map]; auto.
  f_equal. rewrite !map_map. apply map_ext. intros p.
  rewrite !sides_pair_at. reflexivity.
Qed.

Lemma align_reads_lengths_witness :
  map len ["foo"%string; "bar"%string] = map len ["abc"%string; "xyz"%string]
  /\ map len ["x"%string] = map len ["y"%string]
  /\ result_map (map sides)
       (align no_delta 3 ["foo"%string; "bar"%string] ["x"%string])
     = result_map (map sides)
         (align (fun b a => [("-"%char, b); ("+"%char, a)]) 3
            ["abc"%string; "xyz"%string] ["y"%string]).
Proof.
  split; [reflexivity|]. split; [reflexivity|].
  apply align_reads_lengths; reflexivity.
Defined.

(** * The callers of [align] (mod.py) *)

(** ** Lines of a text *)

(** [s.split(sep)] for a separator [sep] of one character, as every call of
    the source has it ([sep] is the newline). *)
Fixpoint split (sep : ascii) (s : string) : list string :=
  match s with
  | EmptyString => [EmptyString]
  | String c s' =>
      if Ascii.eqb c sep then EmptyString :: split sep s'
      else match split sep s' with
           | part :: parts => String c part :: parts
           | [] => [String c EmptyString]
           end
  end.

(** [sep.join(parts)] *)
Fixpoint join (sep : string) (parts : list string) : string :=
  match parts with
  | [] => EmptyString
  | part :: rest =>
      match rest with
      | [] => part
      | _ :: _ => (part ++ sep ++ join sep rest)%string
      end
  end.

Definition newline : ascii := "010"%char.

Lemma split_nonempty (sep : ascii) (s : string) : split sep s <> [].
Proof.
  destruct s as [|c s]; simpl; [discriminate|].
  destruct (Ascii.eqb c sep); [discriminate|].
  destruct (split sep s); discriminate.
Qed.

Lemma join_split (sep : ascii) (s : string) :
  join (String sep EmptyString) (split sep s) = s.
Proof.
  induction s as [|c s IH]; [reflexivity|].
  cbn [split]. destruct (Ascii.eqb_spec c sep) as [->|N].
  - pose proof (split_nonempty sep s) as Hn.
    destruct (split sep s) as [|part parts] eqn:E; [contradiction|].
    change (join (String sep "") ("" :: part :: parts))%string
      with (String sep (join (String sep "") (part :: parts))).
    rewrite IH. reflexivity.
  - pose proof (split_nonempty sep s) as Hn.
    destruct (split sep s) as [|part parts] eqn:E; [contradiction|].
    rewrite <- IH. destruct parts; reflexivity.
Qed.

Lemma align_lines (ndiff : string -> string -> list (ascii * string))
    (fuel : nat) (lines_b lines_a : list string) :
  lines_b <> [] -> lines_a <> [] ->
  (List.length lines_b + List.length lines_a <= fuel)%nat ->
  exists out,
    align ndiff fuel lines_b lines_a = Ok out
    /\ present (map fst out) = lines_b
    /\ present (map snd out) = lines_a.
Proof.
  intros Hb Ha Hf.
  destruct (align_complete ndiff lines_b lines_a fuel Hb Ha Hf) as [path [P A]].
  destruct (shortest_path_sound _ _ _ _ P) as [_ [_ [self [l [_ [_ [T [_ ->]]]]]]]].
  destruct (trail_decode lines_b lines_a _ _ _ T) as [_ [_ [_ [F [S _]]]]];
    try lia.
  rewrite firstn_length_all in F by reflexivity.
  rewrite firstn_length_all in S by reflexivity.
  eexists. split; [exact A|]. split; assumption.
Qed.

(** * Wrapping a line (wrap.py) *)

(** ** Slices and iterators *)

(** A bound [i] of a slice of a sequence of length [n], as Python reads it:
    counted from the end when negative, then clipped to the sequence. *)
Definition slice_bound (n i : Z) : Z :=
  if i <? 0 then Z.max (i + n) 0 else Z.min i n.

(** [s[start:stop]] on a [str] *)
Definition str_slice (s : string) (start stop : Z) : string :=
  let lo := slice_bound (len s) start in
  let hi := slice_bound (len s) stop in
  substring (Z.to_nat lo) (Z.to_nat (hi - lo)) s.

(** [list(it)] for an iterator in the state [it], whose [__next__] is [next]
    ([None] stands for [StopIteration]); [fuel] bounds the number of calls. *)
Fixpoint collect {St : Type} (next : St -> option (string * St)) (fuel : nat)
    (it : St) : result (list string) :=
  match fuel with
  | O => OutOfFuel
  | S fuel' =>
      match next it with
      | None => Ok []
      | Some (chunk, it') =>
          chunks <- collect next fuel' it' ;; Ok (chunk :: chunks)
      end
  end.

(** ** class WrappedStrIter *)

Module WrappedStrIter.

Record t : Type := mk {
  s : string;
  len : Z;
  wrap_at : Z;
  cur_pos : Z;
  output_once : bool
}.

(** [WrappedStrIter.__init__] *)
Definition init (s0 : string) (wrap_at0 : Z) : t :=
  {| s := s0;
     len := Z.of_nat (String.length s0);
     wrap_at := wrap_at0;
     cur_pos := 0;
     output_once := false |}.

(** [WrappedStrIter.__next__] *)
Definition next (self : t) : option (string * t) :=
  if output_once self && (cur_pos self >=? len self) then None
  else
    let start_pos := cur_pos self in
    let cur_pos' := Z.min (cur_pos self + wrap_at self) (len self) in
    Some (str_slice (s self) start_pos cur_pos',
          {| s := s self;
             len := len self;
             wrap_at := wrap_at self;
             cur_pos := cur_pos';
             output_once := true |}).

End WrappedStrIter.

(** [wrap_str] *)
Definition wrap_str (s : string) (width : Z) : WrappedStrIter.t :=
  WrappedStrIter.init s width.

(** ** Substrings *)

Lemma substring_app (s : string) :
  forall a k1 k2 : nat,
    substring a (k1 + k2) s
    = (substring a k1 s ++ substring (a + k1) k2 s)%string.
Proof.
  induction s as [|c s IH]; intros a k1 k2.
  - destruct a, k1, k2; reflexivity.
  - destruct a as [|a].
    + destruct k1 as [|k1].
      * reflexivity.
      * cbn [Nat.add substring append]. f_equal. apply (IH 0%nat).
    + cbn [Nat.add substring]. apply IH.
Qed.

Lemma substring_length (s : string) :
  forall a k : nat,
    (a + k <= String.length s)%nat -> String.length (substring a k s) = k.
Proof.
  induction s as [|c s IH]; intros a k H; cbn [String.length] in H.
  - assert (a = 0 /\ k = 0)%nat as [-> ->] by lia. reflexivity.
  - destruct a as [|a].
    + destruct k as [|k]; [reflexivity|].
      cbn [substring String.length]. f_equal. apply IH. lia.
    + cbn [substring]. apply IH. lia.
Qed.

Lemma substring_all (s : string) : substring 0 (String.length s) s = s.
Proof.
  induction s as [|c s IH]; [reflexivity|].
  cbn [String.length substring]. rewrite IH. reflexivity.
Qed.

Lemma str_slice_inside (s : string) (p q : Z) :
  0 <= p <= q -> q <= len s ->
  str_slice s p q = substring (Z.to_nat p) (Z.to_nat (q - p)) s.
Proof.
  intros Hp Hq. unfold str_slice, slice_bound.
  destruct (Z.ltb_spec p 0); [lia|]. destruct (Z.ltb_spec q 0); [lia|].
  rewrite !Z.min_l by lia. reflexivity.
Qed.

(** ** The chunks of a string *)

Section Chunks.

Variable s : string.
Variable w : Z.

Let n : Z := len s.

Let state (p : Z) (b : bool) : WrappedStrIter.t :=
  WrappedStrIter.mk s n w p b.

Hypothesis w_pos : 0 < w.

Lemma next_inside (p : Z) (b : bool) :
  0 <= p < n ->
  WrappedStrIter.next (state p b)
  = Some (substring (Z.to_nat p) (Z.to_nat (Z.min (p + w) n - p)) s,
          state (Z.min (p + w) n) true).
Proof.
  intros Hp. unfold WrappedStrIter.next, state.
  cbn [WrappedStrIter.output_once WrappedStrIter.cur_pos WrappedStrIter.len
       WrappedStrIter.wrap_at WrappedStrIter.s].
  destruct (Z.geb_spec p n); [lia|]. rewrite andb_false_r.
  rewrite str_slice_inside by (unfold n in *; lia). reflexivity.
Qed.

Lemma next_end : WrappedStrIter.next (state n true) = None.
Proof.
  unfold WrappedStrIter.next, state.
  cbn [WrappedStrIter.output_once WrappedStrIter.cur_pos WrappedStrIter.len].
  destruct (Z.geb_spec n n); [reflexivity|lia].
Qed.

Lemma collect_inside (k : nat) :
  forall p b fuel,
    0 <= p < n -> n - p <= Z.of_nat k -> (k < fuel)%nat ->
    exists chunks,
      collect WrappedStrIter.next fuel (state p b) = Ok chunks
      /\ join EmptyString chunks = substring (Z.to_nat p) (Z.to_nat (n - p)) s
      /\ chunks <> []
      /\ Forall (fun c => 0 < len c <= w) chunks
      /\ Forall (fun c => len c = w) (removelast chunks).
Proof.
  induction k as [|k IH]; intros p b fuel Hp Hk Hf; [lia|].
  destruct fuel as [|fuel]; [lia|].
  cbn [collect]. rewrite next_inside by assumption.
  set (q := Z.min (p + w) n).
  assert (Hq : p < q <= n) by (unfold q; lia).
  assert (Lc : len (substring (Z.to_nat p) (Z.to_nat (q - p)) s) = q - p).
  { unfold len. rewrite substring_length; unfold n, len in *; lia. }
  destruct (Z.eq_dec q n) as [E|E].
  - rewrite E. destruct fuel as [|fuel]; [lia|].
    cbn [collect]. rewrite next_end. cbn [bind].
    eexists. split; [reflexivity|].
    split; [reflexivity|]. split; [discriminate|].
    split.
    + constructor; [|constructor]. rewrite <- E, Lc. unfold q. lia.
    + constructor.
  - destruct (IH q true fuel) as [chunks [C [J [Ne [Fa Fl]]]]]; try lia.
    rewrite C. cbn [bind]. eexists. split; [reflexivity|].
    split; [|split; [discriminate|split]].
    + destruct chunks as [|c chunks]; [contradiction|].
      change (join "" (substring (Z.to_nat p) (Z.to_nat (q - p)) s :: c :: chunks))
        with (substring (Z.to_nat p) (Z.to_nat (q - p)) s
              ++ join "" (c :: chunks))%string.
      rewrite J.
      replace (Z.to_nat (n - p)) with (Z.to_nat (q - p) + Z.to_nat (n - q))%nat
        by lia.
      rewrite substring_app. do 2 f_equal. lia.
    + constructor; [|exact Fa]. rewrite Lc. unfold q. lia.
    + destruct chunks as [|c chunks]; [contradiction|].
      change (removelast (substring (Z.to_nat p) (Z.to_nat (q - p)) s :: c :: chunks))
        with (substring (Z.to_nat p) (Z.to_nat (q - p)) s :: removelast (c :: chunks)).
      constructor; [|exact Fl]. rewrite Lc. unfold q. lia.
Qed.

End Chunks.

(** Iterating over [wrap_str(s, width)] with a positive width stops, and
    cuts [s] into chunks: put end to end the chunks are [s]; there is at
    least one; every chunk but the last is [width] characters long, the last
    one is no longer; and no chunk is empty unless [s] is. *)
Theorem wrap_str_chunks (s : string) (width : Z) (fuel : nat) :
  0 < width -> (String.length s + 1 < fuel)%nat ->
  exists chunks,
    collect WrappedStrIter.next fuel (wrap_str s width) = Ok chunks
    /\ join EmptyString chunks = s
    /\ chunks <> []
    /\ Forall (fun chunk => len chunk <= width) chunks
    /\ Forall (fun chunk => len chunk = width) (removelast chunks)
    /\ (s <> EmptyString -> Forall (fun chunk => chunk <> EmptyString) chunks).
Proof.
  intros Hw Hf. unfold wrap_str, WrappedStrIter.init.
  destruct s as [|c s].
  - destruct fuel as [|[|fuel]]; try (cbn [String.length] in Hf; lia).
    exists [EmptyString]. split; [|split; [|split; [|split; [|split]]]].
    + cbn [collect]. unfold WrappedStrIter.next at 1.
      cbn [WrappedStrIter.output_once andb WrappedStrIter.cur_pos
           WrappedStrIter.len WrappedStrIter.wrap_at WrappedStrIter.s
           String.length Z.of_nat].
      rewrite Z.min_r by lia.
      unfold WrappedStrIter.next.
      cbn [WrappedStrIter.output_once andb WrappedStrIter.cur_pos
           WrappedStrIter.len]. reflexivity.
    + reflexivity.
    + discriminate.
    + constructor; [|constructor]. unfold len. simpl. lia.
    + constructor.
    + intros H. contradiction.
  - destruct (collect_inside (String c s) width Hw (String.length (String c s))
                0 false fuel) as [chunks [C [J [Ne [Fa Fl]]]]];
      try (unfold len; cbn [String.length] in *; lia).
    exists chunks. split; [exact C|].
    split.
    { rewrite J. rewrite Z.sub_0_r. unfold len. rewrite Nat2Z.id.
      apply substring_all. }
    split; [exact Ne|]. split.
    { eapply Forall_impl; [|exact Fa]. cbn. intros a Ha. lia. }
    split; [exact Fl|].
    intros _. eapply Forall_impl; [|exact Fa]. cbn.
    intros a Ha E. subst a. unfold len in Ha. simpl in Ha. lia.
Qed.

Lemma wrap_str_chunks_witness :
  0 < 2 /\ (String.length "abcde" + 1 < 7)%nat
  /\ exists chunks,
       collect WrappedStrIter.next 7 (wrap_str "abcde" 2) = Ok chunks
       /\ join EmptyString chunks = "abcde"%string
       /\ chunks <> []
       /\ Forall (fun chunk => len chunk <= 2) chunks
       /\ Forall (fun chunk => len chunk = 2) (removelast chunks)
       /\ ("abcde"%string <> EmptyString ->
           Forall (fun chunk => chunk <> EmptyString) chunks).
Proof.
  split; [lia|]. split; [simpl; lia|].
  apply wrap_str_chunks; [lia|simpl; lia].
Defined.

(** With a width that is not positive the iterator of [wrap_str] never
    raises [StopIteration], unless the width is 0 and the string empty:
    iterating over it does not end. *)
Theorem wrap_str_endless (s : string) (width : Z) (fuel : nat) :
  width < 0 \/ (width = 0 /\ s <> EmptyString) ->
  collect WrappedStrIter.next fuel (wrap_str s width) = OutOfFuel.
Proof.
  intros H. unfold wrap_str, WrappedStrIter.init.
  assert (G : forall fuel p b,
            (p < len s \/ (b = false /\ width < 0 /\ p <= len s)) ->
            collect WrappedStrIter.next fuel
              (WrappedStrIter.mk s (len s) width p b) = OutOfFuel).
  { assert (Hw : width <= 0) by lia. clear H.
    induction fuel0 as [|fuel0 IH]; intros p b Inv; [reflexivity|].
    cbn [collect]. unfold WrappedStrIter.next.
    cbn [WrappedStrIter.output_once WrappedStrIter.cur_pos WrappedStrIter.len
         WrappedStrIter.wrap_at WrappedStrIter.s].
    assert (E : b && (p >=? len s) = false).
    { destruct Inv as [Lt|[-> _]]; [|reflexivity].
      destruct (Z.geb_spec p (len s)); [lia|]. apply andb_false_r. }
    rewrite E. rewrite IH; [reflexivity|].
    left. destruct Inv as [Lt|[_ Lt]]; lia. }
  apply G. destruct H as [Hw|[-> Hs]].
  - right. pose proof (len_nonneg s). auto.
  - left. destruct s; [contradiction|]. unfold len. simpl. lia.
Qed.

Lemma wrap_str_endless_witness :
  (0 < 0 \/ (0 = 0 /\ "ab"%string <> EmptyString))
  /\ collect WrappedStrIter.next 100 (wrap_str "ab" 0) = OutOfFuel.
Proof.
  assert (H : 0 < 0 \/ (0 = 0 /\ "ab"%string <> EmptyString))
    by (right; split; [reflexivity|discriminate]).
  split; [exact H|]. apply wrap_str_endless. exact H.
Defined.

(** ** class WrappedANSIStringsIter *)

(** [l[start:stop]] on a [list] *)
Definition list_slice {A : Type} (l : list A) (start stop : Z) : list A :=
  let lo := slice_bound (Z.of_nat (List.length l)) start in
  let hi := slice_bound (Z.of_nat (List.length l)) stop in
  firstn (Z.to_nat (hi - lo)) (skipn (Z.to_nat lo) l).

(** [''.join([' ' for _ in range(padding_required)])] *)
Definition padding (padding_required : Z) : string :=
  join EmptyString (map (fun _ => " "%string) (range padding_required)).

Module WrappedANSIStringsIter.

Record t : Type := mk {
  s_ansi : list string;
  unstyled_len : Z;
  wrap_at : Z;
  cur_pos : Z;
  output_once : bool
}.

(** [WrappedANSIStringsIter.__init__] *)
Definition init (s_ansi0 : list string) (wrap_at0 : Z) : t :=
  {| s_ansi := s_ansi0;
     unstyled_len := sum (map len s_ansi0);
     wrap_at := wrap_at0;
     cur_pos := 0;
     output_once := false |}.

(** [WrappedANSIStringsIter.__next__] *)
Definition next (self : t) : option (string * t) :=
  if output_once self && (cur_pos self >=? unstyled_len self) then None
  else
    let start_pos := cur_pos self in
    if unstyled_len self <=? wrap_at self then
      let padding_required := wrap_at self - unstyled_len self in
      let fmt := (join EmptyString (s_ansi self) ++ padding padding_required)%string in
      Some (fmt,
            {| s_ansi := s_ansi self;
               unstyled_len := unstyled_len self;
               wrap_at := wrap_at self;
               cur_pos := unstyled_len self;
               output_once := true |})
    else
      let split_len := Z.min (wrap_at self) (unstyled_len self - start_pos) in
      let split := list_slice (s_ansi self) start_pos (start_pos + split_len) in
      let padding_required := wrap_at self - split_len in
      let fmt := (join EmptyString split ++ padding padding_required)%string in
      Some (fmt,
            {| s_ansi := s_ansi self;
               unstyled_len := unstyled_len self;
               wrap_at := wrap_at self;
               cur_pos := cur_pos self + split_len;
               output_once := true |}).

End WrappedANSIStringsIter.

(** [wrap_ansistrings] *)
Definition wrap_ansistrings (s : list string) (width : Z)
  : WrappedANSIStringsIter.t :=
  WrappedANSIStringsIter.init s width.

(** ** Lengths *)

Lemma len_append (a b : string) : len (a ++ b) = len a + len b.
Proof.
  unfold len. induction a as [|c a IH]; cbn [append String.length]; lia.
Qed.

Lemma join_empty_cons (part : string) (rest : list string) :
  join EmptyString (part :: rest) = (part ++ join EmptyString rest)%string.
Proof.
  destruct rest as [|r rest]; cbn [join].
  - induction part as [|c part IH]; cbn [append]; [reflexivity|].
    rewrite <- IH. reflexivity.
  - reflexivity.
Qed.

Lemma len_join (parts : list string) :
  len (join EmptyString parts) = sum (map len parts).
Proof.
  induction parts as [|part rest IH]; [reflexivity|].
  rewrite join_empty_cons, len_append, IH. reflexivity.
Qed.

Lemma join_empty_app (xs ys : list string) :
  join EmptyString (xs ++ ys)
  = (join EmptyString xs ++ join EmptyString ys)%string.
Proof.
  induction xs as [|x xs IH]; [reflexivity|].
  cbn [app]. rewrite !join_empty_cons, IH.
  induction x as [|c x IHx]; cbn [append]; [reflexivity|].
  rewrite IHx. reflexivity.
Qed.

Lemma len_padding (k : Z) : 0 <= k -> len (padding k) = k.
Proof.
  intros Hk. unfold padding. rewrite len_join, map_map.
  pattern k. apply natlike_ind; [reflexivity| |exact Hk].
  intros x Hx IH. unfold Z.succ. rewrite range_succ by lia.
  rewrite map_app, sum_app, IH. reflexivity.
Qed.

Lemma sum_len_nonneg (parts : list string) : 0 <= sum (map len parts).
Proof.
  induction parts as [|part rest IH]; cbn [map sum]; [lia|].
  pose proof (len_nonneg part). lia.
Qed.

(** ** A text that fits the width *)

(** When the strings together are no longer than the width, iterating over
    [wrap_ansistrings(s, width)] gives one line and stops: the strings put
    end to end, padded with spaces to the width. *)
Theorem wrap_ansistrings_fits (s : list string) (width : Z) (fuel : nat) :
  sum (map len s) <= width -> (2 <= fuel)%nat ->
  exists line,
    collect WrappedANSIStringsIter.next fuel (wrap_ansistrings s width)
    = Ok [line]
    /\ line = (join EmptyString s ++ padding (width - len (join EmptyString s)))%string
    /\ len line = width.
Proof.
  intros Hs Hf. destruct fuel as [|[|fuel]]; try lia.
  unfold wrap_ansistrings, WrappedANSIStringsIter.init.
  eexists. split; [|split; [reflexivity|]].
  - cbn [collect]. unfold WrappedANSIStringsIter.next at 1.
    cbn [WrappedANSIStringsIter.output_once andb
         WrappedANSIStringsIter.unstyled_len WrappedANSIStringsIter.wrap_at
         WrappedANSIStringsIter.cur_pos WrappedANSIStringsIter.s_ansi].
    destruct (Z.leb_spec (sum (map len s)) width); [|lia].
    unfold WrappedANSIStringsIter.next.
    cbn [WrappedANSIStringsIter.output_once andb
         WrappedANSIStringsIter.unstyled_len WrappedANSIStringsIter.cur_pos].
    destruct (Z.geb_spec (sum (map len s)) (sum (map len s))); [|lia].
    cbn [bind]. rewrite len_join. reflexivity.
  - rewrite len_append, len_padding; rewrite len_join; lia.
Qed.

Lemma wrap_ansistrings_fits_witness :
  sum (map len ["ab"%string; "c"%string]) <= 5 /\ (2 <= 2)%nat
  /\ exists line,
       collect WrappedANSIStringsIter.next 2
         (wrap_ansistrings ["ab"%string; "c"%string] 5) = Ok [line]
       /\ line = (join EmptyString ["ab"%string; "c"%string]
                  ++ padding (5 - len (join EmptyString ["ab"%string; "c"%string])))%string
       /\ len line = 5.
Proof.
  split; [vm_compute; discriminate|]. split; [lia|].
  apply wrap_ansistrings_fits; [vm_compute; discriminate|lia].
Defined.

(** ** A text of single characters *)

Lemma sum_len_ones (parts : list string) :
  Forall (fun part => len part = 1) parts ->
  sum (map len parts) = Z.of_nat (List.length parts).
Proof.
  induction 1 as [|part rest H _ IH]; [reflexivity|].
  cbn [map sum List.length]. rewrite H, IH. lia.
Qed.

Lemma list_slice_inside {A : Type} (l : list A) (p q : Z) :
  0 <= p <= q -> q <= Z.of_nat (List.length l) ->
  list_slice l p q = firstn (Z.to_nat (q - p)) (skipn (Z.to_nat p) l).
Proof.
  intros Hp Hq. unfold list_slice, slice_bound.
  destruct (Z.ltb_spec p 0); [lia|]. destruct (Z.ltb_spec q 0); [lia|].
  rewrite !Z.min_l by lia. reflexivity.
Qed.

Section Characters.

Variable s : list string.
Variable w : Z.

Let n : Z := Z.of_nat (List.length s).

Let state (p : Z) (b : bool) : WrappedANSIStringsIter.t :=
  WrappedANSIStringsIter.mk s n w p b.

Hypothesis characters : Forall (fun part => len part = 1) s.
Hypothesis w_pos : 0 < w.
Hypothesis w_short : w < n.

(** A slice of [s], padded to the width. *)
Let line_of (chunk : list string) : string :=
  (join EmptyString chunk ++ padding (w - Z.of_nat (List.length chunk)))%string.

Lemma ansi_next_inside (p : Z) (b : bool) :
  0 <= p < n ->
  WrappedANSIStringsIter.next (state p b)
  = Some (line_of (firstn (Z.to_nat (Z.min w (n - p))) (skipn (Z.to_nat p) s)),
          state (p + Z.min w (n - p)) true).
Proof.
  intros Hp. unfold WrappedANSIStringsIter.next, state.
  cbn [WrappedANSIStringsIter.output_once WrappedANSIStringsIter.cur_pos
       WrappedANSIStringsIter.unstyled_len WrappedANSIStringsIter.wrap_at
       WrappedANSIStringsIter.s_ansi].
  destruct (Z.geb_spec p n); [lia|]. rewrite andb_false_r.
  destruct (Z.leb_spec n w); [lia|].
  rewrite list_slice_inside; unfold n in *; try lia.
  replace (p + Z.min w (Z.of_nat (List.length s) - p) - p)
    with (Z.min w (Z.of_nat (List.length s) - p)) by lia.
  unfold line_of. rewrite length_firstn, length_skipn.
  rewrite Nat.min_l by lia. rewrite Z2Nat.id by lia. reflexivity.
Qed.

Lemma ansi_next_end : WrappedANSIStringsIter.next (state n true) = None.
Proof.
  unfold WrappedANSIStringsIter.next, state.
  cbn [WrappedANSIStringsIter.output_once WrappedANSIStringsIter.cur_pos
       WrappedANSIStringsIter.unstyled_len].
  destruct (Z.geb_spec n n); [reflexivity|lia].
Qed.

Lemma ansi_collect_inside (k : nat) :
  forall p b fuel,
    0 <= p < n -> n - p <= Z.of_nat k -> (k < fuel)%nat ->
    exists chunks,
      collect WrappedANSIStringsIter.next fuel (state p b)
      = Ok (map line_of chunks)
      /\ List.concat chunks = skipn (Z.to_nat p) s
      /\ Forall (fun chunk => 0 < Z.of_nat (List.length chunk) <= w) chunks
      /\ Forall (fun chunk => Z.of_nat (List.length chunk) = w) (removelast chunks).
Proof.
  induction k as [|k IH]; intros p b fuel Hp Hk Hf; [lia|].
  destruct fuel as [|fuel]; [lia|].
  cbn [collect]. rewrite ansi_next_inside by assumption.
  set (d := Z.min w (n - p)).
  assert (Hd : 0 < d <= w /\ p + d <= n) by (unfold d; lia).
  assert (Lc : Z.of_nat (List.length (firstn (Z.to_nat d) (skipn (Z.to_nat p) s))) = d).
  { rewrite length_firstn, length_skipn. unfold n in *. lia. }
  destruct (Z.eq_dec (p + d) n) as [E|E].
  - rewrite E. destruct fuel as [|fuel]; [lia|].
    cbn [collect]. rewrite ansi_next_end. cbn [bind].
    exists [firstn (Z.to_nat d) (skipn (Z.to_nat p) s)].
    split; [reflexivity|]. split; [|split].
    + cbn [List.concat]. rewrite app_nil_r. apply firstn_all2.
      rewrite length_skipn. unfold n in *. lia.
    + constructor; [|constructor]. rewrite Lc. lia.
    + constructor.
  - destruct (IH (p + d) true fuel) as [chunks [C [J [Fa Fl]]]]; try lia.
    rewrite C. cbn [bind].
    exists (firstn (Z.to_nat d) (skipn (Z.to_nat p) s) :: chunks).
    split; [reflexivity|]. split; [|split].
    + cbn [List.concat]. rewrite J.
      replace (Z.to_nat (p + d)) with (Z.to_nat d + Z.to_nat p)%nat by lia.
      rewrite <- skipn_skipn. apply firstn_skipn.
    + constructor; [|exact Fa]. rewrite Lc. lia.
    + destruct chunks as [|c chunks].
      * exfalso. cbn [List.concat] in J. symmetry in J.
        apply (f_equal (@List.length string)) in J.
        rewrite length_skipn in J. cbn [List.length] in J. unfold n in *. lia.
      * change (removelast (firstn (Z.to_nat d) (skipn (Z.to_nat p) s) :: c :: chunks))
          with (firstn (Z.to_nat d) (skipn (Z.to_nat p) s) :: removelast (c :: chunks)).
        constructor; [|exact Fl]. rewrite Lc. unfold d. lia.
Qed.

End Characters.

Lemma line_of_len (w : Z) (chunk : list string) :
  Forall (fun part => len part = 1) chunk ->
  Z.of_nat (List.length chunk) <= w ->
  len (join EmptyString chunk ++ padding (w - Z.of_nat (List.length chunk))) = w.
Proof.
  intros Hc Hl.
  rewrite len_append, len_join, sum_len_ones, len_padding by (auto; lia). lia.
Qed.

(** When every string of [s] is a single character and there are more of
    them than the width, which is positive, iterating over
    [wrap_ansistrings(s, width)] stops, and cuts [s] into slices, each one
    printed as a line padded with spaces: put end to end the slices are [s];
    every slice but the last has [width] characters, the last one has some
    and no more; and every line is exactly [width] characters long. *)
Theorem wrap_ansistrings_characters (s : list string) (width : Z) (fuel : nat) :
  Forall (fun part => len part = 1) s ->
  0 < width < Z.of_nat (List.length s) ->
  (List.length s < fuel)%nat ->
  exists chunks,
    collect WrappedANSIStringsIter.next fuel (wrap_ansistrings s width)
    = Ok (map (fun chunk =>
                 (join EmptyString chunk
                  ++ padding (width - Z.of_nat (List.length chunk)))%string)
              chunks)
    /\ List.concat chunks = s
    /\ Forall (fun chunk => 0 < Z.of_nat (List.length chunk) <= width) chunks
    /\ Forall (fun chunk => Z.of_nat (List.length chunk) = width)
         (removelast chunks)
    /\ Forall (fun chunk =>
                 len (join EmptyString chunk
                      ++ padding (width - Z.of_nat (List.length chunk))) = width)
         chunks.
Proof.
  intros Hc Hw Hf. unfold wrap_ansistrings, WrappedANSIStringsIter.init.
  rewrite (sum_len_ones s Hc).
  destruct (ansi_collect_inside s width ltac:(lia) ltac:(lia) (List.length s)
              0 false fuel) as [chunks [C [J [Fa Fl]]]]; try lia.
  exists chunks. split; [exact C|]. split; [exact J|].
  split; [exact Fa|]. split; [exact Fl|].
  apply Forall_forall. intros chunk Hin.
  apply line_of_len.
  - apply Forall_forall. intros part Hp.
    apply (proj1 (Forall_forall _ s) Hc).
    change s with (skipn (Z.to_nat 0) s). rewrite <- J.
    apply in_concat. exists chunk. split; assumption.
  - apply (proj1 (Forall_forall _ chunks) Fa chunk Hin).
Qed.

Lemma wrap_ansistrings_characters_witness :
  Forall (fun part => len part = 1) ["a"%string; "b"%string; "c"%string]
  /\ 0 < 2 < Z.of_nat (List.length ["a"%string; "b"%string; "c"%string])
  /\ (List.length ["a"%string; "b"%string; "c"%string] < 4)%nat
  /\ exists chunks,
       collect WrappedANSIStringsIter.next 4
         (wrap_ansistrings ["a"%string; "b"%string; "c"%string] 2)
       = Ok (map (fun chunk =>
                    (join EmptyString chunk
                     ++ padding (2 - Z.of_nat (List.length chunk)))%string)
                 chunks)
       /\ List.concat chunks = ["a"%string; "b"%string; "c"%string]
       /\ Forall (fun chunk => 0 < Z.of_nat (List.length chunk) <= 2) chunks
       /\ Forall (fun chunk => Z.of_nat (List.length chunk) = 2)
            (removelast chunks)
       /\ Forall (fun chunk =>
                    len (join EmptyString chunk
                         ++ padding (2 - Z.of_nat (List.length chunk))) = 2)
            chunks.
Proof.
  assert (H1 : Forall (fun part => len part = 1)
                 ["a"%string; "b"%string; "c"%string])
    by (repeat constructor).
  assert (H2 : 0 < 2 < Z.of_nat (List.length ["a"%string; "b"%string; "c"%string]))
    by (simpl; lia).
  assert (H3 : (List.length ["a"%string; "b"%string; "c"%string] < 4)%nat)
    by (simpl; lia).
  split; [exact H1|]. split; [exact H2|]. split; [exact H3|].
  exact (wrap_ansistrings_characters _ 2 4 H1 H2 H3).
Defined.

(** * The diffs of two texts and their printing (mod.py) *)

(** ** Splitting at a separator *)

(** [s.split(sep)] for a separator that is not empty: [s] is cut at the
    occurrences of [sep], found from left to right; [skip] counts the
    characters of an occurrence still to pass over. *)
Fixpoint str_split_from (sep : string) (skip : nat) (s : string) : list string :=
  match s with
  | EmptyString => [EmptyString]
  | String c s' =>
      match skip with
      | S skip' => str_split_from sep skip' s'
      | O =>
          if prefix sep (String c s')
          then EmptyString :: str_split_from sep (String.length sep - 1) s'
          else match str_split_from sep 0 s' with
               | part :: parts => String c part :: parts
               | [] => [String c EmptyString]
               end
      end
  end.

Definition str_split (sep : string) (s : string) : list string :=
  str_split_from sep 0 s.

(** [list(s)]: the characters of [s], each one a string. *)
Definition list_chars (s : string) : list string :=
  map (fun c => String c EmptyString) (list_ascii_of_string s).

Lemma str_split_char (sep : ascii) (s : string) :
  str_split (String sep EmptyString) s = split sep s.
Proof.
  unfold str_split. induction s as [|c s IH]; [reflexivity|].
  cbn [str_split_from split prefix String.length Nat.sub].
  destruct (ascii_dec sep c) as [->|N].
  - rewrite (proj2 (Ascii.eqb_eq c c) eq_refl).
    destruct s; cbn [prefix]; rewrite IH; reflexivity.
  - assert (E : Ascii.eqb c sep = false)
      by (apply Ascii.eqb_neq; congruence).
    rewrite E, IH. reflexivity.
Qed.

(** ** class Diff *)

Inductive DiffType : Type := SAME | ADD | REMOVE | REPLACE.

Module Diff.

Record t : Type := mk {
  kind : DiffType;
  left : string;
  right : option string
}.

End Diff.

(** ** calculate_diff *)

Section Diffs.

(** [difflib.SequenceMatcher(None, a, b).get_opcodes()]: the tuples
    [(tag, i1, i2, j1, j2)]. *)
Variable get_opcodes :
  list string -> list string -> list (string * Z * Z * Z * Z).

(** Lines 76-87: the diff, if any, appended for an opcode. *)
Definition diff_of_opcode (split : string) (left_parts right_parts : list string)
    (opcode : string * Z * Z * Z * Z) : list Diff.t :=
  let '(tag, i1, i2, j1, j2) := opcode in
  let l := join split (list_slice left_parts i1 i2) in
  let r := join split (list_slice right_parts j1 j2) in
  if (tag =? "equal")%string then [Diff.mk SAME l None]
  else if (tag =? "insert")%string then [Diff.mk ADD r None]
  else if (tag =? "delete")%string then [Diff.mk REMOVE l None]
  else if (tag =? "replace")%string then [Diff.mk REPLACE l (Some r)]
  else [].

(** [calculate_diff] *)
Definition calculate_diff (left right split : string) : list Diff.t :=
  let left_parts :=
    if (split =? EmptyString)%string then list_chars left
    else str_split split left in
  let right_parts :=
    if (split =? EmptyString)%string then list_chars right
    else str_split split right in
  flat_map (diff_of_opcode split left_parts right_parts)
    (get_opcodes left_parts right_parts).

(** [calculate_line_diff] *)
Definition calculate_line_diff (left right : string) : list Diff.t :=
  calculate_diff left right (String newline EmptyString).

(** [calculate_char_diff] *)
Definition calculate_char_diff (left right : string) : list Diff.t :=
  calculate_diff left right EmptyString.

End Diffs.

(** What [get_opcodes] promises of its opcodes for the sequences [a] and
    [b]: read from [(i, j)] on, each one starts where the one before it
    ends, on both sides, and the last one ends with the sequences;
    ["equal"] spans equal parts that are not empty, ["insert"] nothing of
    [a] and something of [b], ["delete"] something of [a] and nothing of
    [b], ["replace"] something of both. *)
Fixpoint opcodes_tile (a b : list string) (i j : Z)
    (opcodes : list (string * Z * Z * Z * Z)) : Prop :=
  match opcodes with
  | [] => i = Z.of_nat (List.length a) /\ j = Z.of_nat (List.length b)
  | (tag, i1, i2, j1, j2) :: rest =>
      i1 = i /\ j1 = j
      /\ i1 <= i2 <= Z.of_nat (List.length a)
      /\ j1 <= j2 <= Z.of_nat (List.length b)
      /\ ((tag = "equal"%string /\ i1 < i2
           /\ list_slice a i1 i2 = list_slice b j1 j2)
          \/ (tag = "insert"%string /\ i1 = i2 /\ j1 < j2)
          \/ (tag = "delete"%string /\ i1 < i2 /\ j1 = j2)
          \/ (tag = "replace"%string /\ i1 < i2 /\ j1 < j2))
      /\ opcodes_tile a b i2 j2 rest
  end.

(** ** What a call comes to *)

(** What a call comes to: it returns, or raises: the [IndexError] of
    [align], the [AttributeError] of [None.split], the [TypeError] of
    [Text.append(None)]; or the model runs out of fuel. *)
Inductive outcome (A : Type) : Type :=
| Returned (a : A)
| RaisedIndexError
| RaisedAttributeError
| RaisedTypeError
| RanOutOfFuel.

Arguments Returned {A} a.
Arguments RaisedIndexError {A}.
Arguments RaisedAttributeError {A}.
Arguments RaisedTypeError {A}.
Arguments RanOutOfFuel {A}.

Definition of_result {A : Type} (r : result A) : outcome A :=
  match r with
  | Ok a => Returned a
  | IndexError => RaisedIndexError
  | OutOfFuel => RanOutOfFuel
  end.

Definition and_then {A B : Type} (m : outcome A) (k : A -> outcome B)
  : outcome B :=
  match m with
  | Returned a => k a
  | RaisedIndexError => RaisedIndexError
  | RaisedAttributeError => RaisedAttributeError
  | RaisedTypeError => RaisedTypeError
  | RanOutOfFuel => RanOutOfFuel
  end.

(** ** Splitting what was joined *)

(** [sep in s] *)
Fixpoint contains_char (sep : ascii) (s : string) : bool :=
  match s with
  | EmptyString => false
  | String c s' => Ascii.eqb c sep || contains_char sep s'
  end.

Lemma split_parts_clean (sep : ascii) (s : string) :
  Forall (fun part => contains_char sep part = false) (split sep s).
Proof.
  induction s as [|c s IH]; cbn [split].
  - constructor; [reflexivity|constructor].
  - destruct (Ascii.eqb c sep) eqn:E.
    + constructor; [reflexivity|exact IH].
    + destruct (split sep s) as [|part parts].
      * constructor; [cbn [contains_char]; rewrite E; reflexivity|constructor].
      * inversion IH as [|? ? Hp Hps]; subst.
        constructor; [cbn [contains_char]; rewrite E, Hp; reflexivity|exact Hps].
Qed.

Lemma split_clean (sep : ascii) (part : string) :
  contains_char sep part = false -> split sep part = [part].
Proof.
  induction part as [|c part IH]; cbn [contains_char split]; [reflexivity|].
  intros H. apply orb_false_elim in H. destruct H as [E H].
  rewrite E, (IH H). reflexivity.
Qed.

Lemma split_app_sep (sep : ascii) (part rest : string) :
  contains_char sep part = false ->
  split sep (part ++ String sep rest) = part :: split sep rest.
Proof.
  induction part as [|c part IH]; cbn [contains_char append split].
  - intros _. rewrite (proj2 (Ascii.eqb_eq sep sep) eq_refl). reflexivity.
  - intros H. apply orb_false_elim in H. destruct H as [E H].
    rewrite E, (IH H). reflexivity.
Qed.

Lemma split_join (sep : ascii) (parts : list string) :
  parts <> [] ->
  Forall (fun part => contains_char sep part = false) parts ->
  split sep (join (String sep EmptyString) parts) = parts.
Proof.
  induction parts as [|part rest IH]; intros Hn Hc; [contradiction|].
  inversion Hc as [|? ? Hp Hr]; subst.
  destruct rest as [|r rest].
  - cbn [join]. apply split_clean. exact Hp.
  - change (join (String sep "") (part :: r :: rest))
      with (part ++ String sep (join (String sep "") (r :: rest)))%string.
    rewrite split_app_sep by exact Hp. rewrite IH; [reflexivity|discriminate|exact Hr].
Qed.

(** ** Slices of the parts *)

Lemma list_slice_length {A : Type} (l : list A) (p q : Z) :
  0 <= p <= q -> q <= Z.of_nat (List.length l) ->
  Z.of_nat (List.length (list_slice l p q)) = q - p.
Proof.
  intros Hp Hq. rewrite list_slice_inside by assumption.
  rewrite length_firstn, length_skipn. lia.
Qed.

Lemma list_slice_skipn {A : Type} (l : list A) (p q : Z) :
  0 <= p <= q -> q <= Z.of_nat (List.length l) ->
  skipn (Z.to_nat p) l = list_slice l p q ++ skipn (Z.to_nat q) l.
Proof.
  intros Hp Hq. rewrite list_slice_inside by assumption.
  replace (Z.to_nat q) with (Z.to_nat (q - p) + Z.to_nat p)%nat by lia.
  rewrite <- skipn_skipn. symmetry. apply firstn_skipn.
Qed.

Lemma list_slice_Forall {A : Type} (P : A -> Prop) (l : list A) (p q : Z) :
  0 <= p <= q -> q <= Z.of_nat (List.length l) ->
  Forall P l -> Forall P (list_slice l p q).
Proof.
  intros Hp Hq H. rewrite list_slice_inside by assumption.
  rewrite <- (firstn_skipn (Z.to_nat p) l) in H.
  apply Forall_app in H. destruct H as [_ H].
  rewrite <- (firstn_skipn (Z.to_nat (q - p)) (skipn (Z.to_nat p) l)) in H.
  apply Forall_app in H. tauto.
Qed.

Lemma list_slice_nonempty {A : Type} (l : list A) (p q : Z) :
  0 <= p < q -> q <= Z.of_nat (List.length l) -> list_slice l p q <> [].
Proof.
  intros Hp Hq E. pose proof (list_slice_length l p q ltac:(lia) Hq) as L.
  rewrite E in L. cbn [List.length] in L. lia.
Qed.

Lemma split_join_slice (l : list string) (p q : Z) :
  Forall (fun part => contains_char newline part = false) l ->
  0 <= p < q -> q <= Z.of_nat (List.length l) ->
  split newline (join (String newline EmptyString) (list_slice l p q))
  = list_slice l p q.
Proof.
  intros Hc Hp Hq. apply split_join.
  - apply list_slice_nonempty; assumption.
  - apply list_slice_Forall; auto; lia.
Qed.

(** ** _style_diff_line *)

(** The three stylings of mod.py, instances of [DiffStyling]. *)
Inductive Styling : Type := margin_styling | lineno_styling | line_styling.

(** The fields of a [DiffStyling]. *)
Inductive StyleName : Type :=
| same_style
| add_style
| add_highlight_style
| remove_style
| remove_highlight_style.

(** A style, as the source writes it: a field of a styling. *)
Definition Style : Type := (Styling * StyleName)%type.

Definition Style_eqb (s1 s2 : Style) : bool :=
  match fst s1, fst s2 with
  | margin_styling, margin_styling
  | lineno_styling, lineno_styling
  | line_styling, line_styling =>
      match snd s1, snd s2 with
      | same_style, same_style
      | add_style, add_style
      | add_highlight_style, add_highlight_style
      | remove_style, remove_style
      | remove_highlight_style, remove_highlight_style => true
      | _, _ => false
      end
  | _, _ => false
  end.

(** A [rich.text.Text]: the strings appended to it, each with its style. *)
Definition Text : Type := list (string * Style).

(** [text.append(s, style=style)] *)
Definition Text_append (text : Text) (s : string) (style : Style) : Text :=
  text ++ [(s, style)].

(** [text.plain] *)
Definition plain (text : Text) : string :=
  join EmptyString (map fst text).

(** Lines 161-171: the loop of [_style_diff_line] over the changes. *)
Fixpoint style_diff_loop (changes : list Diff.t) (styling : Styling)
    (before_text after_text : Text) : outcome (Text * Text) :=
  match changes with
  | [] => Returned (before_text, after_text)
  | change :: rest =>
      match Diff.kind change with
      | SAME =>
          style_diff_loop rest styling
            (Text_append before_text (Diff.left change) (styling, remove_style))
            (Text_append after_text (Diff.left change) (styling, add_style))
      | ADD =>
          style_diff_loop rest styling before_text
            (Text_append after_text (Diff.left change)
               (styling, add_highlight_style))
      | REMOVE =>
          style_diff_loop rest styling
            (Text_append before_text (Diff.left change)
               (styling, remove_highlight_style))
            after_text
      | REPLACE =>
          match Diff.right change with
          | Some change_right =>
              style_diff_loop rest styling
                (Text_append before_text (Diff.left change)
                   (styling, remove_highlight_style))
                (Text_append after_text change_right
                   (styling, add_highlight_style))
          | None => RaisedTypeError
          end
      end
  end.

(** [_style_diff_line]: the two texts once it returns. *)
Definition style_diff_line
    (get_opcodes : list string -> list string -> list (string * Z * Z * Z * Z))
    (before after : string) (styling : Styling) (before_text after_text : Text)
  : outcome (Text * Text) :=
  style_diff_loop (calculate_char_diff get_opcodes before after) styling
    before_text after_text.

(** The strings of [text] in the style [style]. *)
Definition styled (style : Style) (text : Text) : list string :=
  flat_map (fun chunk => if Style_eqb style (snd chunk) then [fst chunk] else [])
    text.

Lemma join_list_chars (s : string) : join EmptyString (list_chars s) = s.
Proof.
  unfold list_chars. induction s as [|c s IH]; [reflexivity|].
  cbn [list_ascii_of_string map]. rewrite join_empty_cons, IH. reflexivity.
Qed.

Lemma plain_app (text more : Text) :
  plain (text ++ more) = (plain text ++ plain more)%string.
Proof. unfold plain. rewrite map_app. apply join_empty_app. Qed.

Lemma styled_app (style : Style) (text more : Text) :
  styled style (text ++ more) = styled style text ++ styled style more.
Proof. apply flat_map_app. Qed.

Lemma plain_cons (s : string) (style : Style) (text : Text) :
  plain ((s, style) :: text) = (s ++ plain text)%string.
Proof. unfold plain. cbn [map fst]. apply join_empty_cons. Qed.

Lemma styled_cons (style style' : Style) (s : string) (text : Text) :
  styled style ((s, style') :: text)
  = (if Style_eqb style style' then [s] else []) ++ styled style text.
Proof. reflexivity. Qed.

Lemma list_slice_empty {A : Type} (l : list A) (p : Z) :
  0 <= p <= Z.of_nat (List.length l) -> list_slice l p p = [].
Proof.
  intros Hp. rewrite list_slice_inside by lia. rewrite Z.sub_diag. reflexivity.
Qed.

Section Styled.

Variables a b : list string.
Variable styling : Styling.

Lemma style_diff_loop_tiled (opcodes : list (string * Z * Z * Z * Z)) :
  forall i j before_text after_text,
    0 <= i -> 0 <= j ->
    opcodes_tile a b i j opcodes ->
    exists before_more after_more,
      style_diff_loop (flat_map (diff_of_opcode EmptyString a b) opcodes)
        styling before_text after_text
      = Returned (before_text ++ before_more, after_text ++ after_more)
      /\ plain before_more = join EmptyString (skipn (Z.to_nat i) a)
      /\ plain after_more = join EmptyString (skipn (Z.to_nat j) b)
      /\ styled (styling, remove_style) before_more
         = styled (styling, add_style) after_more
      /\ Forall (fun chunk => snd chunk = (styling, remove_style)
                              \/ snd chunk = (styling, remove_highlight_style))
           before_more
      /\ Forall (fun chunk => snd chunk = (styling, add_style)
                              \/ snd chunk = (styling, add_highlight_style))
           after_more.
Proof.
  induction opcodes as [|[[[[tag i1] i2] j1] j2] rest IH];
    intros i j before_text after_text Hi Hj T.
  - destruct T as [-> ->]. rewrite !Nat2Z.id, !skipn_all.
    exists [], []. rewrite !app_nil_r. repeat split; constructor.
  - cbn [opcodes_tile] in T. destruct T as [Ei [Ej [Hi2 [Hj2 [Htag T]]]]].
    subst i1 j1.
    rewrite (list_slice_skipn a i i2), (list_slice_skipn b j j2) by lia.
    rewrite !join_empty_app. cbn [flat_map].
    destruct Htag as [[-> [L E]]|[[-> [Ei L]]|[[-> [L Ej]]|[-> [L1 L2]]]]];
      cbn [diff_of_opcode String.eqb Ascii.eqb Bool.eqb andb app style_diff_loop
           Diff.kind Diff.left Diff.right];
      match goal with
      | |- context [style_diff_loop _ _ ?tb ?ta] =>
          destruct (IH i2 j2 tb ta ltac:(lia) ltac:(lia) T)
            as [bm [am [C [P1 [P2 [Q [F1 F2]]]]]]]
      end;
      rewrite C; unfold Text_append; rewrite <- ?app_assoc; cbn [app].
    + rewrite <- E. do 2 eexists. split; [reflexivity|].
      rewrite !plain_cons, P1, P2, !styled_cons, Q.
      destruct styling; cbn [Style_eqb fst snd]; repeat split;
        constructor; auto.
    + subst i2. rewrite (list_slice_empty a i) by lia. exists bm. eexists.
      split; [reflexivity|].
      rewrite !plain_cons, P1, P2, !styled_cons, Q.
      destruct styling; cbn [Style_eqb fst snd join append app]; repeat split;
        try constructor; auto.
    + subst j2. rewrite (list_slice_empty b j) by lia. eexists. exists am.
      split; [reflexivity|].
      rewrite !plain_cons, P1, P2, !styled_cons, Q.
      destruct styling; cbn [Style_eqb fst snd join append app]; repeat split;
        try constructor; auto.
    + do 2 eexists. split; [reflexivity|].
      rewrite !plain_cons, P1, P2, !styled_cons, Q.
      destruct styling; cbn [Style_eqb fst snd app]; repeat split;
        constructor; auto.
Qed.

End Styled.



(** ** print_diffs *)

(** A call [console.print(text, end=end)]. *)
Record Printed : Type := mkPrinted {
  printed_text : Text;
  printed_end : string
}.

(** [Text(s, style=style)] *)
Definition Text_init (s : string) (style : Style) : Text := [(s, style)].

(** Lines 115-117, 120-122 and 125-127 of [print_diffs]: a line printed
    behind its mark. *)
Definition print_marked (mark : string) (style : StyleName) (line : string)
  : Printed :=
  mkPrinted (Text_init mark (margin_styling, style)
             ++ Text_init line (line_styling, style))
            (String newline EmptyString).

Section Unified.

Variable get_opcodes :
  list string -> list string -> list (string * Z * Z * Z * Z).
Variable ndiff : string -> string -> list (ascii * string).
Variable fuel : nat.

(** Lines 135-145: the loop over the alignment of a replaced block. *)
Fixpoint replace_texts (alignment : list (option string * option string))
    (text_b text_a : Text) : outcome (Text * Text) :=
  match alignment with
  | [] => Returned (text_b, text_a)
  | (before, after) :: rest =>
      match before, after with
      | None, Some after =>
          let text_a :=
            Text_append text_a "+ " (margin_styling, add_highlight_style) in
          let text_a :=
            Text_append text_a (after ++ String newline EmptyString)
              (line_styling, add_highlight_style) in
          replace_texts rest text_b text_a
      | Some before, None =>
          let text_b :=
            Text_append text_b "- " (margin_styling, remove_highlight_style) in
          let text_b :=
            Text_append text_b (before ++ String newline EmptyString)
              (line_styling, remove_highlight_style) in
          replace_texts rest text_b text_a
      | Some before, Some after =>
          let text_b :=
            Text_append text_b "- " (margin_styling, remove_highlight_style) in
          let text_a :=
            Text_append text_a "+ " (margin_styling, add_highlight_style) in
          and_then
            (style_diff_line get_opcodes
               (before ++ String newline EmptyString)
               (after ++ String newline EmptyString)
               line_styling text_b text_a)
            (fun '(text_b, text_a) => replace_texts rest text_b text_a)
      | None, None => replace_texts rest text_b text_a
      end
  end.

(** Lines 114-147: one change. *)
Definition print_change (change : Diff.t) : outcome (list Printed) :=
  match Diff.kind change with
  | SAME =>
      Returned (map (print_marked "  " same_style)
                  (split newline (Diff.left change)))
  | ADD =>
      Returned (map (print_marked "+ " add_style)
                  (split newline (Diff.left change)))
  | REMOVE =>
      Returned (map (print_marked "- " remove_style)
                  (split newline (Diff.left change)))
  | REPLACE =>
      match Diff.right change with
      | None => RaisedAttributeError
      | Some change_right =>
          let lines_b := split newline (Diff.left change) in
          let lines_a := split newline change_right in
          and_then (of_result (align ndiff fuel lines_b lines_a))
            (fun alignment =>
               and_then (replace_texts alignment [] [])
                 (fun '(text_b, text_a) =>
                    Returned [mkPrinted text_b EmptyString;
                              mkPrinted text_a EmptyString]))
      end
  end.

(** [print_diffs]: the calls of [console.print] it makes when it returns. *)
Fixpoint print_diffs (diffs : list Diff.t) : outcome (list Printed) :=
  match diffs with
  | [] => Returned []
  | change :: rest =>
      and_then (print_change change)
        (fun printed =>
           and_then (print_diffs rest)
             (fun printed' => Returned (printed ++ printed')))
  end.

End Unified.

(** The characters handed to [console.print], call after call, each call
    with its end; styles apart. *)
Definition output (printed : list Printed) : string :=
  join EmptyString
    (map (fun p => (plain (printed_text p) ++ printed_end p)%string) printed).

(** ** The unified diff *)

(** [lines], each one behind [mark] and ended by a newline. *)
Definition marked (mark : string) (lines : list string) : string :=
  join EmptyString
    (map (fun line => (mark ++ line ++ String newline EmptyString)%string) lines).

(** The unified diff of the lines [a] and [b] that the opcodes describe:
    the equal lines behind two spaces, the lines inserted behind a plus, the
    lines deleted behind a minus, and for the lines replaced those of [a]
    behind a minus, then those of [b] behind a plus. *)
Fixpoint unified (a b : list string) (opcodes : list (string * Z * Z * Z * Z))
  : string :=
  match opcodes with
  | [] => EmptyString
  | (tag, i1, i2, j1, j2) :: rest =>
      ((if (tag =? "equal")%string then marked "  " (list_slice a i1 i2)
        else if (tag =? "insert")%string then marked "+ " (list_slice b j1 j2)
        else if (tag =? "delete")%string then marked "- " (list_slice a i1 i2)
        else if (tag =? "replace")%string
             then marked "- " (list_slice a i1 i2)
                  ++ marked "+ " (list_slice b j1 j2)
        else EmptyString)
       ++ unified a b rest)%string
  end.

Lemma append_empty_r (s : string) : (s ++ EmptyString)%string = s.
Proof.
  induction s as [|c s IH]; cbn [append]; [reflexivity|].
  rewrite IH. reflexivity.
Qed.

Lemma append_assoc (s1 s2 s3 : string) :
  ((s1 ++ s2) ++ s3)%string = (s1 ++ (s2 ++ s3))%string.
Proof.
  induction s1 as [|c s1 IH]; cbn [append]; [reflexivity|].
  rewrite IH. reflexivity.
Qed.

Lemma plain_append (text : Text) (s : string) (style : Style) :
  plain (Text_append text s style) = (plain text ++ s)%string.
Proof.
  unfold Text_append. rewrite plain_app. unfold plain at 2.
  cbn [map fst join]. reflexivity.
Qed.

Lemma marked_cons (mark line : string) (lines : list string) :
  marked mark (line :: lines)
  = (mark ++ line ++ String newline EmptyString ++ marked mark lines)%string.
Proof.
  unfold marked. cbn [map]. rewrite join_empty_cons.
  rewrite !append_assoc. reflexivity.
Qed.

Lemma output_app (xs ys : list Printed) :
  output (xs ++ ys) = (output xs ++ output ys)%string.
Proof. unfold output. rewrite map_app. apply join_empty_app. Qed.

Lemma output_marked (mark : string) (style : StyleName) (lines : list string) :
  output (map (print_marked mark style) lines) = marked mark lines.
Proof.
  unfold output, marked. rewrite map_map. f_equal. apply map_ext.
  intros line. unfold print_marked, Text_init, plain.
  cbn [printed_text printed_end app map fst].
  rewrite join_empty_cons. cbn [join]. rewrite append_assoc. reflexivity.
Qed.

Section UnifiedTiled.

Variable get_opcodes :
  list string -> list string -> list (string * Z * Z * Z * Z).
Variable ndiff : string -> string -> list (ascii * string).
Variable fuel : nat.

Hypothesis characters_tiled : forall x y : string,
  opcodes_tile (list_chars x) (list_chars y) 0 0
    (get_opcodes (list_chars x) (list_chars y)).

Lemma style_diff_line_returns (before after : string) (text_b text_a : Text) :
  exists text_b' text_a',
    style_diff_line get_opcodes before after line_styling text_b text_a
    = Returned (text_b', text_a')
    /\ plain text_b' = (plain text_b ++ before)%string
    /\ plain text_a' = (plain text_a ++ after)%string.
Proof.
  unfold style_diff_line, calculate_char_diff, calculate_diff.
  change ("" =? "")%string with true. cbn iota.
  destruct (style_diff_loop_tiled (list_chars before) (list_chars after)
              line_styling _ 0 0 text_b text_a ltac:(lia) ltac:(lia)
              (characters_tiled before after))
    as [bm [am [C [P1 [P2 _]]]]].
  eexists. eexists. split; [exact C|].
  cbn [Z.to_nat skipn] in P1, P2. rewrite join_list_chars in P1, P2.
  rewrite !plain_app, P1, P2. auto.
Qed.

Lemma replace_texts_plain (alignment : list (option string * option string)) :
  forall text_b text_a,
  exists text_b' text_a',
    replace_texts get_opcodes alignment text_b text_a
    = Returned (text_b', text_a')
    /\ plain text_b'
       = (plain text_b ++ marked "- " (present (map fst alignment)))%string
    /\ plain text_a'
       = (plain text_a ++ marked "+ " (present (map snd alignment)))%string.
Proof.
  induction alignment as [|[[before|] [after|]] rest IH]; intros text_b text_a;
    cbn [replace_texts map fst snd present].
  - exists text_b, text_a. unfold marked. cbn [map join].
    rewrite !append_empty_r. auto.
  - destruct (style_diff_line_returns
                (before ++ String newline EmptyString)
                (after ++ String newline EmptyString)
                (Text_append text_b "- " (margin_styling, remove_highlight_style))
                (Text_append text_a "+ " (margin_styling, add_highlight_style)))
      as [tb [ta [C [P1 P2]]]].
    rewrite C. cbn [and_then].
    destruct (IH tb ta) as [tb' [ta' [C' [Q1 Q2]]]].
    exists tb', ta'. split; [exact C'|].
    rewrite Q1, Q2, P1, P2, !plain_append, !marked_cons, !append_assoc.
    auto.
  - destruct (IH (Text_append
                    (Text_append text_b "- "
                       (margin_styling, remove_highlight_style))
                    (before ++ String newline EmptyString)
                    (line_styling, remove_highlight_style))
                 text_a) as [tb' [ta' [C' [Q1 Q2]]]].
    exists tb', ta'. split; [exact C'|].
    rewrite Q1, Q2, !plain_append, !marked_cons, !append_assoc. auto.
  - destruct (IH text_b
                 (Text_append
                    (Text_append text_a "+ "
                       (margin_styling, add_highlight_style))
                    (after ++ String newline EmptyString)
                    (line_styling, add_highlight_style)))
      as [tb' [ta' [C' [Q1 Q2]]]].
    exists tb', ta'. split; [exact C'|].
    rewrite Q1, Q2, !plain_append, !marked_cons, !append_assoc. auto.
  - apply IH.
Qed.

Variables a b : list string.

Let sep : string := String newline EmptyString.

Hypothesis a_clean : Forall (fun part => contains_char newline part = false) a.
Hypothesis b_clean : Forall (fun part => contains_char newline part = false) b.
Hypothesis enough : (List.length a + List.length b <= fuel)%nat.

Lemma print_replace_output (i1 i2 j1 j2 : Z) :
  0 <= i1 < i2 -> i2 <= Z.of_nat (List.length a) ->
  0 <= j1 < j2 -> j2 <= Z.of_nat (List.length b) ->
  exists printed,
    print_change get_opcodes ndiff fuel
      (Diff.mk REPLACE (join sep (list_slice a i1 i2))
         (Some (join sep (list_slice b j1 j2))))
    = Returned printed
    /\ output printed
       = (marked "- " (list_slice a i1 i2)
          ++ marked "+ " (list_slice b j1 j2))%string.
Proof.
  intros Hi Hi2 Hj Hj2. unfold print_change.
  cbn [Diff.kind Diff.left Diff.right].
  rewrite (split_join_slice a) by assumption.
  rewrite (split_join_slice b) by assumption.
  pose proof (list_slice_length a i1 i2 ltac:(lia) Hi2) as La.
  pose proof (list_slice_length b j1 j2 ltac:(lia) Hj2) as Lb.
  destruct (align_lines ndiff fuel (list_slice a i1 i2) (list_slice b j1 j2))
    as [out [A [F S]]].
  { apply list_slice_nonempty; assumption. }
  { apply list_slice_nonempty; assumption. }
  { lia. }
  rewrite A. cbn [of_result and_then].
  destruct (replace_texts_plain out [] []) as [tb [ta [C [P1 P2]]]].
  rewrite C. cbn [and_then]. eexists. split; [reflexivity|].
  unfold output. cbn [map printed_text printed_end].
  rewrite join_empty_cons. cbn [join].
  rewrite !append_empty_r, P1, P2, F, S. reflexivity.
Qed.

Lemma print_diffs_tiled (opcodes : list (string * Z * Z * Z * Z)) :
  forall i j,
    0 <= i -> 0 <= j ->
    opcodes_tile a b i j opcodes ->
    exists printed,
      print_diffs get_opcodes ndiff fuel
        (flat_map (diff_of_opcode sep a b) opcodes)
      = Returned printed
      /\ output printed = unified a b opcodes.
Proof.
  induction opcodes as [|[[[[tag i1] i2] j1] j2] rest IH]; intros i j Hi Hj T.
  - exists []. split; reflexivity.
  - cbn [opcodes_tile] in T. destruct T as [Ei [Ej [Hi2 [Hj2 [Htag T]]]]].
    subst i1 j1.
    destruct (IH i2 j2 ltac:(lia) ltac:(lia) T) as [printed' [C' O']].
    cbn [flat_map unified].
    destruct Htag as [[-> [L E]]|[[-> [<- L]]|[[-> [L <-]]|[-> [L1 L2]]]]];
      cbn [diff_of_opcode String.eqb Ascii.eqb Bool.eqb andb app print_diffs].
    + unfold print_change at 1. cbn [Diff.kind Diff.left and_then].
      rewrite (split_join_slice a) by (auto; lia).
      rewrite C'. cbn [and_then]. eexists. split; [reflexivity|].
      rewrite output_app, output_marked, O'. reflexivity.
    + unfold print_change at 1. cbn [Diff.kind Diff.left and_then].
      rewrite (split_join_slice b) by (auto; lia).
      rewrite C'. cbn [and_then]. eexists. split; [reflexivity|].
      rewrite output_app, output_marked, O'. reflexivity.
    + unfold print_change at 1. cbn [Diff.kind Diff.left and_then].
      rewrite (split_join_slice a) by (auto; lia).
      rewrite C'. cbn [and_then]. eexists. split; [reflexivity|].
      rewrite output_app, output_marked, O'. reflexivity.
    + destruct (print_replace_output i i2 j j2) as [printed [C O]]; try lia.
      fold sep. rewrite C. cbn [and_then]. rewrite C'. cbn [and_then].
      eexists. split; [reflexivity|].
      rewrite output_app, O, O'. reflexivity.
Qed.

End UnifiedTiled.


(** Opcodes that replace the whole of [a] by the whole of [b]. *)
Definition replace_all_opcodes (a b : list string)
  : list (string * Z * Z * Z * Z) :=
  match a, b with
  | [], [] => []
  | [], _ :: _ => [("insert"%string, 0, 0, 0, Z.of_nat (List.length b))]
  | _ :: _, [] => [("delete"%string, 0, Z.of_nat (List.length a), 0, 0)]
  | _ :: _, _ :: _ =>
      [("replace"%string, 0, Z.of_nat (List.length a),
        0, Z.of_nat (List.length b))]
  end.

Lemma replace_all_opcodes_tile (a b : list string) :
  opcodes_tile a b 0 0 (replace_all_opcodes a b).
Proof.
  destruct a as [|x a], b as [|y b]; cbn [replace_all_opcodes opcodes_tile].
  - auto.
  - repeat split; try lia. right. left. repeat split; cbn [List.length]; lia.
  - repeat split; try lia. right. right. left.
    repeat split; cbn [List.length]; lia.
  - repeat split; try lia. right. right. right.
    repeat split; cbn [List.length]; lia.
Qed.


(** ** print_diffs_side_by_side *)

(** A call of [_print_side_by_side_line]: the line numbers its two margins
    [lineno_l] and [lineno_r] show ([None] for the blank margin
    [empty_lineno]) and the two texts [line_l] and [line_r] it is given. *)
Record SideBySideLine : Type := mkSideBySideLine {
  margin_l : option Z;
  margin_r : option Z;
  text_l : Text;
  text_r : Text
}.

(** Lines 211-224: the loop over the lines of a [SAME] change. *)
Fixpoint same_loop (lines : list string) (lineno_l lineno_r : Z)
  : list SideBySideLine * (Z * Z) :=
  match lines with
  | [] => ([], (lineno_l, lineno_r))
  | line :: rest =>
      let '(printed, counters) := same_loop rest (lineno_l + 1) (lineno_r + 1) in
      (mkSideBySideLine (Some lineno_l) (Some lineno_r)
         (Text_init line (line_styling, same_style))
         (Text_init line (line_styling, same_style)) :: printed,
       counters)
  end.

(** Lines 227-238: the loop over the lines of an [ADD] change. *)
Fixpoint add_loop (lines : list string) (lineno_l lineno_r : Z)
  : list SideBySideLine * (Z * Z) :=
  match lines with
  | [] => ([], (lineno_l, lineno_r))
  | line :: rest =>
      let '(printed, counters) := add_loop rest lineno_l (lineno_r + 1) in
      (mkSideBySideLine None (Some lineno_r)
         (Text_init EmptyString (line_styling, same_style))
         (Text_init line (line_styling, add_highlight_style)) :: printed,
       counters)
  end.

(** Lines 241-252: the loop over the lines of a [REMOVE] change. *)
Fixpoint remove_loop (lines : list string) (lineno_l lineno_r : Z)
  : list SideBySideLine * (Z * Z) :=
  match lines with
  | [] => ([], (lineno_l, lineno_r))
  | line :: rest =>
      let '(printed, counters) := remove_loop rest (lineno_l + 1) lineno_r in
      (mkSideBySideLine (Some lineno_l) None
         (Text_init line (line_styling, remove_highlight_style))
         (Text_init EmptyString (line_styling, same_style)) :: printed,
       counters)
  end.

Section SideBySide.

Variable get_opcodes :
  list string -> list string -> list (string * Z * Z * Z * Z).
Variable ndiff : string -> string -> list (ascii * string).
Variable fuel : nat.

(** Lines 258-302: the loop over the alignment of a replaced block; it
    returns the calls of [_print_side_by_side_line] it makes and the two
    line counters.  A pair of lines is styled by [_style_diff_line], from
    two empty texts, before it is printed. *)
Fixpoint replace_loop (alignment : list (option string * option string))
    (lineno_l lineno_r : Z) : outcome (list SideBySideLine * (Z * Z)) :=
  match alignment with
  | [] => Returned ([], (lineno_l, lineno_r))
  | (line_l, line_r) :: rest =>
      match line_l, line_r with
      | None, Some line_r =>
          and_then (replace_loop rest lineno_l (lineno_r + 1))
            (fun '(printed, counters) =>
               Returned
                 (mkSideBySideLine None (Some lineno_r)
                    (Text_init EmptyString (line_styling, same_style))
                    (Text_init line_r (line_styling, add_highlight_style))
                  :: printed, counters))
      | Some line_l, None =>
          and_then (replace_loop rest (lineno_l + 1) lineno_r)
            (fun '(printed, counters) =>
               Returned
                 (mkSideBySideLine (Some lineno_l) None
                    (Text_init line_l (line_styling, remove_highlight_style))
                    (Text_init EmptyString (line_styling, same_style))
                  :: printed, counters))
      | Some line_l, Some line_r =>
          and_then (style_diff_line get_opcodes line_l line_r line_styling [] [])
            (fun '(line_l_text, line_r_text) =>
               and_then (replace_loop rest (lineno_l + 1) (lineno_r + 1))
                 (fun '(printed, counters) =>
                    Returned
                      (mkSideBySideLine (Some lineno_l) (Some lineno_r)
                         line_l_text line_r_text
                       :: printed, counters)))
      | None, None => replace_loop rest lineno_l lineno_r
      end
  end.

(** Lines 255-302: the branch of a [REPLACE] change. *)
Definition side_by_side_replace (change_left change_right : string)
    (lineno_l lineno_r : Z) : outcome (list SideBySideLine * (Z * Z)) :=
  let lines_b := split newline change_left in
  let lines_a := split newline change_right in
  and_then (of_result (align ndiff fuel lines_b lines_a))
    (fun alignment => replace_loop alignment lineno_l lineno_r).

(** Lines 210-302: one change. *)
Definition side_by_side_change (change : Diff.t) (lineno_l lineno_r : Z)
  : outcome (list SideBySideLine * (Z * Z)) :=
  match Diff.kind change with
  | SAME =>
      Returned (same_loop (split newline (Diff.left change)) lineno_l lineno_r)
  | ADD =>
      Returned (add_loop (split newline (Diff.left change)) lineno_l lineno_r)
  | REMOVE =>
      Returned (remove_loop (split newline (Diff.left change)) lineno_l lineno_r)
  | REPLACE =>
      match Diff.right change with
      | None => RaisedAttributeError
      | Some change_right =>
          side_by_side_replace (Diff.left change) change_right
            lineno_l lineno_r
      end
  end.

(** Lines 208-302: the loop over the changes. *)
Fixpoint side_by_side_loop (diffs : list Diff.t) (lineno_l lineno_r : Z)
  : outcome (list SideBySideLine * (Z * Z)) :=
  match diffs with
  | [] => Returned ([], (lineno_l, lineno_r))
  | change :: rest =>
      and_then (side_by_side_change change lineno_l lineno_r)
        (fun '(printed, (lineno_l', lineno_r')) =>
           and_then (side_by_side_loop rest lineno_l' lineno_r')
             (fun '(printed', counters) =>
                Returned (printed ++ printed', counters)))
  end.

(** [print_diffs_side_by_side]: the calls of [_print_side_by_side_line] it
    makes (the styles of the margins and the widths of the columns are left
    out). *)
Definition print_diffs_side_by_side (diffs : list Diff.t)
  : outcome (list SideBySideLine) :=
  and_then (side_by_side_loop diffs 1 1)
    (fun '(printed, _) => Returned printed).

End SideBySide.

(** ** The numbers in the margins *)

(** The numbered lines of the left column, in the order they are printed:
    the number in the margin and the plain text beside it. *)
Definition numbered_l (printed : list SideBySideLine) : list (Z * string) :=
  flat_map (fun line => match margin_l line with
                        | Some k => [(k, plain (text_l line))]
                        | None => []
                        end) printed.

(** The numbered lines of the right column. *)
Definition numbered_r (printed : list SideBySideLine) : list (Z * string) :=
  flat_map (fun line => match margin_r line with
                        | Some k => [(k, plain (text_r line))]
                        | None => []
                        end) printed.

(** A column is blank wherever its margin is. *)
Definition blank_beside_blank (line : SideBySideLine) : Prop :=
  (margin_l line = None -> plain (text_l line) = EmptyString)
  /\ (margin_r line = None -> plain (text_r line) = EmptyString).

(** [lines] numbered from [k]. *)
Fixpoint number_from (k : Z) (lines : list string) : list (Z * string) :=
  match lines with
  | [] => []
  | line :: rest => (k, line) :: number_from (k + 1) rest
  end.

(** The calls [printed] show the lines [lines_l] on the left and [lines_r]
    on the right, each beside its number, counted from [lineno_l] and
    [lineno_r], and nothing else. *)
Definition shows (printed : list SideBySideLine) (lineno_l lineno_r : Z)
    (lines_l lines_r : list string) : Prop :=
  numbered_l printed = number_from lineno_l lines_l
  /\ numbered_r printed = number_from lineno_r lines_r
  /\ Forall blank_beside_blank printed.

Lemma number_from_app (xs ys : list string) :
  forall k,
    number_from k (xs ++ ys)
    = number_from k xs ++ number_from (k + Z.of_nat (List.length xs)) ys.
Proof.
  induction xs as [|x xs IH]; intros k; cbn [app number_from List.length].
  - f_equal. lia.
  - rewrite IH. do 3 f_equal. lia.
Qed.

Lemma shows_nil (lineno_l lineno_r : Z) : shows [] lineno_l lineno_r [] [].
Proof. repeat split. constructor. Qed.

Lemma shows_app (xs ys : list SideBySideLine) (lineno_l lineno_r : Z)
    (ls ls' rs rs' : list string) :
  shows xs lineno_l lineno_r ls rs ->
  shows ys (lineno_l + Z.of_nat (List.length ls))
           (lineno_r + Z.of_nat (List.length rs)) ls' rs' ->
  shows (xs ++ ys) lineno_l lineno_r (ls ++ ls') (rs ++ rs').
Proof.
  intros [X1 [X2 X3]] [Y1 [Y2 Y3]]. unfold shows, numbered_l, numbered_r in *.
  rewrite !flat_map_app, !number_from_app, X1, X2, Y1, Y2.
  repeat split. apply Forall_app. auto.
Qed.

Lemma shows_both (lineno_l lineno_r : Z) (line_l line_r : string)
    (text_l0 text_r0 : Text) :
  plain text_l0 = line_l -> plain text_r0 = line_r ->
  shows [mkSideBySideLine (Some lineno_l) (Some lineno_r) text_l0 text_r0]
    lineno_l lineno_r [line_l] [line_r].
Proof.
  intros <- <-. unfold shows, numbered_l, numbered_r, blank_beside_blank.
  cbn. repeat split; try discriminate.
  constructor; [|constructor]. cbn. split; discriminate.
Qed.

Lemma shows_left (lineno_l lineno_r : Z) (line : string) (style style' : Style) :
  shows [mkSideBySideLine (Some lineno_l) None
           (Text_init line style) (Text_init EmptyString style')]
    lineno_l lineno_r [line] [].
Proof.
  unfold shows, numbered_l, numbered_r, blank_beside_blank.
  cbn. repeat split.
  constructor; [|constructor]. cbn. split; [discriminate|reflexivity].
Qed.

Lemma shows_right (lineno_l lineno_r : Z) (line : string) (style style' : Style) :
  shows [mkSideBySideLine None (Some lineno_r)
           (Text_init EmptyString style') (Text_init line style)]
    lineno_l lineno_r [] [line].
Proof.
  unfold shows, numbered_l, numbered_r, blank_beside_blank.
  cbn. repeat split.
  constructor; [|constructor]. cbn. split; [reflexivity|discriminate].
Qed.

Lemma shows_cons (line : SideBySideLine) (printed : list SideBySideLine)
    (lineno_l lineno_r : Z) (ls ls' rs rs' : list string) :
  shows [line] lineno_l lineno_r ls rs ->
  shows printed (lineno_l + Z.of_nat (List.length ls))
                (lineno_r + Z.of_nat (List.length rs)) ls' rs' ->
  shows (line :: printed) lineno_l lineno_r (ls ++ ls') (rs ++ rs').
Proof. apply (shows_app [line]). Qed.

Lemma same_loop_shows (lines : list string) :
  forall lineno_l lineno_r,
    shows (fst (same_loop lines lineno_l lineno_r)) lineno_l lineno_r lines lines
    /\ snd (same_loop lines lineno_l lineno_r)
       = (lineno_l + Z.of_nat (List.length lines),
          lineno_r + Z.of_nat (List.length lines)).
Proof.
  induction lines as [|line rest IH]; intros lineno_l lineno_r;
    cbn [same_loop List.length].
  - split; [apply shows_nil|]. cbn. f_equal; lia.
  - specialize (IH (lineno_l + 1) (lineno_r + 1)).
    destruct (same_loop rest (lineno_l + 1) (lineno_r + 1)) as [printed counters].
    cbn [fst snd] in *. destruct IH as [I1 I2]. split.
    + apply (shows_cons _ _ _ _ [line] rest [line] rest); [|exact I1].
      apply shows_both; unfold Text_init, plain; reflexivity.
    + rewrite I2. f_equal; lia.
Qed.

Lemma add_loop_shows (lines : list string) :
  forall lineno_l lineno_r,
    shows (fst (add_loop lines lineno_l lineno_r)) lineno_l lineno_r [] lines
    /\ snd (add_loop lines lineno_l lineno_r)
       = (lineno_l, lineno_r + Z.of_nat (List.length lines)).
Proof.
  induction lines as [|line rest IH]; intros lineno_l lineno_r;
    cbn [add_loop List.length].
  - split; [apply shows_nil|]. cbn. f_equal; lia.
  - specialize (IH lineno_l (lineno_r + 1)).
    destruct (add_loop rest lineno_l (lineno_r + 1)) as [printed counters].
    cbn [fst snd] in *. destruct IH as [I1 I2]. split.
    + apply (shows_cons _ _ _ _ [] [] [line] rest); [apply shows_right|].
      cbn [List.length]. rewrite Z.add_0_r. exact I1.
    + rewrite I2. f_equal; lia.
Qed.

Lemma remove_loop_shows (lines : list string) :
  forall lineno_l lineno_r,
    shows (fst (remove_loop lines lineno_l lineno_r)) lineno_l lineno_r lines []
    /\ snd (remove_loop lines lineno_l lineno_r)
       = (lineno_l + Z.of_nat (List.length lines), lineno_r).
Proof.
  induction lines as [|line rest IH]; intros lineno_l lineno_r;
    cbn [remove_loop List.length].
  - split; [apply shows_nil|]. cbn. f_equal; lia.
  - specialize (IH (lineno_l + 1) lineno_r).
    destruct (remove_loop rest (lineno_l + 1) lineno_r) as [printed counters].
    cbn [fst snd] in *. destruct IH as [I1 I2]. split.
    + apply (shows_cons _ _ _ _ [line] rest [] []); [apply shows_left|].
      cbn [List.length]. rewrite Z.add_0_r. exact I1.
    + rewrite I2. f_equal; lia.
Qed.

(** ** Every line of both texts, with its number *)

Section SideBySideTiled.

Variable get_opcodes :
  list string -> list string -> list (string * Z * Z * Z * Z).
Variable ndiff : string -> string -> list (ascii * string).
Variable fuel : nat.

Hypothesis characters_tiled : forall x y : string,
  opcodes_tile (list_chars x) (list_chars y) 0 0
    (get_opcodes (list_chars x) (list_chars y)).

Lemma replace_loop_shows (alignment : list (option string * option string)) :
  forall lineno_l lineno_r,
  exists printed,
    replace_loop get_opcodes alignment lineno_l lineno_r
    = Returned (printed,
                (lineno_l + Z.of_nat (List.length (present (map fst alignment))),
                 lineno_r + Z.of_nat (List.length (present (map snd alignment)))))
    /\ shows printed lineno_l lineno_r
         (present (map fst alignment)) (present (map snd alignment)).
Proof.
  induction alignment as [|[[l|] [r|]] rest IH]; intros lineno_l lineno_r;
    cbn [replace_loop map fst snd present List.length].
  - exists []. split; [|apply shows_nil].
    apply f_equal, f_equal2; [reflexivity|apply f_equal2; lia].
  - destruct (style_diff_line_returns get_opcodes ndiff characters_tiled l r [] [])
      as [tl [tr [C [P1 P2]]]].
    rewrite C. cbn [and_then].
    destruct (IH (lineno_l + 1) (lineno_r + 1)) as [printed [C' S']].
    rewrite C'. cbn [and_then]. eexists. split.
    + apply f_equal, f_equal2; [reflexivity|apply f_equal2; lia].
    + apply (shows_cons _ _ _ _ [l] _ [r] _); [|exact S'].
      apply shows_both; assumption.
  - destruct (IH (lineno_l + 1) lineno_r) as [printed [C' S']].
    rewrite C'. cbn [and_then]. eexists. split.
    + apply f_equal, f_equal2; [reflexivity|apply f_equal2; lia].
    + apply (shows_cons _ _ _ _ [l] _ [] _); [apply shows_left|].
      cbn [List.length]. rewrite Z.add_0_r. exact S'.
  - destruct (IH lineno_l (lineno_r + 1)) as [printed [C' S']].
    rewrite C'. cbn [and_then]. eexists. split.
    + apply f_equal, f_equal2; [reflexivity|apply f_equal2; lia].
    + apply (shows_cons _ _ _ _ [] _ [r] _); [apply shows_right|].
      cbn [List.length]. rewrite Z.add_0_r. exact S'.
  - apply IH.
Qed.

Lemma side_by_side_replace_shows (change_left change_right : string)
    (lineno_l lineno_r : Z) :
  (List.length (split newline change_left)
   + List.length (split newline change_right) <= fuel)%nat ->
  exists printed,
    side_by_side_replace get_opcodes ndiff fuel change_left change_right
      lineno_l lineno_r
    = Returned (printed,
                (lineno_l + Z.of_nat (List.length (split newline change_left)),
                 lineno_r + Z.of_nat (List.length (split newline change_right))))
    /\ shows printed lineno_l lineno_r
         (split newline change_left) (split newline change_right).
Proof.
  intros Hf. unfold side_by_side_replace.
  destruct (align_lines ndiff fuel (split newline change_left)
              (split newline change_right)
              (split_nonempty _ _) (split_nonempty _ _) Hf) as [out [A [F S]]].
  rewrite A. cbn [of_result and_then].
  destruct (replace_loop_shows out lineno_l lineno_r) as [printed [C Sh]].
  rewrite F, S in *. exists printed. auto.
Qed.

Variables a b : list string.

Let sep : string := String newline EmptyString.

Hypothesis a_clean : Forall (fun part => contains_char newline part = false) a.
Hypothesis b_clean : Forall (fun part => contains_char newline part = false) b.
Hypothesis enough : (List.length a + List.length b <= fuel)%nat.

Lemma opcode_shows (tag : string) (i1 i2 j1 j2 lineno_l lineno_r : Z) :
  0 <= i1 -> 0 <= j1 ->
  i1 <= i2 <= Z.of_nat (List.length a) ->
  j1 <= j2 <= Z.of_nat (List.length b) ->
  (tag = "equal"%string /\ i1 < i2 /\ list_slice a i1 i2 = list_slice b j1 j2)
  \/ (tag = "insert"%string /\ i1 = i2 /\ j1 < j2)
  \/ (tag = "delete"%string /\ i1 < i2 /\ j1 = j2)
  \/ (tag = "replace"%string /\ i1 < i2 /\ j1 < j2) ->
  exists change printed,
    diff_of_opcode sep a b (tag, i1, i2, j1, j2) = [change]
    /\ side_by_side_change get_opcodes ndiff fuel change lineno_l lineno_r
       = Returned (printed,
                   (lineno_l + Z.of_nat (List.length (list_slice a i1 i2)),
                    lineno_r + Z.of_nat (List.length (list_slice b j1 j2))))
    /\ shows printed lineno_l lineno_r (list_slice a i1 i2) (list_slice b j1 j2).
Proof.
  intros Hi Hj Hi2 Hj2 [[-> [L E]]|[[-> [Ei L]]|[[-> [L Ej]]|[-> [L1 L2]]]]].
  - exists (Diff.mk SAME (join sep (list_slice a i1 i2)) None).
    unfold side_by_side_change. cbn [Diff.kind Diff.left Diff.right].
    unfold sep. rewrite (split_join_slice a) by (auto; lia). rewrite <- E.
    destruct (same_loop_shows (list_slice a i1 i2) lineno_l lineno_r) as [Sh C].
    destruct (same_loop (list_slice a i1 i2) lineno_l lineno_r)
      as [printed counters].
    cbn [fst snd] in *. subst counters. exists printed. auto.
  - subst i2.
    exists (Diff.mk ADD (join sep (list_slice b j1 j2)) None).
    unfold side_by_side_change. cbn [Diff.kind Diff.left Diff.right].
    unfold sep. rewrite (split_join_slice b) by (auto; lia).
    rewrite (list_slice_empty a i1) by lia.
    destruct (add_loop_shows (list_slice b j1 j2) lineno_l lineno_r) as [Sh C].
    destruct (add_loop (list_slice b j1 j2) lineno_l lineno_r)
      as [printed counters].
    cbn [fst snd] in *. subst counters. exists printed.
    cbn [List.length]. rewrite Z.add_0_r. auto.
  - subst j2.
    exists (Diff.mk REMOVE (join sep (list_slice a i1 i2)) None).
    unfold side_by_side_change. cbn [Diff.kind Diff.left Diff.right].
    unfold sep. rewrite (split_join_slice a) by (auto; lia).
    rewrite (list_slice_empty b j1) by lia.
    destruct (remove_loop_shows (list_slice a i1 i2) lineno_l lineno_r) as [Sh C].
    destruct (remove_loop (list_slice a i1 i2) lineno_l lineno_r)
      as [printed counters].
    cbn [fst snd] in *. subst counters. exists printed.
    cbn [List.length]. rewrite Z.add_0_r. auto.
  - exists (Diff.mk REPLACE (join sep (list_slice a i1 i2))
              (Some (join sep (list_slice b j1 j2)))).
    unfold side_by_side_change. cbn [Diff.kind Diff.left Diff.right].
    pose proof (list_slice_length a i1 i2 ltac:(lia) ltac:(lia)) as La.
    pose proof (list_slice_length b j1 j2 ltac:(lia) ltac:(lia)) as Lb.
    destruct (side_by_side_replace_shows
                (join sep (list_slice a i1 i2)) (join sep (list_slice b j1 j2))
                lineno_l lineno_r) as [printed [C Sh]].
    { unfold sep. rewrite (split_join_slice a), (split_join_slice b)
        by (auto; lia). lia. }
    unfold sep in C, Sh.
    rewrite (split_join_slice a), (split_join_slice b) in C, Sh by (auto; lia).
    exists printed. auto.
Qed.

Lemma side_by_side_loop_tiled (opcodes : list (string * Z * Z * Z * Z)) :
  forall i j lineno_l lineno_r,
    0 <= i -> 0 <= j ->
    opcodes_tile a b i j opcodes ->
    exists printed counters,
      side_by_side_loop get_opcodes ndiff fuel
        (flat_map (diff_of_opcode sep a b) opcodes) lineno_l lineno_r
      = Returned (printed, counters)
      /\ shows printed lineno_l lineno_r
           (skipn (Z.to_nat i) a) (skipn (Z.to_nat j) b).
Proof.
  induction opcodes as [|[[[[tag i1] i2] j1] j2] rest IH];
    intros i j lineno_l lineno_r Hi Hj T.
  - destruct T as [-> ->]. rewrite !Nat2Z.id, !skipn_all.
    exists [], (lineno_l, lineno_r). split; [reflexivity|apply shows_nil].
  - cbn [opcodes_tile] in T. destruct T as [Ei [Ej [Hi2 [Hj2 [Htag T]]]]].
    subst i1 j1.
    destruct (opcode_shows tag i i2 j j2 lineno_l lineno_r Hi Hj Hi2 Hj2 Htag)
      as [change [printed [D [C Sh]]]].
    cbn [flat_map]. rewrite D. cbn [app side_by_side_loop].
    rewrite C. cbn [and_then].
    destruct (IH i2 j2
                (lineno_l + Z.of_nat (List.length (list_slice a i i2)))
                (lineno_r + Z.of_nat (List.length (list_slice b j j2)))
                ltac:(lia) ltac:(lia) T)
      as [printed' [counters [C' Sh']]].
    rewrite C'. cbn [and_then]. exists (printed ++ printed'), counters.
    split; [reflexivity|].
    rewrite (list_slice_skipn a i i2), (list_slice_skipn b j j2) by lia.
    apply shows_app; assumption.
Qed.

End SideBySideTiled.




